(** * twitter-skill: OAuth 2.0 PKCE token lifecycle and the users lookup

    A shallow embedding of [scripts/lib/auth.ts] (the revision with the
    global token fallback and the 1Password credential source, the one
    [scripts/twitter.ts] imports [performSetup] and [getGlobalTokenPath]
    from, its interactive [performSetup] included) and of [twitterRequest],
    [parseRateLimitHeaders], [getUsersByIds] and [searchTweets] of
    [scripts/twitter.ts].

    Conventions of the embedding:
    - a JavaScript string is a [string], read as its UTF-8 byte sequence; a
      file read as text is decoded the way [Buffer.toString("utf-8")]
      decodes it, invalid bytes replaced;
    - a JavaScript number that holds a millisecond timestamp or a count is
      a [Z];
    - an optional field ([x?: string]) and a nullable result
      ([string | null]) are an [option];
    - [async] functions are computations of the monad [M] below: they
      thread the process state [World], and return, throw, or end with the
      process killed by an exception nobody catches;
    - paths are those of [node:path] on POSIX;
    - what the process cannot decide itself (clock, entropy, the token
      endpoint, the REST API, the 1Password CLI, failing file-system
      calls, the port and the browser launcher, the requests that reach
      the listener and whether their targets parse as URLs) is read from
      an environment [Env];
    - [console.error] diagnostics are not part of the model. *)

From Stdlib Require Import ZArith String Ascii List Lia Bool.
From stdpp Require Import base option strings pretty gmap.
Import ListNotations.

Local Open Scope string_scope.
Local Open Scope Z_scope.

(** ** JavaScript values *)

Module Js.

(** Truthiness of a [string | undefined | null]: the empty string is falsy. *)
Definition truthy (o : option string) : bool :=
  match o with
  | Some s => negb (String.eqb s EmptyString)
  | None => false
  end.

(** [a || d] for an optional string [a] and a string default [d]. *)
Definition or_else (o : option string) (d : string) : string :=
  match o with
  | Some s => if String.eqb s EmptyString then d else s
  | None => d
  end.

(** [a || d] for an optional number: [0] is falsy. *)
Definition num_or_else (o : option Z) (d : Z) : Z :=
  match o with
  | Some n => if n =? 0 then d else n
  | None => d
  end.

(** [String(x)] inside a template literal or [URLSearchParams], for an
    [x] that may be [undefined]. *)
Definition to_string (o : option string) : string :=
  match o with
  | Some s => s
  | None => "undefined"
  end.

(** What can be thrown. Every one of them is an [instanceof Error]. *)
Inductive Exn : Type :=
| Error (message : string)              (* [new Error(message)] of this code *)
| SystemError (code message : string)   (* a rejected [fs] call *)
| SyntaxError (message : string)        (* [JSON.parse], [response.json()] *)
| TypeError (message : string).         (* a failed [fetch], [new URL] of an invalid URL *)

Definition message (e : Exn) : string :=
  match e with
  | Error m => m
  | SystemError _ m => m
  | SyntaxError m => m
  | TypeError m => m
  end.

(** [URLSearchParams.get]: the first value of that name. *)
Fixpoint searchParams_get (name : string) (q : list (string * string))
  : option string :=
  match q with
  | [] => None
  | (k, v) :: q' => if String.eqb k name then Some v else searchParams_get name q'
  end.

(** [s.includes(p)] and [s.endsWith(p)]. *)
Fixpoint includes (p s : string) : bool :=
  String.prefix p s ||
  match s with
  | EmptyString => false
  | String _ s' => includes p s'
  end.

Fixpoint endsWith (p s : string) : bool :=
  String.eqb p s ||
  match s with
  | EmptyString => false
  | String _ s' => endsWith p s'
  end.

End Js.

(** ** Text encodings of [Buffer.toString] *)

Module Encoding.

(** The bits of a byte, most significant first. *)
Definition bits_of_byte (a : ascii) : list bool :=
  let (b0, b1, b2, b3, b4, b5, b6, b7) := a in
  [b7; b6; b5; b4; b3; b2; b1; b0].

Fixpoint bits_of (s : string) : list bool :=
  match s with
  | EmptyString => []
  | String a s' => bits_of_byte a ++ bits_of s'
  end.

Definition nat_of_bit (b : bool) : nat := if b then 1%nat else 0%nat.

Definition nat_of_sextet (b5 b4 b3 b2 b1 b0 : bool) : nat :=
  (32 * nat_of_bit b5 + 16 * nat_of_bit b4 + 8 * nat_of_bit b3
   + 4 * nat_of_bit b2 + 2 * nat_of_bit b1 + nat_of_bit b0)%nat.

Definition alphabet_std : string :=
  "ABCDEFGHIJKLMNOPQRSTUVWXYZabcdefghijklmnopqrstuvwxyz0123456789+/".

Definition alphabet_url : string :=
  "ABCDEFGHIJKLMNOPQRSTUVWXYZabcdefghijklmnopqrstuvwxyz0123456789-_".

Definition digit (alphabet : string) (b5 b4 b3 b2 b1 b0 : bool) : ascii :=
  match String.get (nat_of_sextet b5 b4 b3 b2 b1 b0) alphabet with
  | Some c => c
  | None => "="%char
  end.

(** Bits six at a time; the last group is filled up with zero bits. *)
Fixpoint digits (alphabet : string) (bits : list bool) : string :=
  match bits with
  | [] => EmptyString
  | b5 :: b4 :: b3 :: b2 :: b1 :: b0 :: rest =>
      String (digit alphabet b5 b4 b3 b2 b1 b0) (digits alphabet rest)
  | [b5; b4; b3; b2; b1] =>
      String (digit alphabet b5 b4 b3 b2 b1 false) EmptyString
  | [b5; b4; b3; b2] =>
      String (digit alphabet b5 b4 b3 b2 false false) EmptyString
  | [b5; b4; b3] =>
      String (digit alphabet b5 b4 b3 false false false) EmptyString
  | [b5; b4] =>
      String (digit alphabet b5 b4 false false false false) EmptyString
  | [b5] =>
      String (digit alphabet b5 false false false false false) EmptyString
  end.

(** [buf.toString("base64url")]: RFC 4648 section 5, without padding. *)
Definition base64url (bytes : string) : string :=
  digits alphabet_url (bits_of bytes).

(** [buf.toString("base64")]: RFC 4648 section 4, padded with [=] to a
    multiple of four characters. *)
Definition base64 (bytes : string) : string :=
  let d := digits alphabet_std (bits_of bytes) in
  match (String.length bytes mod 3)%nat with
  | 1%nat => d ++ "=="
  | 2%nat => d ++ "="
  | _ => d
  end.

Definition hex_digit (b3 b2 b1 b0 : bool) : ascii :=
  match String.get (8 * nat_of_bit b3 + 4 * nat_of_bit b2
                    + 2 * nat_of_bit b1 + nat_of_bit b0)%nat
                   "0123456789abcdef" with
  | Some c => c
  | None => "?"%char
  end.

(** [buf.toString("hex")]: two lower-case digits per byte. *)
Fixpoint hex (bytes : string) : string :=
  match bytes with
  | EmptyString => EmptyString
  | String (Ascii b0 b1 b2 b3 b4 b5 b6 b7) s' =>
      String (hex_digit b7 b6 b5 b4) (String (hex_digit b3 b2 b1 b0) (hex s'))
  end.

(** [buf.toString("utf-8")], as [fs.readFile(path, "utf-8")] applies it to
    the bytes of a file: well-formed sequences stand for themselves, and
    every maximal ill-formed part is replaced by U+FFFD (the decoder of
    the WHATWG Encoding standard). [pending] holds the bytes of the
    sequence under way, [needed] the number of bytes it still lacks, and
    [lower] and [upper] bound the next byte. *)
Definition REPLACEMENT : string :=
  String (ascii_of_nat 239) (String (ascii_of_nat 191) (String (ascii_of_nat 189) EmptyString)).

Fixpoint utf8_decode_from (pending : string) (needed lower upper : nat)
    (bytes : string) : string :=
  match bytes with
  | EmptyString => match needed with O => EmptyString | S _ => REPLACEMENT end
  | String b rest =>
      let n := nat_of_ascii b in
      (* the byte read with no sequence under way *)
      let start :=
        if (n <? 128)%nat then
          String b (utf8_decode_from EmptyString 0 128 191 rest)
        else if (194 <=? n)%nat && (n <=? 223)%nat then
          utf8_decode_from (String b EmptyString) 1 128 191 rest
        else if (224 <=? n)%nat && (n <=? 239)%nat then
          utf8_decode_from (String b EmptyString) 2
            (if (n =? 224)%nat then 160 else 128)%nat
            (if (n =? 237)%nat then 159 else 191)%nat rest
        else if (240 <=? n)%nat && (n <=? 244)%nat then
          utf8_decode_from (String b EmptyString) 3
            (if (n =? 240)%nat then 144 else 128)%nat
            (if (n =? 244)%nat then 143 else 191)%nat rest
        else REPLACEMENT ++ utf8_decode_from EmptyString 0 128 191 rest in
      match needed with
      | O => start
      | S O =>
          if (lower <=? n)%nat && (n <=? upper)%nat
          then pending ++ String b (utf8_decode_from EmptyString 0 128 191 rest)
          else REPLACEMENT ++ start
      | S (S _ as needed') =>
          if (lower <=? n)%nat && (n <=? upper)%nat
          then utf8_decode_from (pending ++ String b EmptyString) needed' 128 191 rest
          else REPLACEMENT ++ start
      end
  end.

Definition utf8_decode (bytes : string) : string :=
  utf8_decode_from EmptyString 0 128 191 bytes.

End Encoding.

(** ** [node:path], on POSIX *)

Module Path.

Definition is_separator (c : ascii) : bool := Ascii.eqb c "/"%char.

(** What stands between the separators of a path. *)
Fixpoint segments (p : string) : list string :=
  match p with
  | EmptyString => [EmptyString]
  | String c p' =>
      if is_separator c then EmptyString :: segments p'
      else match segments p' with
           | seg :: rest => String c seg :: rest
           | [] => [String c EmptyString]
           end
  end.

(** One segment more for [normalizeString]; [res] is the result so far,
    last segment first. An empty segment and [.] are dropped; [..] takes
    the last segment away, and where there is none to take it stays, in a
    relative path only. *)
Definition normalize_step (allowAboveRoot : bool) (res : list string) (seg : string)
  : list string :=
  if String.eqb seg EmptyString || String.eqb seg "." then res
  else if String.eqb seg ".." then
    match res with
    | top :: below =>
        if String.eqb top ".." then (if allowAboveRoot then seg :: res else res)
        else below
    | [] => if allowAboveRoot then [seg] else []
    end
  else seg :: res.

Definition normalizeString (path : string) (allowAboveRoot : bool) : string :=
  String.concat "/" (rev (fold_left (normalize_step allowAboveRoot) (segments path) [])).

Definition starts_with_separator (p : string) : bool :=
  match p with
  | String c _ => is_separator c
  | EmptyString => false
  end.

Fixpoint ends_with_separator (p : string) : bool :=
  match p with
  | EmptyString => false
  | String c EmptyString => is_separator c
  | String _ p' => ends_with_separator p'
  end.

(** [path.normalize] *)
Definition normalize (path : string) : string :=
  if String.eqb path EmptyString then "."
  else
    let isAbsolute := starts_with_separator path in
    let trailingSeparator := ends_with_separator path in
    let path := normalizeString path (negb isAbsolute) in
    if String.eqb path EmptyString then
      if isAbsolute then "/" else if trailingSeparator then "./" else "."
    else
      let path := if trailingSeparator then path ++ "/" else path in
      if isAbsolute then "/" ++ path else path.

(** [path.join(...args)]: the arguments that are not empty, put together
    with separators and normalized. *)
Definition join (args : list string) : string :=
  match List.filter (fun arg => negb (String.eqb arg EmptyString)) args with
  | [] => "."
  | joined => normalize (String.concat "/" joined)
  end.

(** Whether a name follows somewhere, and the place of the last separator
    that has a name after it. *)
Fixpoint has_name (p : string) : bool :=
  match p with
  | EmptyString => false
  | String c p' => negb (is_separator c) || has_name p'
  end.

Fixpoint last_separator_before_name (p : string) : option nat :=
  match p with
  | EmptyString => None
  | String c p' =>
      match last_separator_before_name p' with
      | Some i => Some (S i)
      | None => if is_separator c && has_name p' then Some O else None
      end
  end.

(** [path.dirname]: the path up to the separator before its last name,
    trailing separators not counted; the first character is never taken
    for that separator. *)
Definition dirname (path : string) : string :=
  match path with
  | EmptyString => "."
  | String c rest =>
      let hasRoot := is_separator c in
      match last_separator_before_name rest with
      | None => if hasRoot then "/" else "."
      | Some i =>
          if hasRoot && (i =? 0)%nat then "//"
          else String c (String.substring 0 i rest)
      end
  end.

End Path.

(** ** Environment and process state *)

(** A JSON file on disk, as the code can meet it once [fs.access] has
    succeeded: [fs.readFile] rejects, or [JSON.parse] throws, or the text
    parses into a value of the type the code casts it to. A file whose JSON
    has another shape than that type is outside the model. *)
Inductive JsonFile (A : Type) : Type :=
| Unreadable (code message : string)   (* [fs.readFile] rejects: EACCES, EISDIR, ... *)
| Malformed (message : string)         (* [JSON.parse] throws *)
| Document (a : A).
Arguments Unreadable {A} code message.
Arguments Malformed {A} message.
Arguments Document {A} a.

(** A text file on disk: [fs.readFile] rejects, or the file holds these
    bytes. *)
Inductive TextFile : Type :=
| TextUnreadable (code message : string)
| Text (content : string).

Record Credentials : Type := mkCredentials {
  client_id : string;
  client_secret : string;
}.

(** [credentials.json] as parsed: both fields may be missing. *)
Record CredentialsDoc : Type := mkCredentialsDoc {
  doc_client_id : option string;
  doc_client_secret : option string;
}.

(** [interface TokenData]. [access_token] is the one field the code can
    leave [undefined]: [performAuth] stores [tokenResult.access_token!]
    without a run-time check. *)
Record TokenData : Type := mkTokenData {
  access_token : option string;
  refresh_token : string;
  expires_at : Z;
  scope : string;
  token_type : string;
}.

(** The JSON body of a token-endpoint response. *)
Record TokenResponse : Type := mkTokenResponse {
  r_access_token : option string;
  r_refresh_token : option string;
  r_expires_in : option Z;
  r_scope : option string;
  r_token_type : option string;
  r_error : option string;
  r_error_description : option string;
}.

(** What [await fetch(...)] followed by [await response.json()] gives. *)
Inductive Fetched (A : Type) : Type :=
| NetworkFailure (message : string)     (* [fetch] rejects *)
| BodyNotJson (message : string)        (* [response.json()] rejects *)
| JsonBody (a : A).
Arguments NetworkFailure {A} message.
Arguments BodyNotJson {A} message.
Arguments JsonBody {A} a.

(** The JSON body of a REST response, as far as the code looks into it. *)
Record ApiBody : Type := mkApiBody {
  body_data : option (list string);          (* [data]: the users, each kept opaque *)
  body_detail : option string;
  body_title : option string;
  body_first_error_message : option string;  (* [errors?.[0]?.message] *)
  body_deleted : option bool;                (* [deleted] *)
}.

(** A REST response, as [twitterRequest] reads it. *)
Record ApiResponse : Type := mkApiResponse {
  status : Z;
  ok : bool;
  x_rate_limit_limit : option string;        (* [headers.get(...)] *)
  x_rate_limit_remaining : option string;
  x_rate_limit_reset : option string;
  json : string + ApiBody;                   (* [await response.json()], or the message it rejects with *)
}.

(** What [new URL(req.url, "http://127.0.0.1:3000")] makes of the target
    of a request: it throws a [TypeError] (the target [//], for one, has no
    host), or it gives a URL, of which the handler reads [searchParams]
    only. *)
Inductive Target : Type :=
| Unparseable (target : string)
| Parsed (query : list (string * string)).

(** How [spawn] of the browser launcher ends. [spawn] throws at once on
    some errors, and reports the others (ENOENT when there is no
    [xdg-open], EACCES, ...) by an ['error'] event on the child. *)
Inductive Spawn : Type :=
| Spawned
| SpawnThrows (e : Js.Exn)
| SpawnErrorEvent (code message : string).

Record Env : Type := mkEnv {
  cwd : string;                          (* [process.cwd()] *)
  xdg_config_home : option string;       (* [process.env.XDG_CONFIG_HOME] *)
  homedir : string;                      (* [os.homedir()] *)
  clock : nat -> Z;                      (* the n-th reading of [Date.now()] *)
  entropy : nat -> ascii;                (* the byte stream behind [crypto.randomBytes] *)
  sha256 : string -> string;             (* [crypto.createHash("sha256")] digest *)
  op_version_ok : bool;                  (* [op --version] exits normally *)
  op_read : string -> option string;     (* trimmed output of [op read "<ref>"], if it exits normally *)
  (* [fs.mkdir(dir, {recursive})] and [fs.writeFile(path, ...)] reject
     with this code and message *)
  mkdir_error : string -> option (string * string);
  write_error : string -> option (string * string);
  (* of a [fs.writeFile(path, data)] that rejects: [None] when the file
     could not be opened and is as it was; [Some (n, msg)] when it had been
     created or truncated and holds the first [n] bytes of the data, none
     perhaps, a text on which [JSON.parse] throws [SyntaxError(msg)] *)
  write_torn : string -> option (nat * string);
  (* [server.listen(3000, "127.0.0.1")] fails with this code and message
     (EADDRINUSE, EACCES) *)
  listen_error : option (string * string);
  browser : Spawn;
  (* the n-th request of the process to the token endpoint *)
  token_endpoint : nat -> string -> list (string * string) -> Fetched TokenResponse;
  (* the n-th request of the process to the REST API: URL and bearer *)
  api : nat -> string -> string -> string + ApiResponse;
  (* the requests that reach the local listener within the five minutes,
     in order, once the authorization URL with this query is out *)
  callback_requests : list (string * string) -> list Target;
}.

(** Observable effects, in order. *)
Inductive Event : Type :=
| TokenPost (authorization : string) (body : list (string * string))
| ApiGet (url : string) (authorization : string)
| BrowserOpen (query : list (string * string))
| Listen
| Reply (status_code : Z) (html : string)
| ServerClose.

Record World : Type := mkWorld {
  token_files : gmap string (JsonFile TokenData);
  credentials_file : option (JsonFile CredentialsDoc);
  gitignore_file : option TextFile;
  ticks : nat;          (* clock readings so far *)
  drawn : nat;          (* random bytes drawn so far *)
  posts : nat;          (* requests to the token endpoint so far *)
  calls : nat;          (* requests to the REST API so far *)
  trace : list Event;
}.

Definition with_token_files (f : gmap string (JsonFile TokenData)) (w : World) : World :=
  mkWorld f (credentials_file w) (gitignore_file w) (ticks w) (drawn w) (posts w) (calls w) (trace w).
Definition with_gitignore (g : option TextFile) (w : World) : World :=
  mkWorld (token_files w) (credentials_file w) g (ticks w) (drawn w) (posts w) (calls w) (trace w).
Definition with_ticks (n : nat) (w : World) : World :=
  mkWorld (token_files w) (credentials_file w) (gitignore_file w) n (drawn w) (posts w) (calls w) (trace w).
Definition with_drawn (n : nat) (w : World) : World :=
  mkWorld (token_files w) (credentials_file w) (gitignore_file w) (ticks w) n (posts w) (calls w) (trace w).
Definition with_posts (n : nat) (w : World) : World :=
  mkWorld (token_files w) (credentials_file w) (gitignore_file w) (ticks w) (drawn w) n (calls w) (trace w).
Definition with_calls (n : nat) (w : World) : World :=
  mkWorld (token_files w) (credentials_file w) (gitignore_file w) (ticks w) (drawn w) (posts w) n (trace w).
Definition with_trace (t : list Event) (w : World) : World :=
  mkWorld (token_files w) (credentials_file w) (gitignore_file w) (ticks w) (drawn w) (posts w) (calls w) t.

(** ** The monad of [async] functions *)

(** A computation returns, or throws to its caller, or ends with the
    process: an exception that escapes an event listener and an ['error']
    event without a listener are uncaught exceptions, on which Node prints
    the error and exits; no [catch] of the program sees them. *)
Inductive Outcome (A : Type) : Type :=
| Returned (a : A)
| Thrown (e : Js.Exn)
| Crashed (e : Js.Exn).
Arguments Returned {A} a.
Arguments Thrown {A} e.
Arguments Crashed {A} e.

Definition M (A : Type) : Type := World -> Outcome A * World.

Definition ret {A} (a : A) : M A := fun w => (Returned a, w).
Definition throw {A} (e : Js.Exn) : M A := fun w => (Thrown e, w).
Definition crash {A} (e : Js.Exn) : M A := fun w => (Crashed e, w).
Definition bind {A B} (m : M A) (k : A -> M B) : M B :=
  fun w => match m w with
           | (Returned a, w') => k a w'
           | (Thrown e, w') => (Thrown e, w')
           | (Crashed e, w') => (Crashed e, w')
           end.
(** [try { m } catch (e) { h e }] *)
Definition try_catch {A} (m : M A) (h : Js.Exn -> M A) : M A :=
  fun w => match m w with
           | (Returned a, w') => (Returned a, w')
           | (Thrown e, w') => h e w'
           | (Crashed e, w') => (Crashed e, w')
           end.
(** [m] run as an event listener: what it throws, nobody catches. *)
Definition uncaught {A} (m : M A) : M A :=
  fun w => match m w with
           | (Thrown e, w') => (Crashed e, w')
           | r => r
           end.
Definition emit (ev : Event) : M unit :=
  fun w => (Returned tt, with_trace (trace w ++ [ev]) w).

Notation "'let*' x ':=' m 'in' k" := (bind m (fun x => k))
  (at level 10, x pattern, m at level 100, k at level 200).
Notation "m ';;' k" := (bind m (fun _ => k))
  (at level 100, k at level 200, right associativity).

(** What a computation leaves alone: the token files; the count of
    requests to the token endpoint together with the trace. *)
Definition keeps_tokens {A} (m : M A) : Prop :=
  forall w, token_files (snd (m w)) = token_files w.
Definition keeps_posts {A} (m : M A) : Prop :=
  forall w, posts (snd (m w)) = posts w /\ trace (snd (m w)) = trace w.

(** ** [scripts/lib/auth.ts] *)

Module Auth.

Definition nl : string := String "010"%char EmptyString.

(** The double quote, for the texts that hold one. *)
Definition quote : string := String (ascii_of_nat 34) EmptyString.

Definition OP_CLIENT_ID_REF : string := "op://Development/Twitter Client ID/notesPlain".
Definition OP_CLIENT_SECRET_REF : string := "op://Development/Twitter Client Secret/notesPlain".

Definition PROJECT_TOKEN_DIR : string := ".claude".
Definition PROJECT_TOKEN_FILE : string := "twitter-skill.local.json".
Definition GLOBAL_TOKEN_FILE : string := "tokens.json".

Definition TWITTER_AUTH_URL : string := "https://twitter.com/i/oauth2/authorize".
Definition TWITTER_TOKEN_URL : string := "https://api.twitter.com/2/oauth2/token".
Definition CALLBACK_URL : string := "http://127.0.0.1:3000/callback".
Definition PORT : Z := 3000.

Definition SCOPES : string :=
  "tweet.read tweet.write users.read list.read list.write like.read like.write offline.access".

Section WithEnv.

Variable env : Env.

Definition getGlobalConfigDir : string :=
  let xdgConfig := Js.or_else (xdg_config_home env) (Path.join [homedir env; ".config"]) in
  Path.join [xdgConfig; "twitter-skill"].

Definition GLOBAL_CONFIG_DIR : string := getGlobalConfigDir.
Definition CREDENTIALS_PATH : string := Path.join [GLOBAL_CONFIG_DIR; "credentials.json"].

Definition getProjectTokenPath : string :=
  Path.join [cwd env; PROJECT_TOKEN_DIR; PROJECT_TOKEN_FILE].

Definition getGlobalTokenPath : string :=
  Path.join [GLOBAL_CONFIG_DIR; GLOBAL_TOKEN_FILE].

(** *** Primitives *)

Definition Date_now : M Z :=
  fun w => (Returned (clock env (ticks w)), with_ticks (S (ticks w)) w).

Definition ENOENT (p : string) : Js.Exn :=
  Js.SystemError "ENOENT" ("ENOENT: no such file or directory, open '" ++ p ++ "'").

(** [fs.access(path)] on a token path. *)
Definition fs_access (p : string) : M unit :=
  fun w => match token_files w !! p with
           | Some _ => (Returned tt, w)
           | None => (Thrown (ENOENT p), w)
           end.

(** [JSON.parse(await fs.readFile(path, "utf-8")) as TokenData] *)
Definition read_token_json (p : string) : M TokenData :=
  fun w => match token_files w !! p with
           | None => (Thrown (ENOENT p), w)
           | Some (Unreadable code msg) => (Thrown (Js.SystemError code msg), w)
           | Some (Malformed msg) => (Thrown (Js.SyntaxError msg), w)
           | Some (Document t) => (Returned t, w)
           end.

(** [JSON.parse(await fs.readFile(CREDENTIALS_PATH, "utf-8"))] *)
Definition read_credentials_json : M CredentialsDoc :=
  fun w => match credentials_file w with
           | None => (Thrown (ENOENT CREDENTIALS_PATH), w)
           | Some (Unreadable code msg) => (Thrown (Js.SystemError code msg), w)
           | Some (Malformed msg) => (Thrown (Js.SyntaxError msg), w)
           | Some (Document d) => (Returned d, w)
           end.

(** [fs.mkdir(dir, { recursive: true })]; directories are not tracked. *)
Definition fs_mkdir (dir : string) : M unit :=
  fun w => match mkdir_error env dir with
           | Some (code, msg) => (Thrown (Js.SystemError code msg), w)
           | None => (Returned tt, w)
           end.

(** [fs.writeFile(path, JSON.stringify(tokenData, null, 2))]: the file
    is replaced as a whole, and reads back as the record written. A write
    that is rejected before the file is opened leaves it as it was; one
    that is rejected later (ENOSPC, EFBIG, EIO) has truncated it already,
    and leaves the beginning of the JSON text at most, which does not
    parse. *)
Definition write_token_json (p : string) (t : TokenData) : M unit :=
  fun w => match write_error env p with
           | Some (code, msg) =>
               (Thrown (Js.SystemError code msg),
                match write_torn env p with
                | Some (_, parse_msg) =>
                    with_token_files (<[p := Malformed parse_msg]> (token_files w)) w
                | None => w
                end)
           | None => (Returned tt, with_token_files (<[p := Document t]> (token_files w)) w)
           end.

(** [await fetch(TWITTER_TOKEN_URL, { method: "POST", ... })] and
    [await response.json()]. *)
Definition post_token (authorization : string) (body : list (string * string))
  : M TokenResponse :=
  fun w =>
    let w' := with_posts (S (posts w))
                (with_trace (trace w ++ [TokenPost authorization body]) w) in
    match token_endpoint env (posts w) authorization body with
    | NetworkFailure msg => (Thrown (Js.TypeError msg), w')
    | BodyNotJson msg => (Thrown (Js.SyntaxError msg), w')
    | JsonBody r => (Returned r, w')
    end.

(** *** 1Password *)

Definition is1PasswordAvailable : bool := op_version_ok env.

Definition readFrom1Password (reference : string) : option string :=
  op_read env reference.

Definition loadCredentialsFrom1Password : option Credentials :=
  let clientId := readFrom1Password OP_CLIENT_ID_REF in
  let clientSecret := readFrom1Password OP_CLIENT_SECRET_REF in
  match clientId, clientSecret with
  | Some i, Some s =>
      if Js.truthy clientId && Js.truthy clientSecret
      then Some (mkCredentials i s) else None
  | _, _ => None
  end.

(** *** Credential and token management *)

Definition no_credentials_message : string :=
  "No credentials found. Run: pnpm tsx scripts/twitter.ts setup" ++ nl ++
  "Credentials will be saved to: " ++ CREDENTIALS_PATH.

Definition loadCredentials : M Credentials :=
  let* saved :=
    try_catch
      (let* data := read_credentials_json in
       match doc_client_id data, doc_client_secret data with
       | Some i, Some s =>
           if Js.truthy (doc_client_id data) && Js.truthy (doc_client_secret data)
           then ret (Some (mkCredentials i s)) else ret None
       | _, _ => ret None
       end)
      (fun _ => ret None) in
  match saved with
  | Some c => ret c
  | None =>
      if is1PasswordAvailable then
        match loadCredentialsFrom1Password with
        | Some opCreds => ret opCreds
        | None => throw (Js.Error no_credentials_message)
        end
      else throw (Js.Error no_credentials_message)
  end.

Definition findTokenPath : M (option string) :=
  let projectPath := getProjectTokenPath in
  try_catch (fs_access projectPath ;; ret (Some projectPath))
    (fun _ =>
       let globalPath := getGlobalTokenPath in
       try_catch (fs_access globalPath ;; ret (Some globalPath))
         (fun _ => ret None)).

Definition token_not_found_message : string :=
  "Token not found. Run: pnpm tsx scripts/twitter.ts auth" ++ nl ++
  "Looked in:" ++ nl ++
  "  - " ++ getProjectTokenPath ++ " (project-local)" ++ nl ++
  "  - " ++ getGlobalTokenPath ++ " (global fallback)".

Definition loadToken : M TokenData :=
  let* tokenPath := findTokenPath in
  match tokenPath with
  | None => throw (Js.Error token_not_found_message)
  | Some tokenPath => read_token_json tokenPath
  end.

Definition saveToken (tokenData : TokenData) (global : bool) : M unit :=
  let tokenPath := if global then getGlobalTokenPath else getProjectTokenPath in
  let tokenDir := Path.dirname tokenPath in
  fs_mkdir tokenDir ;;
  write_token_json tokenPath tokenData.

(** *** Token refresh *)

Definition basic_auth (credentials : Credentials) : string :=
  Encoding.base64 (client_id credentials ++ ":" ++ client_secret credentials).

Definition refreshAccessToken (credentials : Credentials) (refreshToken : string)
    (tokenPath : string) : M TokenData :=
  let basicAuth := basic_auth credentials in
  let* data := post_token ("Basic " ++ basicAuth)
                 [("grant_type", "refresh_token"); ("refresh_token", refreshToken)] in
  if Js.truthy (r_error data) then
    throw (Js.Error ("Token refresh failed: " ++
                     Js.or_else (r_error_description data) (Js.to_string (r_error data))))
  else if negb (Js.truthy (r_access_token data)) || negb (Js.truthy (r_refresh_token data)) then
    throw (Js.Error "Invalid token response from Twitter")
  else
    let* now := Date_now in
    let tokenData := {|
      access_token := r_access_token data;
      refresh_token := Js.to_string (r_refresh_token data);
      expires_at := now + Js.num_or_else (r_expires_in data) 7200 * 1000;
      scope := Js.or_else (r_scope data) SCOPES;
      token_type := Js.or_else (r_token_type data) "bearer";
    |} in
    (* Save back to the original location *)
    let isGlobal := String.eqb tokenPath getGlobalTokenPath in
    saveToken tokenData isGlobal ;;
    ret tokenData.

(** The record both [refreshAccessToken] and [performAuth] make of a
    response read at time [now]. *)
Definition token_of_response (now : Z) (data : TokenResponse) : TokenData :=
  {| access_token := r_access_token data;
     refresh_token := Js.to_string (r_refresh_token data);
     expires_at := now + Js.num_or_else (r_expires_in data) 7200 * 1000;
     scope := Js.or_else (r_scope data) SCOPES;
     token_type := Js.or_else (r_token_type data) "bearer" |}.

(** The request a call of [refreshAccessToken] leaves in the trace. *)
Definition refresh_request (credentials : Credentials) (refreshToken : string) : Event :=
  TokenPost ("Basic " ++ basic_auth credentials)
    [("grant_type", "refresh_token"); ("refresh_token", refreshToken)].

(** *** Get valid access token (auto-refresh) *)

Definition bufferMs : Z := 5 * 60 * 1000.

Definition getValidAccessToken : M (option string) :=
  let* credentials := loadCredentials in
  let* tokenPath := findTokenPath in
  match tokenPath with
  | None => throw (Js.Error token_not_found_message)
  | Some tokenPath =>
      let* tokenData := read_token_json tokenPath in
      (* Refresh if expired (with 5 minute buffer) *)
      let* now := Date_now in
      let* tokenData :=
        if expires_at tokenData <? now + bufferMs
        then refreshAccessToken credentials (refresh_token tokenData) tokenPath
        else ret tokenData in
      ret (access_token tokenData)
  end.

(** *** Check authentication status *)

Record AuthStatus : Type := mkAuthStatus {
  authenticated : bool;
  expiresAt : option Z;        (* [new Date(expires_at)], as its time value *)
  error : option string;
}.

Definition checkAuth : M AuthStatus :=
  try_catch
    (let* tokenData := loadToken in
     let* now := Date_now in
     let isExpired := expires_at tokenData <? now in
     ret {| authenticated := negb isExpired;
            expiresAt := Some (expires_at tokenData);
            error := None |})
    (fun error =>
       ret {| authenticated := false;
              expiresAt := None;
              error := Some (Js.message error) |}).

(** *** PKCE helpers *)

(** [n] successive bytes of the entropy stream, from position [from]. *)
Fixpoint entropy_bytes (n from : nat) : string :=
  match n with
  | O => EmptyString
  | S n' => String (entropy env from) (entropy_bytes n' (S from))
  end.

(** [crypto.randomBytes(n)] *)
Definition randomBytes (n : nat) : M string :=
  fun w => (Returned (entropy_bytes n (drawn w)), with_drawn (drawn w + n)%nat w).

Definition generateCodeVerifier : M string :=
  let* bytes := randomBytes 32 in
  ret (Encoding.base64url bytes).

Definition generateCodeChallenge (verifier : string) : string :=
  Encoding.base64url (sha256 env verifier).

Definition generateState : M string :=
  let* bytes := randomBytes 16 in
  ret (Encoding.hex bytes).

Record PkceSession : Type := mkPkceSession {
  code_verifier : string;
  code_challenge : string;
  state : string;
}.

(** The three lines of [performAuth] under "Generate PKCE challenge". *)
Definition generatePkce : M PkceSession :=
  let* codeVerifier := generateCodeVerifier in
  let codeChallenge := generateCodeChallenge codeVerifier in
  let* state := generateState in
  ret (mkPkceSession codeVerifier codeChallenge state).

(** *** Gitignore management *)

Definition gitignorePath : string := Path.join [cwd env; ".gitignore"].
Definition pattern : string := ".claude/*.local.*".

(** [fs.readFile(gitignorePath, "utf-8")] *)
Definition read_gitignore : M string :=
  fun w => match gitignore_file w with
           | None => (Thrown (ENOENT gitignorePath), w)
           | Some (TextUnreadable code msg) => (Thrown (Js.SystemError code msg), w)
           | Some (Text bytes) => (Returned (Encoding.utf8_decode bytes), w)
           end.

(** [fs.writeFile(gitignorePath, content)] *)
Definition write_gitignore (content : string) : M unit :=
  fun w => match write_error env gitignorePath with
           | Some (code, msg) =>
               (Thrown (Js.SystemError code msg),
                match write_torn env gitignorePath with
                | Some (n, _) =>
                    with_gitignore (Some (Text (String.substring 0 n content))) w
                | None => w
                end)
           | None => (Returned tt, with_gitignore (Some (Text content)) w)
           end.

Definition ensureGitignore : M unit :=
  try_catch
    (let* content := read_gitignore in
     if Js.includes pattern content then ret tt (* Already configured *)
     else
       let newContent :=
         if Js.endsWith nl content
         then content ++ nl ++ "# Twitter skill tokens (per-project auth)" ++ nl ++ pattern ++ nl
         else content ++ nl ++ nl ++ "# Twitter skill tokens (per-project auth)" ++ nl ++ pattern ++ nl in
       write_gitignore newContent)
    (fun err =>
       match err with
       | Js.SystemError "ENOENT" _ =>
           (* No .gitignore, create one *)
           write_gitignore ("# Twitter skill tokens (per-project auth)" ++ nl ++ pattern ++ nl)
       | _ => throw err
       end).

(** *** The local callback listener *)

(** What one call of the handler, or of the timer, tells the promise
    [performAuth] awaits: nothing, [resolve(code)] or [reject(e)]. *)
Inductive Settlement : Type :=
| Pending
| Resolved (code : string)
| Rejected (e : Js.Exn).

(** A promise keeps its first settlement: [resolve] and [reject] do
    nothing on a settled promise. *)
Definition settle (promise told : Settlement) : Settlement :=
  match promise with
  | Pending => told
  | _ => promise
  end.

(** The confirmation page. *)
Definition check_mark : string :=
  String (ascii_of_nat 226) (String (ascii_of_nat 156) (String (ascii_of_nat 147) EmptyString)).

Definition success_page : string :=
  nl ++
  "          <html>" ++ nl ++
  "            <body style=" ++ quote ++
  "font-family: system-ui; display: flex; justify-content: center; align-items: center; height: 100vh; margin: 0;" ++
  quote ++ ">" ++ nl ++
  "              <div style=" ++ quote ++ "text-align: center;" ++ quote ++ ">" ++ nl ++
  "                <h1 style=" ++ quote ++ "color: #1DA1F2;" ++ quote ++ ">" ++
  check_mark ++ " Authentication Successful!</h1>" ++ nl ++
  "                <p>You can close this window and return to the terminal.</p>" ++ nl ++
  "              </div>" ++ nl ++
  "            </body>" ++ nl ++
  "          </html>" ++ nl ++
  "        ".

(** [new URL(req.url!, `http://127.0.0.1:${PORT}`)], of which the
    handler reads [searchParams]. *)
Definition new_URL (req_url : Target) : M (list (string * string)) :=
  match req_url with
  | Unparseable _ => throw (Js.TypeError "Invalid URL")
  | Parsed query => ret query
  end.

(** The request handler given to [http.createServer]. *)
Definition handleRequest (state : string) (req_url : Target) : M Settlement :=
  let* query := new_URL req_url in
  let returnedCode := Js.searchParams_get "code" query in
  let returnedState := Js.searchParams_get "state" query in
  let error := Js.searchParams_get "error" query in
  let errorDescription := Js.searchParams_get "error_description" query in
  if Js.truthy error then
    emit (Reply 400 ("<h1>Error: " ++ Js.to_string error ++ "</h1><p>" ++
                     Js.or_else errorDescription EmptyString ++
                     "</p><p>You can close this window.</p>")) ;;
    emit ServerClose ;;
    ret (Rejected (Js.Error (Js.to_string error ++ ": " ++
                             Js.or_else errorDescription EmptyString)))
  else if negb (bool_decide (returnedState = Some state)) then
    emit (Reply 400 ("<h1>Error: State mismatch</h1>" ++
                     "<p>Possible CSRF attack. You can close this window.</p>")) ;;
    emit ServerClose ;;
    ret (Rejected (Js.Error "State mismatch - possible CSRF attack"))
  else if Js.truthy returnedCode then
    emit (Reply 200 success_page) ;;
    emit ServerClose ;;
    ret (Resolved (Js.to_string returnedCode))
  else
    emit (Reply 404 EmptyString) ;;
    ret Pending.

(** The requests the handler answers with the empty 404: the target
    parses, and there is no non-empty [error], the expected [state], no
    non-empty [code]. *)
Definition left_pending (state : string) (req_url : Target) : bool :=
  match req_url with
  | Unparseable _ => false
  | Parsed query =>
      negb (Js.truthy (Js.searchParams_get "error" query))
      && bool_decide (Js.searchParams_get "state" query = Some state)
      && negb (Js.truthy (Js.searchParams_get "code" query))
  end.

Definition timeout_error : Js.Exn := Js.Error "Authentication timeout (5 minutes)".

(** The callback of [setTimeout]: it closes the server and gives the
    error it rejects the promise with. The timer is never cleared: it runs
    five minutes after the listener was set up whenever the process still
    lives, on a promise settled long ago too. *)
Definition onTimeout : M Js.Exn :=
  emit ServerClose ;;
  ret timeout_error.

(** The listener as [performAuth] meets it: the requests are handled in
    order until one settles the promise, which ends the [await]; when none
    has, the timer settles it. An exception of the handler escapes into
    the event loop. *)
Fixpoint serve (state : string) (requests : list Target) : M string :=
  match requests with
  | [] =>
      let* e := onTimeout in
      throw e
  | req_url :: later =>
      let* told := uncaught (handleRequest state req_url) in
      match told with
      | Pending => serve state later
      | Resolved code => ret code
      | Rejected e => throw e
      end
  end.

(** The listener over its whole life. [server.close()] stops the server
    from accepting connections and leaves the open ones to the handler, and
    nothing takes the handler or the timer away once the promise is
    settled: every request of the five minutes is handled, those that come
    after the settling one too, and the timer runs at the end. [promise]
    is the state of the promise so far; the result is its state at the
    end. *)
Fixpoint listener (state : string) (promise : Settlement) (requests : list Target)
  : M Settlement :=
  match requests with
  | [] =>
      let* e := onTimeout in
      ret (settle promise (Rejected e))
  | req_url :: later =>
      let* told := uncaught (handleRequest state req_url) in
      listener state (settle promise told) later
  end.

(** [server.listen(PORT, "127.0.0.1", ...)]; the server has no ['error']
    listener. *)
Definition listen : M unit :=
  emit Listen ;;
  match listen_error env with
  | Some (code, msg) => crash (Js.SystemError code msg)
  | None => ret tt
  end.

(** [openBrowser(url)]: [spawn] of the platform's launcher, detached;
    the child has no ['error'] listener. *)
Definition openBrowser (url : list (string * string)) : M unit :=
  emit (BrowserOpen url) ;;
  match browser env with
  | Spawned => ret tt
  | SpawnThrows e => throw e
  | SpawnErrorEvent code msg => crash (Js.SystemError code msg)
  end.

(** [await new Promise<string>(...)] of [performAuth]. *)
Definition awaitCallback (state : string) (authUrl : list (string * string))
  : M string :=
  listen ;;
  try_catch (openBrowser authUrl) (fun _ => ret tt) ;;
  serve state (callback_requests env authUrl).

(** *** OAuth 2.0 PKCE flow *)

Definition no_refresh_token_message : string :=
  "No refresh token received." ++ nl ++
  "This can happen if you've already authorized this app." ++ nl ++
  "Fix: Go to https://twitter.com/settings/connected_apps" ++ nl ++
  "     Remove access for this app, then run auth again.".

(** The query of the authorization URL, in the order it is set. *)
Definition authorization_query (credentials : Credentials) (session : PkceSession)
  : list (string * string) :=
  [("response_type", "code");
   ("client_id", client_id credentials);
   ("redirect_uri", CALLBACK_URL);
   ("scope", SCOPES);
   ("state", state session);
   ("code_challenge", code_challenge session);
   ("code_challenge_method", "S256")].

(** "Exchange code for tokens", to the end of [performAuth]. *)
Definition exchangeCode (credentials : Credentials) (global : bool)
    (code codeVerifier : string) : M unit :=
  let basicAuth := basic_auth credentials in
  let* tokenResult :=
    post_token ("Basic " ++ basicAuth)
      [("code", code);
       ("grant_type", "authorization_code");
       ("redirect_uri", CALLBACK_URL);
       ("code_verifier", codeVerifier)] in
  if Js.truthy (r_error tokenResult) then
    throw (Js.Error ("Token exchange failed: " ++
                     Js.or_else (r_error_description tokenResult)
                                (Js.to_string (r_error tokenResult))))
  else if negb (Js.truthy (r_refresh_token tokenResult)) then
    throw (Js.Error no_refresh_token_message)
  else
    let* now := Date_now in
    let tokenData := {|
      access_token := r_access_token tokenResult;
      refresh_token := Js.to_string (r_refresh_token tokenResult);
      expires_at := now + Js.num_or_else (r_expires_in tokenResult) 7200 * 1000;
      scope := Js.or_else (r_scope tokenResult) SCOPES;
      token_type := Js.or_else (r_token_type tokenResult) "bearer";
    |} in
    saveToken tokenData global.

(** [performAuth] up to the listener: credentials, token directory,
    [.gitignore], PKCE session. *)
Definition prepareAuth (global : bool) : M (Credentials * PkceSession) :=
  let* credentials := loadCredentials in
  let tokenPath := if global then getGlobalTokenPath else getProjectTokenPath in
  let tokenDir := Path.dirname tokenPath in
  fs_mkdir tokenDir ;;
  (if negb global then ensureGitignore else ret tt) ;;
  let* session := generatePkce in
  ret (credentials, session).

Definition performAuth (global : bool) : M unit :=
  let* credentials := loadCredentials in
  let tokenPath := if global then getGlobalTokenPath else getProjectTokenPath in
  let tokenDir := Path.dirname tokenPath in
  (* Ensure token directory exists *)
  fs_mkdir tokenDir ;;
  (* Ensure .gitignore is configured to exclude tokens (only for project-local) *)
  (if negb global then ensureGitignore else ret tt) ;;
  let* session := generatePkce in
  let authUrl := authorization_query credentials session in
  let* code := awaitCallback (state session) authUrl in
  exchangeCode credentials global code (code_verifier session).

End WithEnv.

End Auth.

(** ** The older revision of [scripts/lib/auth.ts]

    The revision with embedded credentials keeps tokens in the project
    only: there is no global token path. Its lookup is set down here for
    comparison; the rest of the token lifecycle reads the same in both
    revisions. *)

Module AuthProjectOnly.

Section WithEnv.

Variable env : Env.

Definition findTokenPath : M (option string) :=
  let projectPath := Auth.getProjectTokenPath env in
  try_catch (Auth.fs_access projectPath ;; ret (Some projectPath))
    (fun _ => ret None).

Definition token_not_found_message : string :=
  "Token not found. Run: pnpm tsx scripts/twitter.ts auth" ++ Auth.nl ++
  "Token will be saved to: " ++ Auth.getProjectTokenPath env.

Definition loadToken : M TokenData :=
  let* tokenPath := findTokenPath in
  match tokenPath with
  | None => throw (Js.Error token_not_found_message)
  | Some tokenPath => Auth.read_token_json tokenPath
  end.

End WithEnv.

End AuthProjectOnly.

(** ** [scripts/twitter.ts]: the API client and the users lookup *)

Module Twitter.

Definition TWITTER_API_BASE : string := "https://api.twitter.com/2".

(** A number that may be [NaN] is an [option Z]. *)
Definition is_space (c : ascii) : bool :=
  let n := nat_of_ascii c in
  (n =? 32)%nat || ((9 <=? n)%nat && (n <=? 13)%nat).

Definition digit_value (c : ascii) : option Z :=
  let n := Z.of_nat (nat_of_ascii c) in
  if (48 <=? n) && (n <=? 57) then Some (n - 48) else None.

Fixpoint skip_spaces (s : string) : string :=
  match s with
  | String c s' => if is_space c then skip_spaces s' else s
  | EmptyString => s
  end.

Fixpoint parse_digits (acc : option Z) (s : string) : option Z :=
  match s with
  | EmptyString => acc
  | String c s' =>
      match digit_value c with
      | Some d => parse_digits (Some (10 * default 0 acc + d)) s'
      | None => acc
      end
  end.

(** [parseInt(s, 10)] *)
Definition parseInt (s : string) : option Z :=
  match skip_spaces s with
  | String "-"%char s' => option_map Z.opp (parse_digits None s')
  | String "+"%char s' => parse_digits None s'
  | s' => parse_digits None s'
  end.

Definition number_to_string (n : option Z) : string :=
  match n with
  | Some z => pretty z
  | None => "NaN"
  end.

Record RateLimitInfo : Type := mkRateLimitInfo {
  limit : option Z;
  remaining : option Z;
  reset : option Z;             (* [new Date(resetTimestamp)] as its time value *)
  resetInSeconds : option Z;
}.

Section WithEnv.

Variable env : Env.

Definition parseRateLimitHeaders (response : ApiResponse) : M (option RateLimitInfo) :=
  let limit := x_rate_limit_limit response in
  let remaining := x_rate_limit_remaining response in
  let reset := x_rate_limit_reset response in
  if negb (Js.truthy limit) || negb (Js.truthy remaining) || negb (Js.truthy reset)
  then ret None
  else
    let resetTimestamp := option_map (fun n => n * 1000) (parseInt (Js.to_string reset)) in
    let* now := Auth.Date_now env in
    (* Math.max(0, Math.ceil((resetTimestamp - Date.now()) / 1000)) *)
    let resetInSeconds :=
      option_map (fun t => Z.max 0 (- ((- (t - now)) / 1000))) resetTimestamp in
    ret (Some {| limit := parseInt (Js.to_string limit);
                 remaining := parseInt (Js.to_string remaining);
                 reset := resetTimestamp;
                 resetInSeconds := resetInSeconds |}).

(** [await fetch(url, { headers: { Authorization, ... } })] *)
Definition api_fetch (url authorization : string) : M ApiResponse :=
  fun w =>
    let w' := with_calls (S (calls w))
                (with_trace (trace w ++ [ApiGet url authorization]) w) in
    match api env (calls w) url authorization with
    | inl msg => (Thrown (Js.TypeError msg), w')
    | inr response => (Returned response, w')
    end.

Definition response_json (response : ApiResponse) : M ApiBody :=
  match json response with
  | inl msg => throw (Js.SyntaxError msg)
  | inr data => ret data
  end.

(** [{ deleted: true } as T]: an object with the one field [deleted]. *)
Definition deleted_body : ApiBody := mkApiBody None None None None (Some true).

(** [twitterRequest(endpoint)], with the default [options = {}]. *)
Definition twitterRequest (endpoint : string) : M ApiBody :=
  let* token := Auth.getValidAccessToken env in
  let url := TWITTER_API_BASE ++ endpoint in
  let* response := api_fetch url ("Bearer " ++ Js.to_string token) in
  (* Parse and log rate limit info *)
  let* rateLimitInfo := parseRateLimitHeaders response in
  (* Handle 204 No Content (for delete operations) *)
  if status response =? 204 then ret deleted_body
  else
    let* data := response_json response in
    if negb (ok response) then
      let message :=
        Js.or_else (body_detail data)
          (Js.or_else (body_title data)
             (Js.or_else (body_first_error_message data)
                ("API request failed: " ++ pretty (status response)))) in
      (* Add rate limit context for 429 errors *)
      let message :=
        match rateLimitInfo with
        | Some info =>
            if status response =? 429
            then message ++ " (resets in " ++ number_to_string (resetInSeconds info) ++ "s)"
            else message
        | None => message
        end in
      throw (Js.Error message)
    else ret data.

Definition user_fields : list string :=
  ["id"; "name"; "username"; "created_at"; "description"; "location";
   "profile_image_url"; "protected"; "verified"; "verified_type"; "url";
   "public_metrics"].

Definition getUsersByIds (userIds : list string) : M (list string) :=
  if (length userIds =? 0)%nat then ret []
  else if (100 <? length userIds)%nat then
    throw (Js.Error "Maximum 100 user IDs per request")
  else
    let fields := user_fields in
    let* response :=
      twitterRequest ("/users?ids=" ++ String.concat "," userIds ++
                      "&user.fields=" ++ String.concat "," fields) in
    ret (default [] (body_data response)).

End WithEnv.

End Twitter.

(** ** A concrete environment, to run the code on *)

Module Fixture.

Definition credentials_doc : CredentialsDoc :=
  mkCredentialsDoc (Some "abc") (Some "xyz").

Definition credentials : Credentials := mkCredentials "abc" "xyz".

(** The clock stands at [1000000] ms. *)
Definition now : Z := 1000000.

Definition token (access refresh : string) (expiry : Z) : TokenData :=
  {| access_token := Some access; refresh_token := refresh;
     expires_at := expiry; scope := Auth.SCOPES; token_type := "bearer" |}.

Definition response (access refresh err : option string) : TokenResponse :=
  mkTokenResponse access refresh (Some 7200) None None err None.

(** An environment whose token endpoint always answers [r] and whose
    listener receives [requests]. The digest and the entropy are
    stand-ins: the identity and the byte stream 0, 1, 2, ... *)
Definition env_with (r : Fetched TokenResponse)
    (requests : list (string * string) -> list Target) : Env :=
  {| cwd := "/work";
     xdg_config_home := None;
     homedir := "/home/u";
     clock := fun _ => now;
     entropy := fun n => ascii_of_nat n;
     sha256 := fun s => s;
     op_version_ok := false;
     op_read := fun _ => None;
     mkdir_error := fun _ => None;
     write_error := fun _ => None;
     write_torn := fun _ => None;
     listen_error := None;
     browser := Spawned;
     token_endpoint := fun _ _ _ => r;
     api := fun _ _ _ => inl "fetch failed";
     callback_requests := requests |}.

Definition env0 : Env :=
  env_with (JsonBody (response (Some "T2") (Some "R2") None)) (fun _ => []).

Definition project_path : string := "/work/.claude/twitter-skill.local.json".
Definition global_path : string := "/home/u/.config/twitter-skill/tokens.json".

Definition world_with (files : list (string * JsonFile TokenData)) : World :=
  {| token_files := list_to_map files;
     credentials_file := Some (Document credentials_doc);
     gitignore_file := None;
     ticks := 0; drawn := 0; posts := 0; calls := 0;
     trace := [] |}.

(** One callback, with these parameters followed by the [state] of the
    authorization URL. *)
Definition callback_with (params : list (string * string))
  : list (string * string) -> list Target :=
  fun authUrl =>
    [Parsed (params ++ [("state", Js.to_string (Js.searchParams_get "state" authUrl))])%list].

Definition ok_response : Fetched TokenResponse :=
  JsonBody (response (Some "T1") (Some "R1") None).

(** A world without token files. *)
Definition world_fresh : World := world_with [].

(** A world whose only token file is the project one, expired a second ago. *)
Definition world_expired : World :=
  world_with [(project_path, Document (token "T1" "R1" (now - 1000)))].

End Fixture.

(** ** [scripts/lib/auth.ts]: interactive credential setup *)

Definition with_credentials (c : option (JsonFile CredentialsDoc)) (w : World) : World :=
  mkWorld (token_files w) c (gitignore_file w) (ticks w) (drawn w) (posts w) (calls w) (trace w).

Module Setup.

(** [c.toLowerCase()] for an ASCII character. The code compares the
    lowered answer with ["y"] only, and no character outside ASCII lowers
    to [y]. *)
Definition lower_char (c : ascii) : ascii :=
  let n := nat_of_ascii c in
  if (65 <=? n)%nat && (n <=? 90)%nat then ascii_of_nat (n + 32) else c.

Fixpoint toLowerCase (s : string) : string :=
  match s with
  | EmptyString => EmptyString
  | String c s' => String (lower_char c) (toLowerCase s')
  end.

Section WithEnv.

Variable env : Env.

(** The lines typed at the prompts of one run, in order, each as
    [askQuestion] resolves it: trimmed. *)
Variable answers : nat -> string.

(** [askQuestion(question)], for the [n]-th prompt of the run. *)
Definition askQuestion (n : nat) : M string := ret (answers n).

Definition credentialsFileExists : M bool :=
  fun w => match credentials_file w with
           | Some _ => (Returned true, w)
           | None => (Returned false, w)
           end.

(** [fs.writeFile(CREDENTIALS_PATH, JSON.stringify(credentials, null, 2))];
    a write that fails once the file is open leaves a text that does not
    parse, as for the token files. *)
Definition write_credentials_json (c : Credentials) : M unit :=
  fun w => match write_error env (Auth.CREDENTIALS_PATH env) with
           | Some (code, msg) =>
               (Thrown (Js.SystemError code msg),
                match write_torn env (Auth.CREDENTIALS_PATH env) with
                | Some (_, parse_msg) => with_credentials (Some (Malformed parse_msg)) w
                | None => w
                end)
           | None =>
               (Returned tt,
                with_credentials
                  (Some (Document (mkCredentialsDoc (Some (client_id c))
                                                    (Some (client_secret c))))) w)
           end.

(** The rest of [performSetup], once [asked] prompts have been answered. *)
Definition chooseAndSave (asked : nat) : M unit :=
  let has1Password := Auth.is1PasswordAvailable env in
  let* choice := askQuestion asked in
  let* credentials :=
    if has1Password && String.eqb choice "1" then
      (* Load from 1Password *)
      match Auth.loadCredentialsFrom1Password env with
      | None => throw (Js.Error "1Password credentials not found")
      | Some opCreds => ret opCreds
      end
    else
      (* Manual entry *)
      let* clientId := askQuestion (asked + 1) in
      let* clientSecret := askQuestion (asked + 2) in
      if String.eqb clientId EmptyString || String.eqb clientSecret EmptyString then
        throw (Js.Error "Both Client ID and Client Secret are required")
      else ret (mkCredentials clientId clientSecret) in
  (* Save credentials *)
  Auth.fs_mkdir env (Auth.GLOBAL_CONFIG_DIR env) ;;
  write_credentials_json credentials.

Definition performSetup : M unit :=
  (* Check if credentials file already exists *)
  let* present := credentialsFileExists in
  if present then
    let* answer := askQuestion 0 in
    if negb (String.eqb (toLowerCase answer) "y") then ret tt (* Setup cancelled. *)
    else chooseAndSave 1
  else chooseAndSave 0.

End WithEnv.

End Setup.

(** ** [scripts/twitter.ts]: search *)

Module Search.

Definition in_range (lo hi : nat) (c : ascii) : bool :=
  let n := nat_of_ascii c in (lo <=? n)%nat && (n <=? hi)%nat.

(** The characters [encodeURIComponent] leaves as they are:
    [A-Z a-z 0-9 - _ . ! ~ * ' ( )]. *)
Definition unreserved (c : ascii) : bool :=
  in_range 65 90 c || in_range 97 122 c || in_range 48 57 c
  || match String.index 0 (String c EmptyString) "-_.!~*'()" with
     | Some _ => true
     | None => false
     end.

Definition HEX_DIGIT (b3 b2 b1 b0 : bool) : ascii :=
  match String.get (8 * Encoding.nat_of_bit b3 + 4 * Encoding.nat_of_bit b2
                    + 2 * Encoding.nat_of_bit b1 + Encoding.nat_of_bit b0)%nat
                   "0123456789ABCDEF" with
  | Some c => c
  | None => "?"%char
  end.

(** One byte of the UTF-8 text: itself, or [%XX]. *)
Definition encode_byte (c : ascii) : string :=
  if unreserved c then String c EmptyString
  else
    let (b0, b1, b2, b3, b4, b5, b6, b7) := c in
    String "%"%char
      (String (HEX_DIGIT b7 b6 b5 b4) (String (HEX_DIGIT b3 b2 b1 b0) EmptyString)).

(** [encodeURIComponent(s)], for a well-formed string. *)
Fixpoint encodeURIComponent (s : string) : string :=
  match s with
  | EmptyString => EmptyString
  | String c s' => encode_byte c ++ encodeURIComponent s'
  end.

Definition search_fields : list string :=
  ["id"; "text"; "author_id"; "created_at"; "public_metrics"; "source"].

Definition search_url (query : string) : string :=
  "/tweets/search/recent?query=" ++ encodeURIComponent query ++
  "&tweet.fields=" ++ String.concat "," search_fields ++ "&max_results=10".

Definition searchTweets (env : Env) (query : string) : M (list string) :=
  let* response := Twitter.twitterRequest env (search_url query) in
  ret (default [] (body_data response)).

End Search.

(** ** Measures on traces and strings, for the statements below *)

(** The message [twitterRequest] starts from when a response is not OK:
    [error.detail || error.title || error.errors?.[0]?.message ||
    `API request failed: ${response.status}`]. *)
Definition error_message_of (response : ApiResponse) (data : ApiBody) : string :=
  Js.or_else (body_detail data)
    (Js.or_else (body_title data)
       (Js.or_else (body_first_error_message data)
          ("API request failed: " ++ pretty (status response)))).

(** The process state after a [fs.writeFile] of the token file [p] that
    was rejected. *)
Definition after_failed_write (env : Env) (p : string) (w : World) : World :=
  match write_torn env p with
  | Some (_, parse_msg) => with_token_files (<[p := Malformed parse_msg]> (token_files w)) w
  | None => w
  end.

Definition is_parsed (req_url : Target) : bool :=
  match req_url with
  | Parsed _ => true
  | Unparseable _ => false
  end.

(** Whether the launcher of the browser fails with an ['error'] event. *)
Definition browser_error_event (env : Env) : bool :=
  match browser env with
  | SpawnErrorEvent _ _ => true
  | _ => false
  end.

Fixpoint count_closes (tr : list Event) : nat :=
  match tr with
  | [] => 0
  | ServerClose :: tr' => S (count_closes tr')
  | _ :: tr' => count_closes tr'
  end.

Fixpoint count_api_calls (tr : list Event) : nat :=
  match tr with
  | [] => 0
  | ApiGet _ _ :: tr' => S (count_api_calls tr')
  | _ :: tr' => count_api_calls tr'
  end.

Fixpoint string_forallb (f : ascii -> bool) (s : string) : bool :=
  match s with
  | EmptyString => true
  | String c s' => f c && string_forallb f s'
  end.

Definition ascii_char (c : ascii) : bool := (nat_of_ascii c <? 128)%nat.

(** The state the UTF-8 decoder is in after the bytes [pending] of a
    sequence under way. *)
Definition reached (pending : string) (needed lower upper : nat) : Prop :=
  forall rest,
    Encoding.utf8_decode (pending ++ rest)
    = Encoding.utf8_decode_from pending needed lower upper rest.

Definition sepfree (s : string) : bool :=
  string_forallb (fun c => negb (Path.is_separator c)) s.

(** A name, as a path holds it between two separators: not empty, without
    a separator, and neither [.] nor [..]. *)
Definition plain_name (seg : string) : bool :=
  negb (String.eqb seg EmptyString) && sepfree seg
  && negb (String.eqb seg ".") && negb (String.eqb seg "..").

(** A normalized list of segments, last first: names, and below them
    [..] only, in a relative path only. *)
Fixpoint canonical (allowAboveRoot : bool) (res : list string) : bool :=
  match res with
  | [] => true
  | top :: below =>
      if String.eqb top ".."
      then allowAboveRoot && forallb (String.eqb "..") below
      else plain_name top && canonical allowAboveRoot below
  end.

Definition root_of (allowAboveRoot : bool) : string :=
  if allowAboveRoot then EmptyString else "/".

(** The unreserved characters a PKCE verifier may be made of (RFC 7636,
    section 4.1), as far as base64url uses them: letters, digits, [-], [_]. *)
Definition base64url_char (c : ascii) : bool :=
  Search.in_range 65 90 c || Search.in_range 97 122 c || Search.in_range 48 57 c
  || Ascii.eqb c "-"%char || Ascii.eqb c "_"%char.

Definition lower_hex_char (c : ascii) : bool :=
  Search.in_range 48 57 c || Search.in_range 97 102 c.


(** ** Further environments, to run the code on *)

Module Scenario.

(** The fixture environment on a disk that rejects every write. *)
Definition env_read_only : Env :=
  {| cwd := "/work";
     xdg_config_home := None;
     homedir := "/home/u";
     clock := fun _ => Fixture.now;
     entropy := fun n => ascii_of_nat n;
     sha256 := fun s => s;
     op_version_ok := false;
     op_read := fun _ => None;
     mkdir_error := fun _ => None;
     write_error := fun _ => Some ("EACCES", "EACCES: permission denied");
     write_torn := fun _ => None;
     listen_error := None;
     browser := Spawned;
     token_endpoint := fun _ _ _ => Fixture.ok_response;
     api := fun _ _ _ => inl "fetch failed";
     callback_requests := fun _ => [] |}.

(** The fixture environment on a disk that is full: every write fails
    once the file is open, and leaves it empty. *)
Definition env_disk_full : Env :=
  {| cwd := "/work";
     xdg_config_home := None;
     homedir := "/home/u";
     clock := fun _ => Fixture.now;
     entropy := fun n => ascii_of_nat n;
     sha256 := fun s => s;
     op_version_ok := false;
     op_read := fun _ => None;
     mkdir_error := fun _ => None;
     write_error := fun _ => Some ("ENOSPC", "ENOSPC: no space left on device, write");
     write_torn := fun _ => Some (0%nat, "Unexpected end of JSON input");
     listen_error := None;
     browser := Spawned;
     token_endpoint := fun _ _ _ => Fixture.ok_response;
     api := fun _ _ _ => inl "fetch failed";
     callback_requests := fun _ => [] |}.

(** The fixture environment with port 3000 in use. *)
Definition env_port_taken : Env :=
  {| cwd := "/work";
     xdg_config_home := None;
     homedir := "/home/u";
     clock := fun _ => Fixture.now;
     entropy := fun n => ascii_of_nat n;
     sha256 := fun s => s;
     op_version_ok := false;
     op_read := fun _ => None;
     mkdir_error := fun _ => None;
     write_error := fun _ => None;
     write_torn := fun _ => None;
     listen_error :=
       Some ("EADDRINUSE", "listen EADDRINUSE: address already in use :::3000");
     browser := Spawned;
     token_endpoint := fun _ _ _ => Fixture.ok_response;
     api := fun _ _ _ => inl "fetch failed";
     callback_requests := fun _ => [] |}.

(** The fixture environment without a launcher for the browser: [spawn]
    reports ENOENT by an event. *)
Definition env_no_launcher : Env :=
  {| cwd := "/work";
     xdg_config_home := None;
     homedir := "/home/u";
     clock := fun _ => Fixture.now;
     entropy := fun n => ascii_of_nat n;
     sha256 := fun s => s;
     op_version_ok := false;
     op_read := fun _ => None;
     mkdir_error := fun _ => None;
     write_error := fun _ => None;
     write_torn := fun _ => None;
     listen_error := None;
     browser := SpawnErrorEvent "ENOENT" "spawn xdg-open ENOENT";
     token_endpoint := fun _ _ _ => Fixture.ok_response;
     api := fun _ _ _ => inl "fetch failed";
     callback_requests := fun _ => [] |}.

(** The fixture environment where [spawn] itself throws. *)
Definition env_spawn_throws : Env :=
  {| cwd := "/work";
     xdg_config_home := None;
     homedir := "/home/u";
     clock := fun _ => Fixture.now;
     entropy := fun n => ascii_of_nat n;
     sha256 := fun s => s;
     op_version_ok := false;
     op_read := fun _ => None;
     mkdir_error := fun _ => None;
     write_error := fun _ => None;
     write_torn := fun _ => None;
     listen_error := None;
     browser := SpawnThrows (Js.TypeError "The argument is invalid");
     token_endpoint := fun _ _ _ => Fixture.ok_response;
     api := fun _ _ _ => inl "fetch failed";
     callback_requests := fun _ => [] |}.

(** The fixture environment with the 1Password CLI at hand. *)
Definition env_1password : Env :=
  {| cwd := "/work";
     xdg_config_home := Some "/xdg";
     homedir := "/home/u";
     clock := fun _ => Fixture.now;
     entropy := fun n => ascii_of_nat n;
     sha256 := fun s => s;
     op_version_ok := true;
     op_read := fun reference =>
       if String.eqb reference Auth.OP_CLIENT_ID_REF then Some "op-id"
       else if String.eqb reference Auth.OP_CLIENT_SECRET_REF then Some "op-secret"
       else None;
     mkdir_error := fun _ => None;
     write_error := fun _ => None;
     write_torn := fun _ => None;
     listen_error := None;
     browser := Spawned;
     token_endpoint := fun _ _ _ => Fixture.ok_response;
     api := fun _ _ _ => inl "fetch failed";
     callback_requests := fun _ => [] |}.

(** An environment whose clock starts at [Fixture.now] and advances by
    [step] milliseconds with every reading, and whose REST API answers
    every request with [answer]. *)
Definition env_running (step : Z) (answer : string + ApiResponse) : Env :=
  {| cwd := "/work";
     xdg_config_home := None;
     homedir := "/home/u";
     clock := fun n => Fixture.now + step * Z.of_nat n;
     entropy := fun n => ascii_of_nat n;
     sha256 := fun s => s;
     op_version_ok := false;
     op_read := fun _ => None;
     mkdir_error := fun _ => None;
     write_error := fun _ => None;
     write_torn := fun _ => None;
     listen_error := None;
     browser := Spawned;
     token_endpoint := fun _ _ _ => JsonBody (Fixture.response (Some "T2") (Some "R2") None);
     api := fun _ _ _ => answer;
     callback_requests := fun _ => [] |}.

(** A world without credentials and without tokens. *)
Definition world_blank : World :=
  {| token_files := ∅;
     credentials_file := None;
     gitignore_file := None;
     ticks := 0; drawn := 0; posts := 0; calls := 0;
     trace := [] |}.

(** A world with a token that is good for two more hours. *)
Definition world_valid : World :=
  Fixture.world_with
    [(Fixture.project_path,
      Document (Fixture.token "T1" "R1" (Fixture.now + 7200000)))].

Definition api_response (code : Z) (success : bool) (body : string + ApiBody)
  : ApiResponse :=
  {| status := code; ok := success;
     x_rate_limit_limit := Some "300";
     x_rate_limit_remaining := Some "0";
     x_rate_limit_reset := Some "1060";
     json := body |}.

End Scenario.


(** * Properties *)

(** ** The encodings on known vectors (RFC 4648, section 10) *)

Example base64url_foobar : Encoding.base64url "foobar" = "Zm9vYmFy".
Proof. reflexivity. Qed.
Example base64url_fo : Encoding.base64url "fo" = "Zm8".
Proof. reflexivity. Qed.
Example base64_f : Encoding.base64 "f" = "Zg==".
Proof. reflexivity. Qed.
Example base64_basic : Encoding.base64 "abc:xyz" = "YWJjOnh5eg==".
Proof. reflexivity. Qed.
Example base64url_high :
  Encoding.base64url (String (ascii_of_nat 251) (String (ascii_of_nat 255) EmptyString)) = "-_8".
Proof. reflexivity. Qed.
Example hex_ex :
  Encoding.hex (String (ascii_of_nat 0) (String (ascii_of_nat 171) "z")) = "00ab7a".
Proof. reflexivity. Qed.

(** ** Running the code on the fixture *)

Example paths_of_fixture :
  Auth.getProjectTokenPath Fixture.env0 = Fixture.project_path /\
  Auth.getGlobalTokenPath Fixture.env0 = Fixture.global_path.
Proof. split; reflexivity. Qed.

Example find_both :
  fst (Auth.findTokenPath Fixture.env0
         (Fixture.world_with
            [(Fixture.project_path, Document (Fixture.token "T1" "R1" 0));
             (Fixture.global_path, Document (Fixture.token "T0" "R0" 0))]))
  = Returned (Some Fixture.project_path).
Proof. vm_compute. reflexivity. Qed.

Example valid_token_expired :
  fst (Auth.getValidAccessToken Fixture.env0
         (Fixture.world_with
            [(Fixture.project_path,
              Document (Fixture.token "T1" "R1" (Fixture.now - 1000)))]))
  = Returned (Some "T2").
Proof. vm_compute. reflexivity. Qed.

(** ** Strings *)

Lemma string_app_cons (c : ascii) (a b : string) :
  String c a ++ b = String c (a ++ b).
Proof. reflexivity. Qed.

Lemma string_app_empty_l (b : string) : EmptyString ++ b = b.
Proof. reflexivity. Qed.

Lemma string_app_empty_r (s : string) : s ++ EmptyString = s.
Proof.
  induction s as [|c s IH]; [reflexivity|].
  rewrite string_app_cons. now rewrite IH.
Qed.

Lemma string_app_assoc (a b c : string) : (a ++ b) ++ c = a ++ (b ++ c).
Proof.
  induction a as [|x a IH]; [reflexivity|].
  change (String x ((a ++ b) ++ c) = String x (a ++ (b ++ c))).
  now rewrite IH.
Qed.

Lemma string_length_app (a b : string) :
  String.length (a ++ b) = (String.length a + String.length b)%nat.
Proof.
  induction a as [|x a IH]; [reflexivity|].
  change (S (String.length (a ++ b)) = S (String.length a + String.length b)).
  now rewrite IH.
Qed.

(** Two equal strings have the same last [n] characters. *)
Lemma string_app_suffix (a b x y : string) :
  String.length x = String.length y -> a ++ x = b ++ y -> x = y.
Proof.
  revert b. induction a as [|c a IH]; intros [|d b] Hlen H.
  - exact H.
  - exfalso. apply (f_equal String.length) in H.
    change (String.length x = S (String.length (b ++ y))) in H.
    rewrite string_length_app in H. lia.
  - exfalso. apply (f_equal String.length) in H.
    change (S (String.length (a ++ x)) = String.length y) in H.
    rewrite string_length_app in H. lia.
  - change (String c (a ++ x) = String d (b ++ y)) in H.
    injection H as _ H. exact (IH b Hlen H).
Qed.

Lemma prefix_app (a b : string) : String.prefix a (a ++ b) = true.
Proof.
  induction a as [|c a IH]; [now destruct b|].
  change (String.prefix (String c a) (String c (a ++ b)) = true).
  cbn [String.prefix]. destruct (ascii_dec c c) as [_|N]; [exact IH | now destruct N].
Qed.

Lemma includes_prefix (p s : string) :
  String.prefix p s = true -> Js.includes p s = true.
Proof. intros H. destruct s; cbn [Js.includes]; rewrite H; reflexivity. Qed.

Lemma includes_app_l (p a s : string) :
  Js.includes p s = true -> Js.includes p (a ++ s) = true.
Proof.
  intros H. induction a as [|c a IH]; [exact H|].
  change (Js.includes p (String c (a ++ s)) = true).
  cbn [Js.includes]. rewrite IH. apply orb_true_r.
Qed.

(** ** Paths *)

Section PathFacts.

Import Path.

Lemma segments_nonempty (p : string) : segments p <> [].
Proof.
  destruct p as [|c p]; cbn [segments]; [discriminate|].
  destruct (is_separator c); [discriminate|].
  destruct (segments p); discriminate.
Qed.

Lemma segments_sepfree (p : string) : sepfree p = true -> segments p = [p].
Proof.
  induction p as [|c p IH]; [reflexivity|].
  unfold sepfree. cbn [string_forallb segments]. intros H.
  apply andb_prop in H as [Hc Hp]. apply negb_true_iff in Hc. rewrite Hc.
  now rewrite (IH Hp).
Qed.

Lemma segments_app (x z : string) :
  segments (x ++ String "/"%char z) = (segments x ++ segments z)%list.
Proof.
  induction x as [|c x IH].
  - rewrite string_app_empty_l. cbn [segments]. reflexivity.
  - rewrite string_app_cons. cbn [segments]. rewrite IH.
    destruct (is_separator c); [reflexivity|].
    pose proof (segments_nonempty x) as Hx.
    destruct (segments x) as [|seg rest]; [contradiction | reflexivity].
Qed.

Lemma segments_are_sepfree (p : string) : forallb sepfree (segments p) = true.
Proof.
  induction p as [|c p IH]; [reflexivity|].
  cbn [segments]. destruct (is_separator c) eqn:Hc; [exact IH|].
  destruct (segments p) as [|seg rest]; cbn [forallb] in *.
  - unfold sepfree. cbn [string_forallb]. now rewrite Hc.
  - apply andb_prop in IH as [Hs Hr]. rewrite Hr.
    unfold sepfree in *. cbn [string_forallb]. now rewrite Hc, Hs.
Qed.

Lemma concat_snoc (l : list string) (b : string) :
  String.concat "/" (l ++ [b])
  = match l with
    | [] => b
    | _ => String.concat "/" l ++ "/" ++ b
    end.
Proof.
  induction l as [|x l IH]; [reflexivity|].
  destruct l as [|y l].
  - reflexivity.
  - change (String.concat "/" ((x :: y :: l) ++ [b]))
      with (x ++ "/" ++ String.concat "/" ((y :: l) ++ [b])).
    rewrite IH.
    change (String.concat "/" (x :: y :: l)) with (x ++ "/" ++ String.concat "/" (y :: l)).
    now rewrite !string_app_assoc.
Qed.

Lemma segments_concat (l : list string) :
  l <> [] -> forallb sepfree l = true -> segments (String.concat "/" l) = l.
Proof.
  induction l as [|x l IH]; [contradiction|]. intros _ H.
  cbn [forallb] in H. apply andb_prop in H as [Hx Hl].
  destruct l as [|y l].
  - apply segments_sepfree, Hx.
  - change (String.concat "/" (x :: y :: l)) with (x ++ String "/"%char (String.concat "/" (y :: l))).
    rewrite segments_app, (segments_sepfree x Hx), IH by (discriminate || exact Hl).
    reflexivity.
Qed.

Lemma plain_name_spec (seg : string) :
  plain_name seg = true ->
  seg <> EmptyString /\ sepfree seg = true /\ seg <> "." /\ seg <> "..".
Proof.
  unfold plain_name. intros H.
  apply andb_prop in H as [H H4]. apply andb_prop in H as [H H3].
  apply andb_prop in H as [H1 H2].
  apply negb_true_iff in H1, H3, H4.
  repeat split; try assumption; intros ->; discriminate.
Qed.

Lemma normalize_step_plain (allow : bool) (res : list string) (seg : string) :
  plain_name seg = true -> normalize_step allow res seg = seg :: res.
Proof.
  intros H. destruct (plain_name_spec seg H) as (H1 & _ & H3 & H4).
  unfold normalize_step.
  destruct (String.eqb_spec seg EmptyString); [contradiction|].
  destruct (String.eqb_spec seg "."); [contradiction|].
  destruct (String.eqb_spec seg ".."); [contradiction|]. reflexivity.
Qed.

Lemma dots_canonical (below : list string) :
  forallb (String.eqb "..") below = true -> canonical true below = true.
Proof.
  induction below as [|b below IH]; [reflexivity|].
  cbn [forallb canonical]. intros H. apply andb_prop in H as [Hb H].
  apply String.eqb_eq in Hb. subst b. cbn. exact H.
Qed.

Lemma canonical_below (allow : bool) (top : string) (below : list string) :
  canonical allow (top :: below) = true -> canonical allow below = true.
Proof.
  cbn [canonical]. destruct (String.eqb top "..").
  - intros H. apply andb_prop in H as [-> H]. now apply dots_canonical.
  - intros H. now apply andb_prop in H as [_ H].
Qed.

Lemma canonical_sepfree (allow : bool) (res : list string) :
  canonical allow res = true -> forallb sepfree res = true.
Proof.
  induction res as [|top below IH]; [reflexivity|]. intros H.
  cbn [forallb]. rewrite (IH (canonical_below _ _ _ H)), andb_true_r.
  cbn [canonical] in H. destruct (String.eqb_spec top "..") as [->|_]; [reflexivity|].
  apply andb_prop in H as [H _]. now destruct (plain_name_spec top H) as (_ & ? & _).
Qed.

Lemma normalize_step_canonical (allow : bool) (res : list string) (seg : string) :
  sepfree seg = true -> canonical allow res = true ->
  canonical allow (normalize_step allow res seg) = true.
Proof.
  intros Hs Hc. unfold normalize_step.
  destruct (String.eqb_spec seg EmptyString) as [->|H1]; [exact Hc|].
  destruct (String.eqb_spec seg ".") as [->|H2]; [exact Hc|]. cbn [orb].
  destruct (String.eqb_spec seg "..") as [->|H3].
  - destruct res as [|top below].
    + now destruct allow.
    + destruct (String.eqb top "..") eqn:Ht.
      * destruct allow; [|exact Hc].
        apply String.eqb_eq in Ht. subst top.
        cbn [canonical] in Hc. rewrite String.eqb_refl in Hc.
        cbn [canonical forallb]. rewrite !String.eqb_refl. exact Hc.
      * exact (canonical_below _ _ _ Hc).
  - cbn [canonical]. destruct (String.eqb_spec seg ".."); [contradiction|].
    rewrite Hc, andb_true_r. unfold plain_name.
    destruct (String.eqb_spec seg EmptyString); [contradiction|].
    destruct (String.eqb_spec seg "."); [contradiction|].
    destruct (String.eqb_spec seg ".."); [contradiction|].
    now rewrite Hs.
Qed.

Lemma fold_canonical (allow : bool) (segs res : list string) :
  forallb sepfree segs = true -> canonical allow res = true ->
  canonical allow (fold_left (normalize_step allow) segs res) = true.
Proof.
  revert res. induction segs as [|seg segs IH]; intros res Hs Hc; [exact Hc|].
  cbn [forallb] in Hs. apply andb_prop in Hs as [Hseg Hs].
  cbn [fold_left]. apply IH; [exact Hs|].
  now apply normalize_step_canonical.
Qed.

(** Normalizing what is normalized gives it back. *)
Lemma fold_of_canonical (allow : bool) (res : list string) :
  canonical allow res = true ->
  fold_left (normalize_step allow) (rev res) [] = res.
Proof.
  induction res as [|top below IH]; [reflexivity|]. intros Hc.
  cbn [rev]. rewrite fold_left_app. cbn [fold_left].
  rewrite (IH (canonical_below _ _ _ Hc)).
  cbn [canonical] in Hc. destruct (String.eqb_spec top "..") as [->|Hn].
  - apply andb_prop in Hc as [-> Hd]. unfold normalize_step. cbn.
    destruct below as [|b below]; [reflexivity|].
    cbn [forallb] in Hd. apply andb_prop in Hd as [Hb _].
    rewrite String.eqb_sym in Hb. now rewrite Hb.
  - apply andb_prop in Hc as [Hp _]. now apply normalize_step_plain.
Qed.

Lemma starts_with_separator_app (x y : string) :
  x <> EmptyString -> starts_with_separator (x ++ y) = starts_with_separator x.
Proof. destruct x; [contradiction | reflexivity]. Qed.

Lemma ends_with_separator_app (x y : string) :
  y <> EmptyString -> ends_with_separator (x ++ y) = ends_with_separator y.
Proof.
  intros Hy. induction x as [|c x IH]; [reflexivity|].
  rewrite string_app_cons. cbn [ends_with_separator]. rewrite IH.
  destruct (x ++ y) eqn:E; [|reflexivity].
  destruct x; [|discriminate]. rewrite string_app_empty_l in E. contradiction.
Qed.

Lemma ends_with_separator_sepfree (y : string) :
  sepfree y = true -> ends_with_separator y = false.
Proof.
  induction y as [|c y IH]; [reflexivity|].
  unfold sepfree. cbn [string_forallb ends_with_separator]. intros H.
  apply andb_prop in H as [Hc Hy]. apply negb_true_iff in Hc.
  destruct y; [exact Hc | exact (IH Hy)].
Qed.

Lemma app_nonempty_r (x y : string) : y <> EmptyString -> x ++ y <> EmptyString.
Proof. destruct x; [now rewrite string_app_empty_l | discriminate]. Qed.

Lemma app_nonempty_l (x y : string) : x <> EmptyString -> x ++ y <> EmptyString.
Proof. destruct x; [contradiction | discriminate]. Qed.

(** [path.normalize] of a path that ends with a separator and a name. *)
Lemma normalize_snoc (y b : string) :
  y <> EmptyString -> plain_name b = true ->
  let allow := negb (starts_with_separator y) in
  let res := fold_left (normalize_step allow) (segments y) [] in
  normalize (y ++ "/" ++ b)
  = (if starts_with_separator y then "/" else EmptyString)
    ++ String.concat "/" (rev res ++ [b])
  /\ canonical allow (b :: res) = true.
Proof.
  intros Hy Hb allow res.
  destruct (plain_name_spec b Hb) as (Hb1 & Hb2 & Hb3 & Hb4).
  assert (Hres : canonical allow res = true).
  { apply fold_canonical; [apply segments_are_sepfree | reflexivity]. }
  split.
  2:{ cbn [canonical]. destruct (String.eqb_spec b ".."); [contradiction|].
      now rewrite Hb, Hres. }
  unfold normalize.
  destruct (String.eqb_spec (y ++ "/" ++ b) EmptyString) as [E|_].
  { destruct (app_nonempty_l y ("/" ++ b) Hy E). }
  rewrite starts_with_separator_app by exact Hy.
  rewrite ends_with_separator_app by discriminate.
  change ("/" ++ b) with (String "/"%char b).
  assert (Ht : ends_with_separator (String "/" b) = false).
  { cbn [ends_with_separator]. destruct b; [contradiction|].
    now apply ends_with_separator_sepfree. }
  rewrite Ht. unfold normalizeString.
  rewrite segments_app, (segments_sepfree b Hb2), fold_left_app.
  cbn [fold_left]. fold allow. fold res.
  rewrite (normalize_step_plain _ _ _ Hb). cbn [rev].
  destruct (String.eqb_spec (String.concat "/" (rev res ++ [b])) EmptyString) as [E|_].
  { exfalso. rewrite concat_snoc in E. destruct (rev res).
    - contradiction.
    - revert E. apply app_nonempty_r. discriminate. }
  destruct (starts_with_separator y); reflexivity.
Qed.

Lemma filter_snoc (args : list string) (b : string) :
  b <> EmptyString ->
  List.filter (fun arg => negb (String.eqb arg EmptyString)) (args ++ [b])
  = (List.filter (fun arg => negb (String.eqb arg EmptyString)) args ++ [b])%list.
Proof.
  intros Hb. rewrite List.filter_app. cbn [List.filter].
  destruct (String.eqb_spec b EmptyString); [contradiction | reflexivity].
Qed.

Lemma concat_nonempty (l : list string) :
  l <> [] -> forallb (fun arg => negb (String.eqb arg EmptyString)) l = true ->
  String.concat "/" l <> EmptyString.
Proof.
  destruct l as [|x l]; [contradiction|]. intros _ H.
  cbn [forallb] in H. apply andb_prop in H as [Hx _].
  apply negb_true_iff in Hx. apply String.eqb_neq in Hx.
  destruct l; [exact Hx|].
  change (String.concat "/" (x :: s :: l)) with (x ++ "/" ++ String.concat "/" (s :: l)).
  now apply app_nonempty_l.
Qed.

Lemma filter_all (l : list string) :
  forallb (fun arg => negb (String.eqb arg EmptyString))
    (List.filter (fun arg => negb (String.eqb arg EmptyString)) l) = true.
Proof.
  induction l as [|x l IH]; [reflexivity|]. cbn [List.filter].
  destruct (negb (String.eqb x EmptyString)) eqn:E; [|exact IH].
  cbn [forallb]. now rewrite E, IH.
Qed.

(** The shape of a path joined from arguments of which the last is a
    name: normalized segments, the name last. *)
Lemma Path_join_snoc (args : list string) (b : string) :
  plain_name b = true ->
  exists allow res,
    join (args ++ [b]) = root_of allow ++ String.concat "/" (rev (b :: res))
    /\ canonical allow (b :: res) = true
    /\ (List.filter (fun arg => negb (String.eqb arg EmptyString)) args = []
        -> allow = true /\ res = [])
    /\ (List.filter (fun arg => negb (String.eqb arg EmptyString)) args <> [] ->
        let y := String.concat "/"
                   (List.filter (fun arg => negb (String.eqb arg EmptyString)) args) in
        allow = negb (starts_with_separator y)
        /\ res = fold_left (normalize_step allow) (segments y) []).
Proof.
  intros Hb. destruct (plain_name_spec b Hb) as (Hb1 & Hb2 & Hb3 & Hb4).
  unfold join. rewrite (filter_snoc args b Hb1).
  pose proof (filter_all args) as Hall.
  destruct (List.filter _ args) as [|x l] eqn:Ef.
  - exists true, []. split; [|split; [|split; [auto | intros H; now destruct H]]].
    + cbn [app]. change (String.concat "/" [b]) with b.
      unfold normalize. destruct (String.eqb_spec b EmptyString); [contradiction|].
      unfold normalizeString. rewrite (segments_sepfree b Hb2). cbn [fold_left].
      rewrite (normalize_step_plain _ _ _ Hb). cbn [rev app].
      change (String.concat "/" [b]) with b.
      destruct (String.eqb_spec b EmptyString); [contradiction|].
      rewrite (ends_with_separator_sepfree b Hb2).
      assert (Hs : starts_with_separator b = false).
      { destruct b as [|c b]; [contradiction|]. unfold sepfree in Hb2.
        cbn [string_forallb] in Hb2. apply andb_prop in Hb2 as [Hc _].
        now apply negb_true_iff in Hc. }
      rewrite Hs. reflexivity.
    + cbn [canonical]. destruct (String.eqb_spec b ".."); [contradiction|].
      now rewrite Hb.
  - assert (Hy : String.concat "/" (x :: l) <> EmptyString).
    { apply concat_nonempty; [discriminate | exact Hall]. }
    set (y := String.concat "/" (x :: l)) in *.
    assert (E : String.concat "/" ((x :: l) ++ [b]) = y ++ "/" ++ b).
    { now rewrite concat_snoc. }
    destruct ((x :: l) ++ [b])%list as [|z zs] eqn:Ez; [discriminate|].
    rewrite E.
    destruct (normalize_snoc y b Hy Hb) as [Hn Hc].
    eexists _, _. split; [|split; [exact Hc|split; [discriminate|]]].
    + rewrite Hn. unfold root_of. now destruct (starts_with_separator y).
    + intros _. split; reflexivity.
Qed.

Lemma forallb_rev {A} (f : A -> bool) (l : list A) :
  forallb f (rev l) = forallb f l.
Proof.
  induction l as [|x l IH]; [reflexivity|].
  cbn [rev forallb]. rewrite forallb_app, IH. cbn [forallb].
  rewrite andb_true_r. apply andb_comm.
Qed.

Lemma concat_starts (l : list string) :
  l <> [] -> forallb sepfree l = true ->
  forallb (fun s => negb (String.eqb s EmptyString)) l = true ->
  starts_with_separator (String.concat "/" l) = false.
Proof.
  destruct l as [|x l]; [contradiction|]. intros _ Hs Hn.
  cbn [forallb] in Hs, Hn.
  apply andb_prop in Hs as [Hx _]. apply andb_prop in Hn as [Hnx _].
  apply negb_true_iff, String.eqb_neq in Hnx.
  assert (E : starts_with_separator x = false).
  { destruct x as [|c x]; [contradiction|]. unfold sepfree in Hx.
    cbn [string_forallb] in Hx. apply andb_prop in Hx as [Hc _].
    now apply negb_true_iff in Hc. }
  destruct l as [|z l]; [exact E|].
  change (String.concat "/" (x :: z :: l)) with (x ++ "/" ++ String.concat "/" (z :: l)).
  now rewrite starts_with_separator_app.
Qed.

Lemma canonical_nonempty (allow : bool) (res : list string) :
  canonical allow res = true ->
  forallb (fun s => negb (String.eqb s EmptyString)) res = true.
Proof.
  induction res as [|top below IH]; [reflexivity|]. intros H.
  cbn [forallb]. rewrite (IH (canonical_below _ _ _ H)), andb_true_r.
  cbn [canonical] in H. destruct (String.eqb_spec top "..") as [->|_]; [reflexivity|].
  apply andb_prop in H as [H _]. destruct (plain_name_spec top H) as (Hn & _).
  now destruct (String.eqb_spec top EmptyString).
Qed.

(** A normalized path and a name more: joining them puts a separator
    between the two and changes nothing else. *)
Lemma normalize_canonical_snoc (allow : bool) (res : list string) (b c : string) :
  canonical allow (b :: res) = true -> plain_name c = true ->
  let G := root_of allow ++ String.concat "/" (rev (b :: res)) in
  normalize (G ++ "/" ++ c) = G ++ "/" ++ c.
Proof.
  intros Hc Hpc G.
  assert (Hne : rev (b :: res) <> []).
  { cbn [rev]. destruct (rev res); discriminate. }
  assert (Hsf : forallb sepfree (rev (b :: res)) = true).
  { rewrite forallb_rev. exact (canonical_sepfree _ _ Hc). }
  assert (Hnn : forallb (fun s => negb (String.eqb s EmptyString)) (rev (b :: res)) = true).
  { rewrite forallb_rev. exact (canonical_nonempty _ _ Hc). }
  assert (Hbody : String.concat "/" (rev (b :: res)) <> EmptyString).
  { now apply concat_nonempty. }
  assert (HG : G <> EmptyString).
  { unfold G. now apply app_nonempty_r. }
  assert (Hstart : starts_with_separator G = negb allow).
  { unfold G, root_of. destruct allow.
    - rewrite string_app_empty_l. now apply concat_starts.
    - reflexivity. }
  assert (Hfold : fold_left (normalize_step allow) (segments G) [] = b :: res).
  { unfold G, root_of. destruct allow.
    - rewrite string_app_empty_l, segments_concat by assumption.
      now apply fold_of_canonical.
    - change ("/" ++ String.concat "/" (rev (b :: res)))
        with (EmptyString ++ String "/"%char (String.concat "/" (rev (b :: res)))).
      rewrite segments_app, segments_concat by assumption.
      cbn [segments app fold_left]. unfold normalize_step at 2. cbn [String.eqb orb].
      now apply fold_of_canonical. }
  destruct (normalize_snoc G c HG Hpc) as [Hn _].
  rewrite Hn, Hstart, negb_involutive, Hfold.
  rewrite concat_snoc. unfold G, root_of.
  destruct (rev (b :: res)) eqn:E; [contradiction|].
  destruct allow; cbn [negb]; now rewrite ?string_app_assoc.
Qed.

(** J1: a third argument that is a name. *)
Lemma Path_join_snoc_snoc (args : list string) (a b : string) :
  plain_name a = true -> plain_name b = true ->
  join (args ++ [a; b]) = join (args ++ [a]) ++ "/" ++ b.
Proof.
  intros Ha Hb.
  destruct (plain_name_spec a Ha) as (Ha1 & Ha2 & Ha3 & Ha4).
  destruct (Path_join_snoc args a Ha) as (allow & res & Hj & Hc & He & Hne).
  destruct (Path_join_snoc (args ++ [a]) b Hb) as (allow' & res' & Hj' & Hc' & _ & Hne').
  replace (args ++ [a; b])%list with ((args ++ [a]) ++ [b])%list
    by (now rewrite <- app_assoc).
  rewrite Hj', Hj.
  rewrite (filter_snoc args a Ha1) in Hne'.
  destruct Hne' as [Hal Hres]; [destruct (List.filter _ args); discriminate|].
  destruct (List.filter _ args) as [|x l] eqn:Ef.
  - destruct He as [-> ->]; [reflexivity|].
    cbn [app] in Hal, Hres. change (String.concat "/" [a]) with a in Hal, Hres.
    assert (Hs : starts_with_separator a = false).
    { destruct a as [|ch a]; [contradiction|]. unfold sepfree in Ha2.
      cbn [string_forallb] in Ha2. apply andb_prop in Ha2 as [Hch _].
      now apply negb_true_iff in Hch. }
    rewrite Hs in Hal. cbn [negb] in Hal. subst allow'.
    rewrite (segments_sepfree a Ha2) in Hres. cbn [fold_left] in Hres.
    rewrite (normalize_step_plain _ _ _ Ha) in Hres. subst res'.
    reflexivity.
  - destruct Hne as [Hal0 Hres0]; [discriminate|]. cbv zeta in Hal0, Hres0.
    set (y := String.concat "/" (x :: l)) in *.
    assert (Hy : y <> EmptyString).
    { apply concat_nonempty; [discriminate|].
      rewrite <- Ef. apply filter_all. }
    assert (E : String.concat "/" ((x :: l) ++ [a]) = y ++ String "/"%char a).
    { now rewrite concat_snoc. }
    rewrite E in Hal, Hres.
    rewrite starts_with_separator_app in Hal by exact Hy.
    assert (allow' = allow) as -> by congruence.
    rewrite segments_app, (segments_sepfree a Ha2), fold_left_app in Hres.
    cbn [fold_left] in Hres. rewrite <- Hres0 in Hres.
    rewrite (normalize_step_plain _ _ _ Ha) in Hres. subst res'.
    change (rev (b :: a :: res)) with (rev (a :: res) ++ [b])%list.
    rewrite concat_snoc.
    destruct (rev (a :: res)) eqn:Er.
    { cbn [rev] in Er. destruct (rev res); discriminate. }
    now rewrite string_app_assoc.
Qed.

(** J2: a joined path joined with one name more. *)
Lemma Path_join_joined (args : list string) (a b : string) :
  plain_name a = true -> plain_name b = true ->
  join [join (args ++ [a]); b] = join (args ++ [a]) ++ "/" ++ b.
Proof.
  intros Ha Hb.
  destruct (plain_name_spec b Hb) as (Hb1 & _).
  destruct (Path_join_snoc args a Ha) as (allow & res & Hj & Hc & _).
  pose proof (normalize_canonical_snoc allow res a b Hc Hb) as Hn. cbv zeta in Hn.
  rewrite <- Hj in Hn.
  assert (HG : join (args ++ [a]) <> EmptyString).
  { rewrite Hj. apply app_nonempty_r, concat_nonempty.
    - cbn [rev]. destruct (rev res); discriminate.
    - rewrite forallb_rev. exact (canonical_nonempty _ _ Hc). }
  unfold join at 1. cbn [List.filter].
  destruct (String.eqb_spec (join (args ++ [a])) EmptyString); [contradiction|].
  destruct (String.eqb_spec b EmptyString); [contradiction|]. cbn [negb].
  exact Hn.
Qed.

(** J3: the name comes last. *)
Lemma Path_join_ends_with_name (args : list string) (b : string) :
  plain_name b = true -> exists d, join (args ++ [b]) = d ++ b.
Proof.
  intros Hb. destruct (Path_join_snoc args b Hb) as (allow & res & Hj & _).
  rewrite Hj. cbn [rev]. rewrite concat_snoc.
  destruct (rev res).
  - exists (root_of allow). reflexivity.
  - eexists. rewrite <- !string_app_assoc. reflexivity.
Qed.

Lemma Path_join_not_ending_with_separator (args : list string) (b : string) :
  plain_name b = true ->
  join (args ++ [b]) <> EmptyString
  /\ ends_with_separator (join (args ++ [b])) = false.
Proof.
  intros Hb. destruct (plain_name_spec b Hb) as (Hb1 & Hb2 & _).
  destruct (Path_join_ends_with_name args b Hb) as (d & ->). split.
  - now apply app_nonempty_r.
  - rewrite ends_with_separator_app by exact Hb1.
    now apply ends_with_separator_sepfree.
Qed.

Lemma has_name_app (x y : string) : has_name y = true -> has_name (x ++ y) = true.
Proof.
  intros H. induction x as [|c x IH]; [exact H|].
  rewrite string_app_cons. cbn [has_name]. rewrite IH. apply orb_true_r.
Qed.

Lemma sepfree_has_name (b : string) :
  b <> EmptyString -> sepfree b = true -> has_name b = true.
Proof.
  destruct b as [|c b]; [contradiction|]. intros _ H. unfold sepfree in H.
  cbn [string_forallb] in H. apply andb_prop in H as [Hc _].
  cbn [has_name]. now rewrite Hc.
Qed.

Lemma sepfree_no_separator_before_name (b : string) :
  sepfree b = true -> last_separator_before_name b = None.
Proof.
  induction b as [|c b IH]; [reflexivity|]. unfold sepfree.
  cbn [string_forallb last_separator_before_name]. intros H.
  apply andb_prop in H as [Hc Hb]. rewrite (IH Hb).
  apply negb_true_iff in Hc. now rewrite Hc.
Qed.

Lemma last_separator_app (x b : string) :
  b <> EmptyString -> sepfree b = true ->
  last_separator_before_name (x ++ String "/"%char b) = Some (String.length x).
Proof.
  intros Hb1 Hb2. induction x as [|c x IH].
  - rewrite string_app_empty_l. cbn [last_separator_before_name].
    rewrite (sepfree_no_separator_before_name b Hb2).
    now rewrite (sepfree_has_name b Hb1 Hb2).
  - rewrite string_app_cons. cbn [last_separator_before_name String.length].
    now rewrite IH.
Qed.

Lemma substring_app (x y : string) : String.substring 0 (String.length x) (x ++ y) = x.
Proof.
  induction x as [|c x IH]; [now destruct y|].
  rewrite string_app_cons. cbn [String.length String.substring]. now rewrite IH.
Qed.

(** D1: the directory of a path that ends with a separator and a name. *)
Lemma dirname_snoc (d b : string) :
  d <> EmptyString -> ends_with_separator d = false ->
  b <> EmptyString -> sepfree b = true ->
  dirname (d ++ "/" ++ b) = d.
Proof.
  intros Hd He Hb1 Hb2. destruct d as [|c d]; [contradiction|].
  rewrite string_app_cons. unfold dirname.
  change (d ++ "/" ++ b) with (d ++ String "/"%char b).
  rewrite (last_separator_app d b Hb1 Hb2), substring_app.
  destruct d as [|c' d].
  - cbn [ends_with_separator] in He. rewrite He. reflexivity.
  - cbn [String.length]. now rewrite andb_false_r.
Qed.

End PathFacts.

(** ** The paths of the program *)

Section ProgramPaths.

Variable env : Env.

Lemma getProjectTokenPath_eq :
  Auth.getProjectTokenPath env
  = Path.join [cwd env; Auth.PROJECT_TOKEN_DIR] ++ "/" ++ Auth.PROJECT_TOKEN_FILE.
Proof. apply (Path_join_snoc_snoc [cwd env]); reflexivity. Qed.

Lemma getGlobalTokenPath_eq :
  Auth.getGlobalTokenPath env = Auth.GLOBAL_CONFIG_DIR env ++ "/" ++ Auth.GLOBAL_TOKEN_FILE.
Proof.
  apply (Path_join_joined
           [Js.or_else (xdg_config_home env) (Path.join [homedir env; ".config"])]);
    reflexivity.
Qed.

Lemma CREDENTIALS_PATH_eq :
  Auth.CREDENTIALS_PATH env = Auth.GLOBAL_CONFIG_DIR env ++ "/" ++ "credentials.json".
Proof.
  apply (Path_join_joined
           [Js.or_else (xdg_config_home env) (Path.join [homedir env; ".config"])]);
    reflexivity.
Qed.

Lemma gitignorePath_eq : exists d, Auth.gitignorePath env = d ++ ".gitignore".
Proof. apply (Path_join_ends_with_name [cwd env]). reflexivity. Qed.

(** The project file name and the global one end differently, so the two
    token paths are never the same string. *)
Lemma token_paths_distinct :
  Auth.getProjectTokenPath env <> Auth.getGlobalTokenPath env.
Proof.
  rewrite getProjectTokenPath_eq, getGlobalTokenPath_eq. intros H.
  change ("/" ++ Auth.PROJECT_TOKEN_FILE) with ("/twitter-skil" ++ "l.local.json") in H.
  rewrite <- string_app_assoc in H.
  apply string_app_suffix in H; [discriminate | reflexivity].
Qed.

End ProgramPaths.

(** ** Text read from a file *)

Section Utf8.

Import Encoding.

(** With no sequence under way, the decoder looks at the bytes only. *)
Lemma utf8_decode_from_start (pending : string) (lower upper : nat) (bytes : string) :
  utf8_decode_from pending 0 lower upper bytes = utf8_decode bytes.
Proof. destruct bytes; reflexivity. Qed.

Lemma utf8_decode_ascii_cons (b : ascii) (rest : string) :
  ascii_char b = true ->
  utf8_decode (String b rest) = String b (utf8_decode rest).
Proof.
  unfold ascii_char, utf8_decode. intros H. cbn [utf8_decode_from]. now rewrite H.
Qed.

(** A byte of ASCII ends the sequence under way, which is replaced, and
    stands for itself. *)
Lemma utf8_decode_from_ascii_cons
    (pending : string) (needed lower upper : nat) (b : ascii) (rest : string) :
  ascii_char b = true -> (128 <= lower)%nat ->
  utf8_decode_from pending needed lower upper (String b rest)
  = (match needed with O => EmptyString | S _ => REPLACEMENT end)
    ++ String b (utf8_decode rest).
Proof.
  unfold ascii_char, utf8_decode. intros Hb Hl.
  apply Nat.ltb_lt in Hb.
  assert (Hr : ((lower <=? nat_of_ascii b) && (nat_of_ascii b <=? upper))%nat = false).
  { apply andb_false_iff. left. apply Nat.leb_gt. lia. }
  apply Nat.ltb_lt in Hb.
  cbn [utf8_decode_from]. rewrite Hb, Hr.
  destruct needed as [|[|needed]]; reflexivity.
Qed.

Lemma utf8_decode_from_ascii
    (pending : string) (needed lower upper : nat) (p rest : string) :
  string_forallb ascii_char p = true -> p <> EmptyString -> (128 <= lower)%nat ->
  utf8_decode_from pending needed lower upper (p ++ rest)
  = (match needed with O => EmptyString | S _ => REPLACEMENT end)
    ++ p ++ utf8_decode rest.
Proof.
  intros Hp Hne Hl. destruct p as [|b p]; [contradiction|].
  cbn [string_forallb] in Hp. apply andb_prop in Hp as [Hb Hp].
  rewrite string_app_cons, (utf8_decode_from_ascii_cons _ _ _ _ _ _ Hb Hl).
  f_equal. rewrite string_app_cons. f_equal.
  clear Hne Hb b. induction p as [|b p IH]; [reflexivity|].
  cbn [string_forallb] in Hp. apply andb_prop in Hp as [Hb Hp].
  rewrite !string_app_cons, (utf8_decode_ascii_cons _ _ Hb). now rewrite (IH Hp).
Qed.

(** Text of ASCII is read as it is. *)
Lemma utf8_decode_ascii (s : string) :
  string_forallb ascii_char s = true -> utf8_decode s = s.
Proof.
  induction s as [|b s IH]; [reflexivity|].
  cbn [string_forallb]. intros H. apply andb_prop in H as [Hb Hs].
  now rewrite (utf8_decode_ascii_cons _ _ Hb), (IH Hs).
Qed.

(** One byte read: some output, and the decoder goes on with the rest. *)
Lemma utf8_decode_from_cons
    (pending : string) (needed lower upper : nat) (b : ascii) (rest : string) :
  exists out pending' needed' lower' upper',
    utf8_decode_from pending needed lower upper (String b rest)
    = out ++ utf8_decode_from pending' needed' lower' upper' rest
    /\ (128 <= lower')%nat.
Proof.
  assert (Hstart : exists out pending' needed' lower' upper',
             (let n := nat_of_ascii b in
              if (n <? 128)%nat then
                String b (utf8_decode_from EmptyString 0 128 191 rest)
              else if (194 <=? n)%nat && (n <=? 223)%nat then
                utf8_decode_from (String b EmptyString) 1 128 191 rest
              else if (224 <=? n)%nat && (n <=? 239)%nat then
                utf8_decode_from (String b EmptyString) 2
                  (if (n =? 224)%nat then 160 else 128)%nat
                  (if (n =? 237)%nat then 159 else 191)%nat rest
              else if (240 <=? n)%nat && (n <=? 244)%nat then
                utf8_decode_from (String b EmptyString) 3
                  (if (n =? 240)%nat then 144 else 128)%nat
                  (if (n =? 244)%nat then 143 else 191)%nat rest
              else REPLACEMENT ++ utf8_decode_from EmptyString 0 128 191 rest)
             = out ++ utf8_decode_from pending' needed' lower' upper' rest
             /\ (128 <= lower')%nat).
  { cbv zeta.
    destruct (nat_of_ascii b <? 128)%nat.
    { exists (String b EmptyString). do 4 eexists. split; [reflexivity | lia]. }
    destruct ((194 <=? nat_of_ascii b)%nat && (nat_of_ascii b <=? 223)%nat).
    { exists EmptyString. do 4 eexists. split; [reflexivity | lia]. }
    destruct ((224 <=? nat_of_ascii b)%nat && (nat_of_ascii b <=? 239)%nat).
    { exists EmptyString. do 4 eexists. split; [reflexivity|].
      destruct (nat_of_ascii b =? 224)%nat; lia. }
    destruct ((240 <=? nat_of_ascii b)%nat && (nat_of_ascii b <=? 244)%nat).
    { exists EmptyString. do 4 eexists. split; [reflexivity|].
      destruct (nat_of_ascii b =? 240)%nat; lia. }
    exists REPLACEMENT. do 4 eexists. split; [reflexivity | lia]. }
  destruct Hstart as (out & p' & n' & l' & u' & E & Hl).
  cbn [utf8_decode_from]. cbv zeta in E.
  destruct needed as [|[|needed]].
  - rewrite E. eauto 10.
  - destruct ((lower <=? nat_of_ascii b)%nat && (nat_of_ascii b <=? upper)%nat).
    + exists (pending ++ String b EmptyString). do 4 eexists.
      split; [|reflexivity]. now rewrite string_app_assoc.
    + rewrite E. exists (REPLACEMENT ++ out). do 4 eexists.
      split; [|exact Hl]. now rewrite string_app_assoc.
  - destruct ((lower <=? nat_of_ascii b)%nat && (nat_of_ascii b <=? upper)%nat).
    + exists EmptyString. do 4 eexists. split; [reflexivity | lia].
    + rewrite E. exists (REPLACEMENT ++ out). do 4 eexists.
      split; [|exact Hl]. now rewrite string_app_assoc.
Qed.

Lemma prefix_inv (p s : string) :
  String.prefix p s = true -> exists r, s = p ++ r.
Proof.
  revert s. induction p as [|c p IH]; intros s H; [now exists s|].
  destruct s as [|d s]; [discriminate|]. cbn [String.prefix] in H.
  destruct (ascii_dec c d) as [->|]; [|discriminate].
  destruct (IH s H) as (r & ->). now exists r.
Qed.

(** What ASCII text the bytes of a file hold, the decoded text holds. *)
Lemma includes_utf8_decode_from
    (p : string) (pending : string) (needed lower upper : nat) (bytes : string) :
  string_forallb ascii_char p = true -> p <> EmptyString -> (128 <= lower)%nat ->
  Js.includes p bytes = true ->
  Js.includes p (utf8_decode_from pending needed lower upper bytes) = true.
Proof.
  intros Hp Hne. revert pending needed lower upper.
  induction bytes as [|b rest IH]; intros pending needed lower upper Hl H.
  - destruct p; [contradiction | discriminate].
  - cbn [Js.includes] in H. apply orb_prop in H as [H|H].
    + destruct (prefix_inv _ _ H) as (r & ->).
      rewrite (utf8_decode_from_ascii _ _ _ _ _ _ Hp Hne Hl).
      apply includes_app_l, includes_prefix, prefix_app.
    + destruct (utf8_decode_from_cons pending needed lower upper b rest)
        as (out & p' & n' & l' & u' & -> & Hl').
      apply includes_app_l, IH; assumption.
Qed.

Lemma includes_utf8_decode (p bytes : string) :
  string_forallb ascii_char p = true -> p <> EmptyString ->
  Js.includes p bytes = true -> Js.includes p (utf8_decode bytes) = true.
Proof. intros Hp Hne. apply includes_utf8_decode_from; [assumption | assumption | lia]. Qed.

Lemma reached_start : reached EmptyString 0 128 191.
Proof. intros rest. reflexivity. Qed.

Lemma utf8_decode_replacement (rest : string) :
  utf8_decode (REPLACEMENT ++ rest) = REPLACEMENT ++ utf8_decode rest.
Proof. reflexivity. Qed.

(** Decoded text is well-formed: decoding it again, with whatever follows
    it, gives it back. *)
Lemma utf8_decode_from_decoded
    (pending : string) (needed lower upper : nat) (bytes tail : string) :
  reached pending needed lower upper ->
  utf8_decode (utf8_decode_from pending needed lower upper bytes ++ tail)
  = utf8_decode_from pending needed lower upper bytes ++ utf8_decode tail.
Proof.
  revert pending needed lower upper.
  induction bytes as [|b rest IH]; intros pending needed lower upper Hst.
  - cbn [utf8_decode_from]. destruct needed; [reflexivity|].
    apply utf8_decode_replacement.
  - assert (Hstart :
      utf8_decode
        ((let n := nat_of_ascii b in
          if (n <? 128)%nat then
            String b (utf8_decode_from EmptyString 0 128 191 rest)
          else if (194 <=? n)%nat && (n <=? 223)%nat then
            utf8_decode_from (String b EmptyString) 1 128 191 rest
          else if (224 <=? n)%nat && (n <=? 239)%nat then
            utf8_decode_from (String b EmptyString) 2
              (if (n =? 224)%nat then 160 else 128)%nat
              (if (n =? 237)%nat then 159 else 191)%nat rest
          else if (240 <=? n)%nat && (n <=? 244)%nat then
            utf8_decode_from (String b EmptyString) 3
              (if (n =? 240)%nat then 144 else 128)%nat
              (if (n =? 244)%nat then 143 else 191)%nat rest
          else REPLACEMENT ++ utf8_decode_from EmptyString 0 128 191 rest) ++ tail)
      = (let n := nat_of_ascii b in
          if (n <? 128)%nat then
            String b (utf8_decode_from EmptyString 0 128 191 rest)
          else if (194 <=? n)%nat && (n <=? 223)%nat then
            utf8_decode_from (String b EmptyString) 1 128 191 rest
          else if (224 <=? n)%nat && (n <=? 239)%nat then
            utf8_decode_from (String b EmptyString) 2
              (if (n =? 224)%nat then 160 else 128)%nat
              (if (n =? 237)%nat then 159 else 191)%nat rest
          else if (240 <=? n)%nat && (n <=? 244)%nat then
            utf8_decode_from (String b EmptyString) 3
              (if (n =? 240)%nat then 144 else 128)%nat
              (if (n =? 244)%nat then 143 else 191)%nat rest
          else REPLACEMENT ++ utf8_decode_from EmptyString 0 128 191 rest)
        ++ utf8_decode tail).
    { cbv zeta.
      destruct (nat_of_ascii b <? 128)%nat eqn:H1.
      { rewrite string_app_cons, utf8_decode_ascii_cons by exact H1.
        rewrite string_app_cons. f_equal. apply IH, reached_start. }
      destruct ((194 <=? nat_of_ascii b)%nat && (nat_of_ascii b <=? 223)%nat) eqn:H2.
      { apply IH. intros r. rewrite string_app_cons, string_app_empty_l.
        unfold utf8_decode. cbn [utf8_decode_from]. now rewrite H1, H2. }
      destruct ((224 <=? nat_of_ascii b)%nat && (nat_of_ascii b <=? 239)%nat) eqn:H3.
      { apply IH. intros r. rewrite string_app_cons, string_app_empty_l.
        unfold utf8_decode. cbn [utf8_decode_from]. now rewrite H1, H2, H3. }
      destruct ((240 <=? nat_of_ascii b)%nat && (nat_of_ascii b <=? 244)%nat) eqn:H4.
      { apply IH. intros r. rewrite string_app_cons, string_app_empty_l.
        unfold utf8_decode. cbn [utf8_decode_from]. now rewrite H1, H2, H3, H4. }
      rewrite string_app_assoc, utf8_decode_replacement, string_app_assoc.
      f_equal. apply IH, reached_start. }
    cbn [utf8_decode_from]. cbv zeta in Hstart.
    destruct needed as [|[|needed]].
    + exact Hstart.
    + destruct ((lower <=? nat_of_ascii b)%nat && (nat_of_ascii b <=? upper)%nat) eqn:Hr.
      * rewrite string_app_assoc, string_app_cons.
        rewrite (Hst (String b (utf8_decode_from EmptyString 0 128 191 rest ++ tail))).
        cbn [utf8_decode_from]. rewrite Hr.
        rewrite utf8_decode_from_start.
        rewrite (IH _ _ _ _ reached_start).
        now rewrite !string_app_assoc, !string_app_cons.
      * rewrite string_app_assoc, utf8_decode_replacement, string_app_assoc.
        f_equal. exact Hstart.
    + destruct ((lower <=? nat_of_ascii b)%nat && (nat_of_ascii b <=? upper)%nat) eqn:Hr.
      * apply IH. intros r. rewrite string_app_assoc, string_app_cons, string_app_empty_l.
        rewrite (Hst (String b r)). cbn [utf8_decode_from]. now rewrite Hr.
      * rewrite string_app_assoc, utf8_decode_replacement, string_app_assoc.
        f_equal. exact Hstart.
Qed.

Lemma utf8_decode_decoded (bytes tail : string) :
  utf8_decode (utf8_decode bytes ++ tail) = utf8_decode bytes ++ utf8_decode tail.
Proof. apply utf8_decode_from_decoded, reached_start. Qed.

Lemma utf8_decode_idempotent (bytes : string) :
  utf8_decode (utf8_decode bytes) = utf8_decode bytes.
Proof.
  rewrite <- (string_app_empty_r (utf8_decode bytes)) at 1.
  rewrite utf8_decode_decoded. apply string_app_empty_r.
Qed.

End Utf8.

(** ** Token store: lookup precedence *)

Section TokenStore.

Variable env : Env.

Lemma findTokenPath_eq (w : World) :
  Auth.findTokenPath env w =
  (Returned
     (match token_files w !! Auth.getProjectTokenPath env with
      | Some _ => Some (Auth.getProjectTokenPath env)
      | None =>
          match token_files w !! Auth.getGlobalTokenPath env with
          | Some _ => Some (Auth.getGlobalTokenPath env)
          | None => None
          end
      end), w).
Proof.
  unfold Auth.findTokenPath, try_catch, bind, Auth.fs_access, ret.
  destruct (token_files w !! Auth.getProjectTokenPath env); [reflexivity|].
  destruct (token_files w !! Auth.getGlobalTokenPath env); reflexivity.
Qed.

Lemma read_token_json_not_Error (p m : string) (w : World) :
  fst (Auth.read_token_json p w) <> Thrown (Js.Error m).
Proof.
  unfold Auth.read_token_json.
  destruct (token_files w !! p) as [[| |]|]; simpl; discriminate.
Qed.

(** C6. Lookup tries the project-scoped path first and the global path
    second: with a file at the project path [findTokenPath] returns the
    project path (whatever is at the global one); with a file at the global
    path only it returns the global path; and [loadToken] throws the "Token
    not found" error exactly when there is a file at neither path. Lookup
    changes nothing. *)
Theorem token_lookup_precedence (w : World) :
  (is_Some (token_files w !! Auth.getProjectTokenPath env) ->
   Auth.findTokenPath env w = (Returned (Some (Auth.getProjectTokenPath env)), w))
  /\ (token_files w !! Auth.getProjectTokenPath env = None ->
      is_Some (token_files w !! Auth.getGlobalTokenPath env) ->
      Auth.findTokenPath env w = (Returned (Some (Auth.getGlobalTokenPath env)), w))
  /\ (Auth.loadToken env w = (Thrown (Js.Error (Auth.token_not_found_message env)), w)
      <-> token_files w !! Auth.getProjectTokenPath env = None
          /\ token_files w !! Auth.getGlobalTokenPath env = None).
Proof.
  split; [|split].
  - intros [f Hf]. rewrite findTokenPath_eq, Hf. reflexivity.
  - intros Hp [f Hf]. rewrite findTokenPath_eq, Hp, Hf. reflexivity.
  - unfold Auth.loadToken, bind. rewrite findTokenPath_eq.
    destruct (token_files w !! Auth.getProjectTokenPath env) eqn:Hp.
    + split; [|intros [? _]; discriminate].
      intros H. exfalso.
      eapply read_token_json_not_Error. rewrite H. reflexivity.
    + destruct (token_files w !! Auth.getGlobalTokenPath env) eqn:Hg.
      * split; [|intros [_ ?]; discriminate].
        intros H. exfalso.
        eapply read_token_json_not_Error. rewrite H. reflexivity.
      * split; [auto|]. intros _. reflexivity.
Qed.

(** The older revision agrees with this lookup wherever a project file
    exists, and finds nothing otherwise. *)
Lemma project_only_findTokenPath (w : World) :
  AuthProjectOnly.findTokenPath env w =
  (Returned
     (match token_files w !! Auth.getProjectTokenPath env with
      | Some _ => Some (Auth.getProjectTokenPath env)
      | None => None
      end), w).
Proof.
  unfold AuthProjectOnly.findTokenPath, try_catch, bind, Auth.fs_access, ret.
  destruct (token_files w !! Auth.getProjectTokenPath env); reflexivity.
Qed.

Lemma project_only_agrees (w : World) :
  is_Some (token_files w !! Auth.getProjectTokenPath env) ->
  AuthProjectOnly.findTokenPath env w = Auth.findTokenPath env w
  /\ AuthProjectOnly.loadToken env w = Auth.loadToken env w.
Proof.
  intros [f Hf].
  assert (E : AuthProjectOnly.findTokenPath env w = Auth.findTokenPath env w).
  { rewrite project_only_findTokenPath, findTokenPath_eq, Hf. reflexivity. }
  split; [exact E|].
  unfold AuthProjectOnly.loadToken, Auth.loadToken, bind. rewrite E.
  rewrite findTokenPath_eq, Hf. reflexivity.
Qed.

End TokenStore.

Lemma token_lookup_precedence_witness :
  Auth.findTokenPath Fixture.env0
    (Fixture.world_with
       [(Fixture.global_path, Document (Fixture.token "T0" "R0" 0))])
  = (Returned (Some Fixture.global_path),
     Fixture.world_with
       [(Fixture.global_path, Document (Fixture.token "T0" "R0" 0))]).
Proof.
  apply (token_lookup_precedence Fixture.env0
           (Fixture.world_with
              [(Fixture.global_path, Document (Fixture.token "T0" "R0" 0))])).
  - vm_compute. reflexivity.
  - vm_compute. eexists. reflexivity.
Defined.

(** ** Token lifecycle: refresh before expiry *)

Section Lifecycle.

Variable env : Env.

Lemma loadCredentials_world (w : World) :
  snd (Auth.loadCredentials env w) = w.
Proof.
  unfold Auth.loadCredentials, bind, try_catch, Auth.read_credentials_json, ret, throw.
  destruct (credentials_file w) as [[| |[[i|] [s|]]]|]; simpl;
    repeat match goal with
      | |- context [if ?b then _ else _] => destruct b; simpl
      | |- context [match ?o with Some _ => _ | None => _ end] => destruct o; simpl
      end; reflexivity.
Qed.

Lemma loadCredentials_alive (w : World) (e : Js.Exn) :
  fst (Auth.loadCredentials env w) <> Crashed e.
Proof.
  unfold Auth.loadCredentials, bind, try_catch, Auth.read_credentials_json, ret, throw.
  destruct (credentials_file w) as [[| |[[i|] [s|]]]|]; simpl;
    repeat match goal with
      | |- context [if ?b then _ else _] => destruct b; simpl
      | |- context [match ?o with Some _ => _ | None => _ end] => destruct o; simpl
      end; discriminate.
Qed.

Lemma saveToken_trace (t : TokenData) (g : bool) (w : World) :
  trace (snd (Auth.saveToken env t g w)) = trace w.
Proof.
  unfold Auth.saveToken, bind, Auth.fs_mkdir, Auth.write_token_json.
  destruct (mkdir_error env _) as [[? ?]|]; [reflexivity|].
  destruct (write_error env _) as [[? ?]|]; [|reflexivity].
  destruct (write_torn env _) as [[? ?]|]; reflexivity.
Qed.

Lemma refreshAccessToken_trace (c : Credentials) (rt p : string) (w : World) :
  trace (snd (Auth.refreshAccessToken env c rt p w)) =
  (trace w ++ [Auth.refresh_request c rt])%list.
Proof.
  unfold Auth.refreshAccessToken, bind, Auth.post_token, Auth.refresh_request.
  destruct (token_endpoint env _ _ _) as [m|m|data]; try reflexivity.
  destruct (Js.truthy (r_error data)); [reflexivity|].
  destruct (negb _ || negb _); [reflexivity|].
  unfold Auth.Date_now, ret.
  match goal with
  | |- context [Auth.saveToken env ?t ?g ?w0] =>
      pose proof (saveToken_trace t g w0) as Hs;
      destruct (Auth.saveToken env t g w0) as [[[]|e|e] w2]
  end; simpl in *; exact Hs.
Qed.

Lemma getValidAccessToken_loaded
    (w : World) (credentials : Credentials) (tokenPath : string)
    (tokenData : TokenData) :
  fst (Auth.loadCredentials env w) = Returned credentials ->
  fst (Auth.findTokenPath env w) = Returned (Some tokenPath) ->
  token_files w !! tokenPath = Some (Document tokenData) ->
  let now := clock env (ticks w) in
  let near := expires_at tokenData <? now + 5 * 60 * 1000 in
  let refreshed :=
    Auth.refreshAccessToken env credentials (refresh_token tokenData) tokenPath
      (with_ticks (S (ticks w)) w) in
  trace (snd (Auth.getValidAccessToken env w)) =
    (trace w ++ (if near
                 then [Auth.refresh_request credentials (refresh_token tokenData)]
                 else []))%list
  /\ Auth.getValidAccessToken env w =
     if near
     then (match fst refreshed with
           | Returned record => Returned (access_token record)
           | Thrown e => Thrown e
           | Crashed e => Crashed e
           end, snd refreshed)
     else (Returned (access_token tokenData), with_ticks (S (ticks w)) w).
Proof.
  intros Hc Hf Hd now near refreshed.
  assert (Hget : Auth.getValidAccessToken env w =
     if near
     then (match fst refreshed with
           | Returned record => Returned (access_token record)
           | Thrown e => Thrown e
           | Crashed e => Crashed e
           end, snd refreshed)
     else (Returned (access_token tokenData), with_ticks (S (ticks w)) w)).
  { unfold Auth.getValidAccessToken, bind.
    pose proof (loadCredentials_world w) as Hw.
    destruct (Auth.loadCredentials env w) as [rc wc]; simpl in Hc, Hw; subst rc wc.
    rewrite findTokenPath_eq in Hf |- *. simpl in Hf.
    injection Hf as Hf. rewrite Hf.
    unfold Auth.read_token_json at 1. rewrite Hd.
    unfold Auth.Date_now at 1. fold now.
    change (expires_at tokenData <? now + Auth.bufferMs) with near.
    destruct near.
    - fold refreshed. destruct refreshed as [[record|e|e] w']; reflexivity.
    - reflexivity. }
  split; [|exact Hget].
  rewrite Hget. destruct near.
  - simpl. unfold refreshed. rewrite refreshAccessToken_trace. reflexivity.
  - simpl. rewrite app_nil_r. reflexivity.
Qed.

End Lifecycle.

(** ** Token refresh *)

Section Refresh.

Variable env : Env.

Lemma saveToken_eq (t : TokenData) (g : bool) (w : World) :
  Auth.saveToken env t g w =
  let p := if g then Auth.getGlobalTokenPath env else Auth.getProjectTokenPath env in
  match mkdir_error env (Path.dirname p) with
  | Some (code, msg) => (Thrown (Js.SystemError code msg), w)
  | None =>
      match write_error env p with
      | Some (code, msg) => (Thrown (Js.SystemError code msg), after_failed_write env p w)
      | None => (Returned tt, with_token_files (<[p := Document t]> (token_files w)) w)
      end
  end.
Proof.
  unfold Auth.saveToken, bind, Auth.fs_mkdir, Auth.write_token_json. cbv zeta.
  destruct (mkdir_error env _) as [[? ?]|]; [reflexivity|].
  destruct (write_error env _) as [[? ?]|]; reflexivity.
Qed.

(** A path that [findTokenPath] returns is one of the two token paths,
    and the refresh writes back to that very path. *)
Lemma found_path_cases (w : World) (p : string) :
  fst (Auth.findTokenPath env w) = Returned (Some p) ->
  (p = Auth.getProjectTokenPath env
   \/ (p = Auth.getGlobalTokenPath env
       /\ token_files w !! Auth.getProjectTokenPath env = None))
  /\ (if String.eqb p (Auth.getGlobalTokenPath env)
      then Auth.getGlobalTokenPath env else Auth.getProjectTokenPath env) = p.
Proof.
  rewrite findTokenPath_eq. simpl.
  destruct (token_files w !! Auth.getProjectTokenPath env) eqn:Hp.
  - intros [= <-]. split; [now left|].
    destruct (String.eqb_spec (Auth.getProjectTokenPath env) (Auth.getGlobalTokenPath env)) as [E|_];
      [destruct (token_paths_distinct env E) | reflexivity].
  - destruct (token_files w !! Auth.getGlobalTokenPath env); [|discriminate].
    intros [= <-]. split; [now right|].
    now rewrite String.eqb_refl.
Qed.

Lemma found_path_after_write (w : World) (p : string) (t : TokenData) :
  fst (Auth.findTokenPath env w) = Returned (Some p) ->
  fst (Auth.findTokenPath env
         (with_token_files (<[p := Document t]> (token_files w)) w))
  = Returned (Some p).
Proof.
  intros H. destruct (found_path_cases w p H) as [[->|[-> Hp]] _];
    rewrite findTokenPath_eq; simpl.
  - now rewrite lookup_insert_eq.
  - rewrite lookup_insert_ne by (intros E; exact (token_paths_distinct env (eq_sym E))).
    rewrite Hp. now rewrite lookup_insert_eq.
Qed.

(** What the refresh does with a JSON response, case by case. *)
Lemma refreshAccessToken_eq
    (w : World) (c : Credentials) (rt p : string) (data : TokenResponse) :
  fst (Auth.findTokenPath env w) = Returned (Some p) ->
  token_endpoint env (posts w) ("Basic " ++ Auth.basic_auth c)
    [("grant_type", "refresh_token"); ("refresh_token", rt)] = JsonBody data ->
  Auth.refreshAccessToken env c rt p w =
  let w1 := with_posts (S (posts w))
              (with_trace (trace w ++ [Auth.refresh_request c rt]) w) in
  let w2 := with_ticks (S (ticks w)) w1 in
  let record := Auth.token_of_response (clock env (ticks w)) data in
  if Js.truthy (r_error data) then
    (Thrown (Js.Error ("Token refresh failed: " ++
                       Js.or_else (r_error_description data)
                                  (Js.to_string (r_error data)))), w1)
  else if negb (Js.truthy (r_access_token data))
          || negb (Js.truthy (r_refresh_token data)) then
    (Thrown (Js.Error "Invalid token response from Twitter"), w1)
  else
    match mkdir_error env (Path.dirname p) with
    | Some (code, msg) => (Thrown (Js.SystemError code msg), w2)
    | None =>
        match write_error env p with
        | Some (code, msg) =>
            (Thrown (Js.SystemError code msg), after_failed_write env p w2)
        | None =>
            (Returned record,
             with_token_files (<[p := Document record]> (token_files w)) w2)
        end
    end.
Proof.
  intros Hf Hr.
  destruct (found_path_cases w p Hf) as [_ Hp].
  unfold Auth.refreshAccessToken, bind, Auth.post_token. cbv zeta.
  rewrite Hr.
  destruct (Js.truthy (r_error data)); [reflexivity|].
  destruct (negb _ || negb _); [reflexivity|].
  unfold Auth.Date_now at 1.
  rewrite saveToken_eq. cbv zeta. rewrite Hp.
  destruct (mkdir_error env _) as [[? ?]|]; [reflexivity|].
  destruct (write_error env _) as [[? ?]|]; reflexivity.
Qed.

(** C7, as the code has it. For a token path that lookup returned and a
    JSON response of the token endpoint, the refresh returns a record exactly
    when the response has no non-empty [error], has a non-empty
    [access_token] and a non-empty [refresh_token], and the token file can
    be written back. The record returned carries the [access_token] and the
    [refresh_token] of the response and replaces the file at the path the
    old record was read from, so that the next load, and with it the next
    refresh request, takes the new refresh token. A response with a
    non-empty [error] or without one of the tokens makes the refresh throw
    an [Error] and leaves the token files as they were. *)
Theorem refreshAccessToken_outcome
    (w : World) (credentials : Credentials) (refreshToken tokenPath : string)
    (data : TokenResponse) :
  fst (Auth.findTokenPath env w) = Returned (Some tokenPath) ->
  token_endpoint env (posts w) ("Basic " ++ Auth.basic_auth credentials)
    [("grant_type", "refresh_token"); ("refresh_token", refreshToken)]
  = JsonBody data ->
  let result := Auth.refreshAccessToken env credentials refreshToken tokenPath w in
  let accepted :=
    negb (Js.truthy (r_error data))
    && Js.truthy (r_access_token data) && Js.truthy (r_refresh_token data) in
  ((exists record, fst result = Returned record)
   <-> accepted = true
       /\ mkdir_error env (Path.dirname tokenPath) = None
       /\ write_error env tokenPath = None)
  /\ (forall record, fst result = Returned record ->
      access_token record = r_access_token data
      /\ Some (refresh_token record) = r_refresh_token data
      /\ token_files (snd result)
         = <[tokenPath := Document record]> (token_files w)
      /\ fst (Auth.loadToken env (snd result)) = Returned record
      /\ (forall c, fst (Auth.loadCredentials env (snd result)) = Returned c ->
           (expires_at record <? clock env (ticks (snd result)) + 5 * 60 * 1000) = true ->
           trace (snd (Auth.getValidAccessToken env (snd result)))
           = (trace (snd result)
              ++ [Auth.refresh_request c (Js.to_string (r_refresh_token data))])%list))
  /\ (accepted = false ->
      fst result
      = Thrown (Js.Error
                  (if Js.truthy (r_error data)
                   then "Token refresh failed: " ++
                        Js.or_else (r_error_description data)
                                   (Js.to_string (r_error data))
                   else "Invalid token response from Twitter"))
      /\ token_files (snd result) = token_files w).
Proof.
  intros Hf Hr result accepted.
  pose proof (refreshAccessToken_eq w credentials refreshToken tokenPath data Hf Hr) as E.
  cbv zeta in E. fold result in E.
  split; [|split].
  - subst accepted. rewrite E.
    destruct (Js.truthy (r_error data)); simpl.
    { split; [intros [? ?]; discriminate | intros [? _]; discriminate]. }
    destruct (Js.truthy (r_access_token data)); simpl.
    2:{ split; [intros [? ?]; discriminate | intros [? _]; discriminate]. }
    destruct (Js.truthy (r_refresh_token data)); simpl.
    2:{ split; [intros [? ?]; discriminate | intros [? _]; discriminate]. }
    destruct (mkdir_error env _) as [[? ?]|]; simpl.
    { split; [intros [? ?]; discriminate | intros (_ & ? & _); discriminate]. }
    destruct (write_error env _) as [[? ?]|]; simpl.
    { split; [intros [? ?]; discriminate | intros (_ & _ & ?); discriminate]. }
    split; [auto | eauto].
  - intros record Hrec. rewrite E in Hrec |- *.
    destruct (Js.truthy (r_error data)); [discriminate|].
    destruct (Js.truthy (r_access_token data)); [|discriminate].
    destruct (Js.truthy (r_refresh_token data)) eqn:Ht; [|discriminate].
    simpl in Hrec |- *.
    destruct (mkdir_error env _) as [[? ?]|]; [discriminate|].
    destruct (write_error env _) as [[? ?]|]; [discriminate|].
    simpl in Hrec |- *. injection Hrec as <-.
    set (record := Auth.token_of_response (clock env (ticks w)) data).
    set (w3 := with_token_files _ _).
    assert (Hf3 : fst (Auth.findTokenPath env w3) = Returned (Some tokenPath)).
    { pose proof (found_path_after_write w tokenPath record Hf) as H3.
      rewrite findTokenPath_eq in H3 |- *. exact H3. }
    assert (Hd3 : token_files w3 !! tokenPath = Some (Document record)).
    { subst w3. simpl. now rewrite lookup_insert_eq. }
    split; [reflexivity|]. split.
    { simpl. destruct (r_refresh_token data); [reflexivity | discriminate]. }
    split; [reflexivity|]. split.
    { unfold Auth.loadToken, bind.
      destruct (Auth.findTokenPath env w3) as [r w'] eqn:Ef.
      pose proof (findTokenPath_eq env w3) as Ew. rewrite Ef in Ew.
      simpl in Hf3. subst r. injection Ew as _ ->.
      unfold Auth.read_token_json. now rewrite Hd3. }
    intros c Hc Hnear.
    destruct (getValidAccessToken_loaded env w3 c tokenPath record Hc Hf3 Hd3) as [Ht3 _].
    rewrite Ht3. replace (ticks w3) with (S (ticks w)) by reflexivity.
    rewrite Hnear. reflexivity.
  - intros Hacc. subst accepted. rewrite E.
    destruct (Js.truthy (r_error data)); simpl; [split; reflexivity|].
    destruct (Js.truthy (r_access_token data)); simpl in Hacc |- *; [|split; reflexivity].
    destruct (Js.truthy (r_refresh_token data)); simpl in Hacc |- *; [discriminate|].
    split; reflexivity.
Qed.

End Refresh.

Lemma refreshAccessToken_outcome_witness :
  exists record,
    fst (Auth.refreshAccessToken Fixture.env0 Fixture.credentials "R1"
           Fixture.project_path Fixture.world_expired) = Returned record.
Proof.
  assert (Hf : fst (Auth.findTokenPath Fixture.env0 Fixture.world_expired)
               = Returned (Some Fixture.project_path)) by (vm_compute; reflexivity).
  assert (Hr : token_endpoint Fixture.env0 (posts Fixture.world_expired)
                 ("Basic " ++ Auth.basic_auth Fixture.credentials)
                 [("grant_type", "refresh_token"); ("refresh_token", "R1")]
               = JsonBody (Fixture.response (Some "T2") (Some "R2") None))
    by reflexivity.
  destruct (refreshAccessToken_outcome Fixture.env0 Fixture.world_expired
              Fixture.credentials "R1" Fixture.project_path
              (Fixture.response (Some "T2") (Some "R2") None) Hf Hr) as [H _].
  apply H. vm_compute. auto.
Defined.

(** C7 as the specification words it fails on a response that has an [error]
    field holding the empty string: the field is there, and the refresh
    returns the new record all the same. *)
Lemma refresh_with_empty_error_succeeds :
  r_error (Fixture.response (Some "T2") (Some "R2") (Some EmptyString)) <> None
  /\ fst (Auth.refreshAccessToken
            (Fixture.env_with
               (JsonBody (Fixture.response (Some "T2") (Some "R2") (Some EmptyString)))
               (fun _ => []))
            Fixture.credentials "R1" Fixture.project_path Fixture.world_expired)
     = Returned (Fixture.token "T2" "R2" (Fixture.now + 7200 * 1000)).
Proof. split; [discriminate | vm_compute; reflexivity]. Qed.

(** ** Token lifecycle: refresh before expiry *)

Section RefreshWindow.

Variable env : Env.

Lemma refreshAccessToken_posts (c : Credentials) (rt p : string) (w : World) :
  posts (snd (Auth.refreshAccessToken env c rt p w)) = S (posts w).
Proof.
  unfold Auth.refreshAccessToken, bind, Auth.post_token.
  destruct (token_endpoint env _ _ _) as [m|m|data]; try reflexivity.
  destruct (Js.truthy (r_error data)); [reflexivity|].
  destruct (negb _ || negb _); [reflexivity|].
  unfold Auth.Date_now. rewrite saveToken_eq. cbv zeta.
  destruct (mkdir_error env _) as [[? ?]|]; [reflexivity|].
  destruct (write_error env _) as [[? ?]|]; [|reflexivity].
  unfold after_failed_write. destruct (write_torn env _) as [[? ?]|]; reflexivity.
Qed.

(** C1, as the code has it. With credentials and a token record loaded,
    [getValidAccessToken] reads the clock once and sends the refresh
    request exactly when [expires_at < now + 5 minutes]: the trace grows by
    that one request to the token endpoint in that case and by nothing
    otherwise. Without a refresh it returns the [access_token] of the
    loaded record. With one, it returns the [access_token] of the answer,
    having written the new record over the file the old one came from,
    when the answer has no non-empty [error] and both tokens and the write
    goes through; in every other case (an [error], a token missing, no
    answer, a body that is not JSON, a write that is rejected) it throws
    that error and returns no token. *)
Theorem getValidAccessToken_refresh_window
    (w : World) (credentials : Credentials) (tokenPath : string)
    (tokenData : TokenData) :
  fst (Auth.loadCredentials env w) = Returned credentials ->
  fst (Auth.findTokenPath env w) = Returned (Some tokenPath) ->
  token_files w !! tokenPath = Some (Document tokenData) ->
  let near := expires_at tokenData <? clock env (ticks w) + 5 * 60 * 1000 in
  let request :=
    TokenPost ("Basic " ++ Encoding.base64 (client_id credentials ++ ":" ++
                                            client_secret credentials))
      [("grant_type", "refresh_token"); ("refresh_token", refresh_token tokenData)] in
  let answer :=
    token_endpoint env (posts w)
      ("Basic " ++ Encoding.base64 (client_id credentials ++ ":" ++
                                    client_secret credentials))
      [("grant_type", "refresh_token"); ("refresh_token", refresh_token tokenData)] in
  let result := Auth.getValidAccessToken env w in
  trace (snd result) = (trace w ++ (if near then [request] else []))%list
  /\ posts (snd result) = (if near then S (posts w) else posts w)
  /\ (near = false ->
      result = (Returned (access_token tokenData), with_ticks (S (ticks w)) w))
  /\ (near = true ->
      match answer with
      | NetworkFailure msg =>
          fst result = Thrown (Js.TypeError msg)
          /\ token_files (snd result) = token_files w
      | BodyNotJson msg =>
          fst result = Thrown (Js.SyntaxError msg)
          /\ token_files (snd result) = token_files w
      | JsonBody data =>
          if Js.truthy (r_error data) then
            fst result
            = Thrown (Js.Error ("Token refresh failed: " ++
                                Js.or_else (r_error_description data)
                                           (Js.to_string (r_error data))))
            /\ token_files (snd result) = token_files w
          else if negb (Js.truthy (r_access_token data))
                  || negb (Js.truthy (r_refresh_token data)) then
            fst result = Thrown (Js.Error "Invalid token response from Twitter")
            /\ token_files (snd result) = token_files w
          else
            match mkdir_error env (Path.dirname tokenPath) with
            | Some (code, msg) =>
                fst result = Thrown (Js.SystemError code msg)
                /\ token_files (snd result) = token_files w
            | None =>
                match write_error env tokenPath with
                | Some (code, msg) => fst result = Thrown (Js.SystemError code msg)
                | None =>
                    fst result = Returned (r_access_token data)
                    /\ token_files (snd result)
                       = <[tokenPath :=
                             Document
                               {| access_token := r_access_token data;
                                  refresh_token := Js.to_string (r_refresh_token data);
                                  expires_at :=
                                    clock env (S (ticks w))
                                    + Js.num_or_else (r_expires_in data) 7200 * 1000;
                                  scope := Js.or_else (r_scope data) Auth.SCOPES;
                                  token_type := Js.or_else (r_token_type data) "bearer" |}]>
                           (token_files w)
                end
            end
      end).
Proof.
  intros Hc Hf Hd near request answer result.
  destruct (getValidAccessToken_loaded env w credentials tokenPath tokenData Hc Hf Hd)
    as [Htrace Hget].
  cbv zeta in Htrace, Hget.
  change (expires_at tokenData <? clock env (ticks w) + 5 * 60 * 1000) with near
    in Htrace, Hget.
  change (Auth.getValidAccessToken env w) with result in Htrace, Hget.
  set (w1 := with_ticks (S (ticks w)) w) in *.
  assert (Hf1 : fst (Auth.findTokenPath env w1) = Returned (Some tokenPath)).
  { rewrite findTokenPath_eq in Hf |- *. exact Hf. }
  split; [exact Htrace|]. split; [|split].
  - rewrite Hget. destruct near; [|reflexivity]. cbn [snd].
    now rewrite refreshAccessToken_posts.
  - intros Hn. rewrite Hget, Hn. reflexivity.
  - intros Hn. rewrite Hget, Hn. cbn [fst snd].
    destruct answer as [msg|msg|data] eqn:Ha; subst answer.
    + unfold Auth.refreshAccessToken, bind, Auth.post_token, Auth.basic_auth.
      cbn [posts w1 with_ticks]. rewrite Ha. split; reflexivity.
    + unfold Auth.refreshAccessToken, bind, Auth.post_token, Auth.basic_auth.
      cbn [posts w1 with_ticks]. rewrite Ha. split; reflexivity.
    + rewrite (refreshAccessToken_eq env w1 credentials (refresh_token tokenData)
                 tokenPath data Hf1 Ha).
      cbv zeta.
      destruct (Js.truthy (r_error data)); [split; reflexivity|].
      destruct (negb (Js.truthy (r_access_token data))
                || negb (Js.truthy (r_refresh_token data))); [split; reflexivity|].
      destruct (mkdir_error env _) as [[? ?]|]; [split; reflexivity|].
      destruct (write_error env _) as [[? ?]|]; [reflexivity|].
      split; reflexivity.
Qed.

End RefreshWindow.

Lemma getValidAccessToken_refresh_window_witness :
  Auth.getValidAccessToken Fixture.env0
    (Fixture.world_with
       [(Fixture.project_path,
         Document (Fixture.token "T1" "R1" (Fixture.now + 6 * 60 * 1000)))])
  = (Returned (Some "T1"),
     with_ticks 1
       (Fixture.world_with
          [(Fixture.project_path,
            Document (Fixture.token "T1" "R1" (Fixture.now + 6 * 60 * 1000)))])).
Proof.
  apply (getValidAccessToken_refresh_window Fixture.env0
           (Fixture.world_with
              [(Fixture.project_path,
                Document (Fixture.token "T1" "R1" (Fixture.now + 6 * 60 * 1000)))])
           Fixture.credentials Fixture.project_path
           (Fixture.token "T1" "R1" (Fixture.now + 6 * 60 * 1000)));
    vm_compute; reflexivity.
Defined.

(** C1 as the specification words it fails on a token that has expired
    when the token endpoint refuses the refresh: a record is loaded, the
    refresh is triggered, and [getValidAccessToken] throws what the refresh
    throws; it returns no [access_token], neither the old one nor a new
    one. *)
Lemma refused_refresh_returns_no_token :
  fst (Auth.loadToken
         (Fixture.env_with
            (JsonBody (Fixture.response None None (Some "invalid_grant"))) (fun _ => []))
         Fixture.world_expired)
  = Returned (Fixture.token "T1" "R1" (Fixture.now - 1000))
  /\ fst (Auth.getValidAccessToken
            (Fixture.env_with
               (JsonBody (Fixture.response None None (Some "invalid_grant"))) (fun _ => []))
            Fixture.world_expired)
     = Thrown (Js.Error "Token refresh failed: invalid_grant")
  /\ trace (snd (Auth.getValidAccessToken
                   (Fixture.env_with
                      (JsonBody (Fixture.response None None (Some "invalid_grant")))
                      (fun _ => []))
                   Fixture.world_expired))
     = [Auth.refresh_request Fixture.credentials "R1"]
  /\ forall token,
       fst (Auth.getValidAccessToken
              (Fixture.env_with
                 (JsonBody (Fixture.response None None (Some "invalid_grant")))
                 (fun _ => []))
              Fixture.world_expired)
       <> Returned token.
Proof.
  assert (E : fst (Auth.getValidAccessToken
                     (Fixture.env_with
                        (JsonBody (Fixture.response None None (Some "invalid_grant")))
                        (fun _ => []))
                     Fixture.world_expired)
              = Thrown (Js.Error "Token refresh failed: invalid_grant"))
    by (vm_compute; reflexivity).
  split; [vm_compute; reflexivity|]. split; [exact E|].
  split; [vm_compute; reflexivity|].
  intros token H. rewrite E in H. discriminate.
Qed.

(** ** The local callback listener *)

Lemma with_trace_same (w : World) : with_trace (trace w) w = w.
Proof. destruct w; reflexivity. Qed.

Section Listener.

Lemma handleRequest_unparseable (state target : string) (w : World) :
  Auth.handleRequest state (Unparseable target) w
  = (Thrown (Js.TypeError "Invalid URL"), w).
Proof. reflexivity. Qed.

Lemma handleRequest_error (state : string) (query : list (string * string))
    (w : World) :
  Js.truthy (Js.searchParams_get "error" query) = true ->
  Auth.handleRequest state (Parsed query) w =
  (Returned (Auth.Rejected
     (Js.Error (Js.to_string (Js.searchParams_get "error" query) ++ ": " ++
                Js.or_else (Js.searchParams_get "error_description" query) EmptyString))),
   with_trace
     (trace w ++
      [Reply 400 ("<h1>Error: " ++ Js.to_string (Js.searchParams_get "error" query) ++
                  "</h1><p>" ++
                  Js.or_else (Js.searchParams_get "error_description" query) EmptyString ++
                  "</p><p>You can close this window.</p>");
       ServerClose]) w).
Proof.
  intros H. unfold Auth.handleRequest, Auth.new_URL.
  unfold bind at 1. unfold ret at 1. cbv beta iota. rewrite H.
  unfold bind, emit, ret. simpl. now rewrite <- app_assoc.
Qed.

Lemma handleRequest_mismatch (state : string) (query : list (string * string))
    (w : World) :
  Js.truthy (Js.searchParams_get "error" query) = false ->
  Js.searchParams_get "state" query <> Some state ->
  Auth.handleRequest state (Parsed query) w =
  (Returned (Auth.Rejected (Js.Error "State mismatch - possible CSRF attack")),
   with_trace
     (trace w ++
      [Reply 400 ("<h1>Error: State mismatch</h1>" ++
                  "<p>Possible CSRF attack. You can close this window.</p>");
       ServerClose]) w).
Proof.
  intros He Hs. unfold Auth.handleRequest, Auth.new_URL.
  unfold bind at 1. unfold ret at 1. cbv beta iota. rewrite He.
  rewrite bool_decide_eq_false_2 by exact Hs.
  unfold bind, emit, ret. simpl. now rewrite <- app_assoc.
Qed.

Lemma handleRequest_code (state : string) (query : list (string * string))
    (w : World) :
  Js.truthy (Js.searchParams_get "error" query) = false ->
  Js.searchParams_get "state" query = Some state ->
  Js.truthy (Js.searchParams_get "code" query) = true ->
  Auth.handleRequest state (Parsed query) w =
  (Returned (Auth.Resolved (Js.to_string (Js.searchParams_get "code" query))),
   with_trace (trace w ++ [Reply 200 Auth.success_page; ServerClose]) w).
Proof.
  intros He Hs Hc. unfold Auth.handleRequest, Auth.new_URL.
  unfold bind at 1. unfold ret at 1. cbv beta iota. rewrite He, Hc.
  rewrite bool_decide_eq_true_2 by exact Hs.
  unfold bind, emit, ret. simpl. now rewrite <- app_assoc.
Qed.

Lemma handleRequest_pending (state : string) (req_url : Target) (w : World) :
  Auth.left_pending state req_url = true ->
  Auth.handleRequest state req_url w =
  (Returned Auth.Pending, with_trace (trace w ++ [Reply 404 EmptyString]) w).
Proof.
  destruct req_url as [target|query]; [discriminate|].
  unfold Auth.left_pending. intros H.
  apply andb_prop in H as [H Hc]. apply andb_prop in H as [He Hs].
  apply negb_true_iff in He, Hc.
  unfold Auth.handleRequest, Auth.new_URL.
  unfold bind at 1. unfold ret at 1. cbv beta iota. rewrite He, Hc, Hs.
  unfold bind, emit, ret. reflexivity.
Qed.

(** A request whose target parses either is left pending, with the one
    404 reply, or tells the promise something, with one reply and the
    closing of the server. *)
Lemma handleRequest_cases (st : string) (q : list (string * string)) (w : World) :
  (Auth.left_pending st (Parsed q) = true
   /\ Auth.handleRequest st (Parsed q) w
      = (Returned Auth.Pending, with_trace (trace w ++ [Reply 404 EmptyString]) w))
  \/ (Auth.left_pending st (Parsed q) = false
      /\ exists told code html,
           told <> Auth.Pending
           /\ Auth.handleRequest st (Parsed q) w
              = (Returned told,
                 with_trace (trace w ++ [Reply code html; ServerClose]) w)).
Proof.
  unfold Auth.left_pending.
  destruct (Js.truthy (Js.searchParams_get "error" q)) eqn:He.
  { right. split; [reflexivity|]. do 3 eexists.
    split; [|apply handleRequest_error; exact He]. discriminate. }
  destruct (decide (Js.searchParams_get "state" q = Some st)) as [Hs|Hs].
  2:{ right. rewrite bool_decide_eq_false_2 by exact Hs. split; [reflexivity|].
      do 3 eexists. split; [|apply handleRequest_mismatch; assumption]. discriminate. }
  rewrite bool_decide_eq_true_2 by exact Hs.
  destruct (Js.truthy (Js.searchParams_get "code" q)) eqn:Hc.
  { right. split; [reflexivity|]. do 3 eexists.
    split; [|apply handleRequest_code; assumption]. discriminate. }
  left. split; [reflexivity|]. apply handleRequest_pending. unfold Auth.left_pending.
  rewrite He, Hc. now rewrite bool_decide_eq_true_2.
Qed.

Lemma uncaught_returned {A} (m : M A) (w w' : World) (a : A) :
  m w = (Returned a, w') -> uncaught m w = (Returned a, w').
Proof. unfold uncaught. now intros ->. Qed.

Lemma serve_nil (state : string) (w : World) :
  Auth.serve state [] w
  = (Thrown Auth.timeout_error, with_trace (trace w ++ [ServerClose]) w).
Proof. reflexivity. Qed.

Lemma serve_cons_pending (state : string) (req_url : Target) (later : list Target)
    (w : World) :
  Auth.left_pending state req_url = true ->
  Auth.serve state (req_url :: later) w
  = Auth.serve state later (with_trace (trace w ++ [Reply 404 EmptyString]) w).
Proof.
  intros H. cbn [Auth.serve]. unfold bind at 1.
  now rewrite (uncaught_returned _ _ _ _ (handleRequest_pending state req_url w H)).
Qed.

Lemma listener_cons_pending (state : string) (promise : Auth.Settlement)
    (req_url : Target) (later : list Target) (w : World) :
  Auth.left_pending state req_url = true ->
  Auth.listener state promise (req_url :: later) w
  = Auth.listener state promise later
      (with_trace (trace w ++ [Reply 404 EmptyString]) w).
Proof.
  intros H. cbn [Auth.listener]. unfold bind at 1.
  rewrite (uncaught_returned _ _ _ _ (handleRequest_pending state req_url w H)).
  now destruct promise.
Qed.

(** Requests left pending only add their 404 replies to the trace. *)
Lemma serve_pending (state : string) (earlier rest : list Target) (w : World) :
  forallb (Auth.left_pending state) earlier = true ->
  Auth.serve state (earlier ++ rest)%list w =
  Auth.serve state rest
    (with_trace (trace w ++ map (fun _ => Reply 404 EmptyString) earlier) w).
Proof.
  revert w. induction earlier as [|q earlier IH]; intros w H.
  - simpl. now rewrite app_nil_r, with_trace_same.
  - simpl in H. apply andb_prop in H as [Hq H].
    change ((q :: earlier) ++ rest)%list with (q :: (earlier ++ rest))%list.
    rewrite (serve_cons_pending state q _ w Hq).
    rewrite (IH _ H). simpl. now rewrite <- app_assoc.
Qed.


(** A promise that is settled stays as it is, whatever the listener
    still handles. *)
Lemma listener_settled (state : string) (promise : Auth.Settlement)
    (requests : list Target) (w : World) :
  promise <> Auth.Pending -> forallb is_parsed requests = true ->
  fst (Auth.listener state promise requests w) = Returned promise.
Proof.
  intros Hp. revert w. induction requests as [|[target|q] later IH]; intros w H.
  - cbn. now destruct promise.
  - discriminate.
  - cbn [forallb is_parsed] in H. cbn [Auth.listener]. unfold bind at 1.
    destruct (handleRequest_cases state q w)
      as [[_ E]|[_ (told & code & html & _ & E)]];
      rewrite (uncaught_returned _ _ _ _ E);
      replace (Auth.settle promise _) with promise by (now destruct promise);
      apply IH; exact H.
Qed.

End Listener.

(** ** The authorization flow, stage by stage *)

Section Flow.

Variable env : Env.

Lemma keeps_tokens_bind {A B} (m : M A) (k : A -> M B) :
  keeps_tokens m -> (forall a, keeps_tokens (k a)) -> keeps_tokens (bind m k).
Proof.
  intros Hm Hk w. unfold bind. specialize (Hm w).
  destruct (m w) as [[a|e|e] w1]; simpl in *; [|exact Hm|exact Hm].
  rewrite (Hk a w1). exact Hm.
Qed.

Lemma keeps_posts_bind {A B} (m : M A) (k : A -> M B) :
  keeps_posts m -> (forall a, keeps_posts (k a)) -> keeps_posts (bind m k).
Proof.
  intros Hm Hk w. unfold bind. specialize (Hm w).
  destruct (m w) as [[a|e|e] w1]; simpl in *; [|exact Hm|exact Hm].
  destruct (Hk a w1) as [-> ->]. exact Hm.
Qed.

Lemma keeps_tokens_try {A} (m : M A) (h : Js.Exn -> M A) :
  keeps_tokens m -> (forall e, keeps_tokens (h e)) -> keeps_tokens (try_catch m h).
Proof.
  intros Hm Hh w. unfold try_catch. specialize (Hm w).
  destruct (m w) as [[a|e|e] w1]; simpl in *; [exact Hm| |exact Hm].
  rewrite (Hh e w1). exact Hm.
Qed.

Lemma keeps_posts_try {A} (m : M A) (h : Js.Exn -> M A) :
  keeps_posts m -> (forall e, keeps_posts (h e)) -> keeps_posts (try_catch m h).
Proof.
  intros Hm Hh w. unfold try_catch. specialize (Hm w).
  destruct (m w) as [[a|e|e] w1]; simpl in *; [exact Hm| |exact Hm].
  destruct (Hh e w1) as [-> ->]. exact Hm.
Qed.

Lemma keeps_tokens_uncaught {A} (m : M A) : keeps_tokens m -> keeps_tokens (uncaught m).
Proof.
  intros Hm w. unfold uncaught. specialize (Hm w).
  destruct (m w) as [[a|e|e] w1]; exact Hm.
Qed.

Lemma keeps_tokens_ret {A} (a : A) : keeps_tokens (ret a).
Proof. intros w. reflexivity. Qed.
Lemma keeps_posts_ret {A} (a : A) : keeps_posts (ret a).
Proof. intros w. split; reflexivity. Qed.
Lemma keeps_tokens_throw {A} (e : Js.Exn) : keeps_tokens (@throw A e).
Proof. intros w. reflexivity. Qed.
Lemma keeps_posts_throw {A} (e : Js.Exn) : keeps_posts (@throw A e).
Proof. intros w. split; reflexivity. Qed.
Lemma keeps_tokens_crash {A} (e : Js.Exn) : keeps_tokens (@crash A e).
Proof. intros w. reflexivity. Qed.

Lemma keeps_tokens_loadCredentials : keeps_tokens (Auth.loadCredentials env).
Proof. intros w. now rewrite loadCredentials_world. Qed.
Lemma keeps_posts_loadCredentials : keeps_posts (Auth.loadCredentials env).
Proof. intros w. now rewrite loadCredentials_world. Qed.

Lemma keeps_tokens_mkdir (d : string) : keeps_tokens (Auth.fs_mkdir env d).
Proof. intros w. unfold Auth.fs_mkdir. destruct (mkdir_error env d) as [[? ?]|]; reflexivity. Qed.
Lemma keeps_posts_mkdir (d : string) : keeps_posts (Auth.fs_mkdir env d).
Proof.
  intros w. unfold Auth.fs_mkdir.
  destruct (mkdir_error env d) as [[? ?]|]; split; reflexivity.
Qed.

Lemma keeps_tokens_read_gitignore : keeps_tokens (Auth.read_gitignore env).
Proof. intros w. unfold Auth.read_gitignore. destruct (gitignore_file w) as [[|]|]; reflexivity. Qed.
Lemma keeps_posts_read_gitignore : keeps_posts (Auth.read_gitignore env).
Proof.
  intros w. unfold Auth.read_gitignore.
  destruct (gitignore_file w) as [[|]|]; split; reflexivity.
Qed.

Lemma keeps_tokens_write_gitignore (c : string) : keeps_tokens (Auth.write_gitignore env c).
Proof.
  intros w. unfold Auth.write_gitignore.
  destruct (write_error env _) as [[? ?]|]; [|reflexivity].
  destruct (write_torn env _) as [[? ?]|]; reflexivity.
Qed.
Lemma keeps_posts_write_gitignore (c : string) : keeps_posts (Auth.write_gitignore env c).
Proof.
  intros w. unfold Auth.write_gitignore.
  destruct (write_error env _) as [[? ?]|]; [|split; reflexivity].
  destruct (write_torn env _) as [[? ?]|]; split; reflexivity.
Qed.

Lemma keeps_tokens_randomBytes (n : nat) : keeps_tokens (Auth.randomBytes env n).
Proof. intros w. reflexivity. Qed.
Lemma keeps_posts_randomBytes (n : nat) : keeps_posts (Auth.randomBytes env n).
Proof. intros w. split; reflexivity. Qed.

Lemma keeps_tokens_emit (ev : Event) : keeps_tokens (emit ev).
Proof. intros w. reflexivity. Qed.

Create HintDb frame.
Hint Resolve keeps_tokens_ret keeps_posts_ret keeps_tokens_throw keeps_posts_throw
  keeps_tokens_crash keeps_tokens_loadCredentials keeps_posts_loadCredentials
  keeps_tokens_mkdir keeps_posts_mkdir
  keeps_tokens_read_gitignore keeps_posts_read_gitignore
  keeps_tokens_write_gitignore keeps_posts_write_gitignore
  keeps_tokens_randomBytes keeps_posts_randomBytes keeps_tokens_emit : frame.

Ltac frame :=
  repeat first
    [ solve [auto with frame]
    | apply keeps_tokens_uncaught
    | apply keeps_tokens_bind | apply keeps_posts_bind
    | apply keeps_tokens_try | apply keeps_posts_try
    | match goal with
      | |- forall _, keeps_tokens _ => intro
      | |- forall _, keeps_posts _ => intro
      end
    | match goal with
      | |- keeps_tokens (if ?b then _ else _) => destruct b
      | |- keeps_posts (if ?b then _ else _) => destruct b
      | |- keeps_tokens (match ?x with _ => _ end) => destruct x
      | |- keeps_posts (match ?x with _ => _ end) => destruct x
      end ].

Lemma keeps_tokens_ensureGitignore : keeps_tokens (Auth.ensureGitignore env).
Proof. unfold Auth.ensureGitignore. frame. Qed.
Lemma keeps_posts_ensureGitignore : keeps_posts (Auth.ensureGitignore env).
Proof. unfold Auth.ensureGitignore. frame. Qed.

Lemma keeps_tokens_generatePkce : keeps_tokens (Auth.generatePkce env).
Proof. unfold Auth.generatePkce, Auth.generateCodeVerifier, Auth.generateState. frame. Qed.
Lemma keeps_posts_generatePkce : keeps_posts (Auth.generatePkce env).
Proof. unfold Auth.generatePkce, Auth.generateCodeVerifier, Auth.generateState. frame. Qed.

Lemma keeps_tokens_prepareAuth (g : bool) : keeps_tokens (Auth.prepareAuth env g).
Proof.
  unfold Auth.prepareAuth.
  pose proof keeps_tokens_ensureGitignore. pose proof keeps_tokens_generatePkce.
  frame.
Qed.
Lemma keeps_posts_prepareAuth (g : bool) : keeps_posts (Auth.prepareAuth env g).
Proof.
  unfold Auth.prepareAuth.
  pose proof keeps_posts_ensureGitignore. pose proof keeps_posts_generatePkce.
  frame.
Qed.

Lemma keeps_tokens_handleRequest (st : string) (req_url : Target) :
  keeps_tokens (Auth.handleRequest st req_url).
Proof. unfold Auth.handleRequest, Auth.new_URL. frame. Qed.


Lemma keeps_tokens_listener (st : string) (promise : Auth.Settlement)
    (requests : list Target) :
  keeps_tokens (Auth.listener st promise requests).
Proof.
  revert promise. induction requests as [|q qs IH]; intros promise; cbn [Auth.listener].
  - unfold Auth.onTimeout. frame.
  - pose proof (keeps_tokens_handleRequest st q). frame.
Qed.


(** Once the port is taken and the launcher has not failed with an event,
    the requests are served. *)
Lemma awaitCallback_eq (st : string) (authUrl : list (string * string)) (w : World) :
  listen_error env = None -> browser_error_event env = false ->
  Auth.awaitCallback env st authUrl w =
  Auth.serve st (callback_requests env authUrl)
    (with_trace (trace w ++ [Listen; BrowserOpen authUrl]) w).
Proof.
  unfold browser_error_event. intros Hl Hb.
  unfold Auth.awaitCallback, Auth.listen, Auth.openBrowser. rewrite Hl.
  unfold bind, try_catch, emit, ret, throw.
  destruct (browser env); [| |discriminate]; simpl; now rewrite <- app_assoc.
Qed.

Lemma performAuth_eq (g : bool) (w : World) :
  Auth.performAuth env g w =
  match Auth.prepareAuth env g w with
  | (Returned (credentials, session), w1) =>
      match Auth.awaitCallback env (Auth.state session)
              (Auth.authorization_query credentials session) w1 with
      | (Returned code, w2) =>
          Auth.exchangeCode env credentials g code (Auth.code_verifier session) w2
      | (Thrown e, w2) => (Thrown e, w2)
      | (Crashed e, w2) => (Crashed e, w2)
      end
  | (Thrown e, w1) => (Thrown e, w1)
  | (Crashed e, w1) => (Crashed e, w1)
  end.
Proof.
  unfold Auth.performAuth, Auth.prepareAuth, bind.
  destruct (Auth.loadCredentials env w) as [[c|e|e] w0]; [|reflexivity|reflexivity].
  destruct (Auth.fs_mkdir env _ w0) as [[[]|e|e] w1]; [|reflexivity|reflexivity].
  destruct ((if negb g then Auth.ensureGitignore env else ret tt) w1) as [[[]|e|e] w2];
    [|reflexivity|reflexivity].
  destruct (Auth.generatePkce env w2) as [[s|e|e] w3]; reflexivity.
Qed.

(** A request that settles the promise with an error, after requests that
    left it pending, ends the flow there. *)
Lemma performAuth_rejected
    (g : bool) (w w1 : World) (credentials : Credentials) (session : Auth.PkceSession)
    (earlier later : list Target) (query : list (string * string))
    (e : Js.Exn) (reply : Event) :
  Auth.prepareAuth env g w = (Returned (credentials, session), w1) ->
  listen_error env = None -> browser_error_event env = false ->
  callback_requests env (Auth.authorization_query credentials session)
  = (earlier ++ Parsed query :: later)%list ->
  forallb (Auth.left_pending (Auth.state session)) earlier = true ->
  (forall w', Auth.handleRequest (Auth.state session) (Parsed query) w'
              = (Returned (Auth.Rejected e),
                 with_trace (trace w' ++ [reply; ServerClose]) w')) ->
  exists w2,
    Auth.performAuth env g w = (Thrown e, w2)
    /\ trace w2
       = (trace w ++ [Listen; BrowserOpen (Auth.authorization_query credentials session)]
          ++ map (fun _ => Reply 404 EmptyString) earlier
          ++ [reply; ServerClose])%list
    /\ posts w2 = posts w
    /\ token_files w2 = token_files w.
Proof.
  intros Hp Hl Hb Hq He Hh.
  destruct (keeps_posts_prepareAuth g w) as [Hposts Htrace].
  pose proof (keeps_tokens_prepareAuth g w) as Htok.
  rewrite Hp in Hposts, Htrace, Htok. simpl in Hposts, Htrace, Htok.
  rewrite performAuth_eq, Hp, (awaitCallback_eq _ _ _ Hl Hb), Hq,
    (serve_pending _ _ _ _ He).
  cbn [Auth.serve]. unfold bind at 1. rewrite (uncaught_returned _ _ _ _ (Hh _)).
  eexists. split; [reflexivity|]. simpl.
  rewrite Htrace, Hposts, Htok. repeat split.
  now rewrite <- !app_assoc.
Qed.

(** The same request, whenever it comes in the life of the listener: what
    it tells the promise is the promise's state from then on, unless the
    promise was settled before, and then it stays as it was. *)
Lemma listener_rejected
    (st : string) (promise : Auth.Settlement) (query : list (string * string))
    (rest : list Target) (e : Js.Exn) (reply : Event) (w : World) :
  (forall w', Auth.handleRequest st (Parsed query) w'
              = (Returned (Auth.Rejected e),
                 with_trace (trace w' ++ [reply; ServerClose]) w')) ->
  forallb is_parsed rest = true ->
  fst (Auth.listener st promise (Parsed query :: rest) w)
  = Returned (Auth.settle promise (Auth.Rejected e)).
Proof.
  intros Hh Hr. cbn [Auth.listener]. unfold bind at 1.
  rewrite (uncaught_returned _ _ _ _ (Hh _)).
  apply listener_settled; [|exact Hr]. now destruct promise.
Qed.

(** C4, as the code has it. A callback request with a non-empty [error]
    parameter, received while the promise is pending (every request before
    it was answered 404), makes [performAuth] throw
    [Error("<error>: <error_description or nothing>")]; the handler answers
    400 and closes the server, no request goes to the token endpoint and
    no token file changes, whatever requests follow. Received at another
    time, the request is answered the same way, and a promise that was
    settled before keeps its settlement. *)
Theorem callback_error_aborts
    (global : bool) (w w1 : World) (credentials : Credentials)
    (session : Auth.PkceSession)
    (earlier later : list Target)
    (query : list (string * string)) (err : string) :
  Auth.prepareAuth env global w = (Returned (credentials, session), w1) ->
  listen_error env = None ->
  browser_error_event env = false ->
  callback_requests env (Auth.authorization_query credentials session)
  = (earlier ++ Parsed query :: later)%list ->
  forallb (Auth.left_pending (Auth.state session)) earlier = true ->
  Js.searchParams_get "error" query = Some err ->
  err <> EmptyString ->
  let denied :=
    Js.Error (err ++ ": " ++
              Js.or_else (Js.searchParams_get "error_description" query) EmptyString) in
  let page :=
    "<h1>Error: " ++ err ++ "</h1><p>" ++
    Js.or_else (Js.searchParams_get "error_description" query) EmptyString ++
    "</p><p>You can close this window.</p>" in
  (exists w2,
     Auth.performAuth env global w = (Thrown denied, w2)
     /\ trace w2
        = (trace w ++ [Listen; BrowserOpen (Auth.authorization_query credentials session)]
           ++ map (fun _ => Reply 404 EmptyString) earlier
           ++ [Reply 400 page; ServerClose])%list
     /\ posts w2 = posts w
     /\ token_files w2 = token_files w)
  /\ (forall state w',
        Auth.handleRequest state (Parsed query) w'
        = (Returned (Auth.Rejected denied),
           with_trace (trace w' ++ [Reply 400 page; ServerClose]) w'))
  /\ (forall state promise rest w',
        forallb is_parsed rest = true ->
        fst (Auth.listener state promise (Parsed query :: rest) w')
        = Returned (Auth.settle promise (Auth.Rejected denied))).
Proof.
  intros Hp Hl Hb Hq He Herr Hne denied page.
  assert (Ht : Js.truthy (Js.searchParams_get "error" query) = true).
  { rewrite Herr. simpl. now destruct (String.eqb_spec err EmptyString). }
  assert (Hh : forall state w',
             Auth.handleRequest state (Parsed query) w'
             = (Returned (Auth.Rejected denied),
                with_trace (trace w' ++ [Reply 400 page; ServerClose]) w')).
  { intros state w'. rewrite (handleRequest_error _ _ _ Ht), Herr. reflexivity. }
  split; [|split].
  - eapply performAuth_rejected; eauto.
  - exact Hh.
  - intros state promise rest w' Hr. eapply listener_rejected; eauto.
Qed.

(** C2, as the code has it. A callback request whose target parses,
    without a non-empty [error] parameter and whose [state] is not the
    expected one (absent included), received while the promise is pending
    (every request before it was answered 404), makes [performAuth] throw
    the state-mismatch error, whatever [code] comes with it; the handler
    answers 400 and closes the server, and no request, with that code or
    any other, goes to the token endpoint, whatever requests follow.
    Received at another time, the request is answered the same way, and a
    promise that was settled before keeps its settlement. *)
Theorem state_mismatch_aborts
    (global : bool) (w w1 : World) (credentials : Credentials)
    (session : Auth.PkceSession)
    (earlier later : list Target)
    (query : list (string * string)) :
  Auth.prepareAuth env global w = (Returned (credentials, session), w1) ->
  listen_error env = None ->
  browser_error_event env = false ->
  callback_requests env (Auth.authorization_query credentials session)
  = (earlier ++ Parsed query :: later)%list ->
  forallb (Auth.left_pending (Auth.state session)) earlier = true ->
  Js.truthy (Js.searchParams_get "error" query) = false ->
  Js.searchParams_get "state" query <> Some (Auth.state session) ->
  let mismatch := Js.Error "State mismatch - possible CSRF attack" in
  let page :=
    "<h1>Error: State mismatch</h1>" ++
    "<p>Possible CSRF attack. You can close this window.</p>" in
  (exists w2,
     Auth.performAuth env global w = (Thrown mismatch, w2)
     /\ trace w2
        = (trace w ++ [Listen; BrowserOpen (Auth.authorization_query credentials session)]
           ++ map (fun _ => Reply 404 EmptyString) earlier
           ++ [Reply 400 page; ServerClose])%list
     /\ posts w2 = posts w
     /\ token_files w2 = token_files w)
  /\ (forall w',
        Auth.handleRequest (Auth.state session) (Parsed query) w'
        = (Returned (Auth.Rejected mismatch),
           with_trace (trace w' ++ [Reply 400 page; ServerClose]) w'))
  /\ (forall promise rest w',
        forallb is_parsed rest = true ->
        fst (Auth.listener (Auth.state session) promise (Parsed query :: rest) w')
        = Returned (Auth.settle promise (Auth.Rejected mismatch))).
Proof.
  intros Hp Hl Hb Hq He Herr Hs mismatch page.
  assert (Hh : forall w',
             Auth.handleRequest (Auth.state session) (Parsed query) w'
             = (Returned (Auth.Rejected mismatch),
                with_trace (trace w' ++ [Reply 400 page; ServerClose]) w')).
  { intros w'. now rewrite (handleRequest_mismatch _ _ _ Herr Hs). }
  split; [|split].
  - eapply performAuth_rejected; eauto.
  - exact Hh.
  - intros promise rest w' Hr. eapply listener_rejected; eauto.
Qed.

(** C8, as the code has it. The handler leaves the promise pending exactly
    for a request whose target parses and that has no non-empty [error],
    has the expected [state] and has no non-empty [code]; it answers such a
    request with an empty 404, and the listener goes on with the requests
    that follow, the promise being as it was. *)
Theorem unanswered_request_keeps_listening
    (state : string) (req_url : Target) (w : World) :
  (fst (Auth.handleRequest state req_url w) = Returned Auth.Pending
   <-> Auth.left_pending state req_url = true)
  /\ (Auth.left_pending state req_url = true ->
      Auth.handleRequest state req_url w
      = (Returned Auth.Pending, with_trace (trace w ++ [Reply 404 EmptyString]) w)
      /\ (forall later,
            Auth.serve state (req_url :: later) w
            = Auth.serve state later
                (with_trace (trace w ++ [Reply 404 EmptyString]) w))
      /\ (forall promise later,
            Auth.listener state promise (req_url :: later) w
            = Auth.listener state promise later
                (with_trace (trace w ++ [Reply 404 EmptyString]) w))).
Proof.
  split.
  - split.
    + intros H. destruct req_url as [target|query]; [discriminate H|].
      unfold Auth.left_pending.
      destruct (Js.truthy (Js.searchParams_get "error" query)) eqn:He.
      { rewrite handleRequest_error in H by exact He. discriminate. }
      destruct (bool_decide (Js.searchParams_get "state" query = Some state)) eqn:Hs.
      2:{ apply bool_decide_eq_false in Hs.
          rewrite handleRequest_mismatch in H by assumption. discriminate. }
      apply bool_decide_eq_true in Hs.
      destruct (Js.truthy (Js.searchParams_get "code" query)) eqn:Hc.
      { rewrite handleRequest_code in H by assumption. discriminate. }
      reflexivity.
    + intros H. now rewrite handleRequest_pending.
  - intros H. split; [now apply handleRequest_pending|]. split.
    + intros later. now apply serve_cons_pending.
    + intros promise later. now apply listener_cons_pending.
Qed.


End Flow.

(** ** The authorization flow on the fixture *)

Example performAuth_end_to_end :
  exists w',
    Auth.performAuth
      (Fixture.env_with Fixture.ok_response (Fixture.callback_with [("code", "AUTHCODE1")]))
      false Fixture.world_fresh = (Returned tt, w')
    /\ token_files w' !! Fixture.project_path
       = Some (Document (Fixture.token "T1" "R1" (Fixture.now + 7200000))).
Proof. eexists. split; vm_compute; reflexivity. Qed.

Lemma callback_error_aborts_witness :
  exists w2,
    Auth.performAuth
      (Fixture.env_with Fixture.ok_response
         (fun _ => [Parsed [("error", "access_denied");
                            ("error_description", "denied by user")]]))
      false Fixture.world_fresh
    = (Thrown (Js.Error "access_denied: denied by user"), w2)
    /\ posts w2 = 0%nat.
Proof.
  edestruct (callback_error_aborts
               (Fixture.env_with Fixture.ok_response
                  (fun _ => [Parsed [("error", "access_denied");
                                     ("error_description", "denied by user")]]))
               false Fixture.world_fresh)
    with (earlier := @nil Target) (later := @nil Target) (err := "access_denied")
    as [(w2 & H & _ & Hposts & _) _].
  - vm_compute. reflexivity.
  - reflexivity.
  - reflexivity.
  - reflexivity.
  - reflexivity.
  - reflexivity.
  - discriminate.
  - exists w2. split; [exact H | exact Hposts].
Defined.

(** C4 as the specification words it fails on a callback whose [error]
    parameter is there but empty: the handler goes on to the code, and the
    exchange request is made. It fails as well on a request with an
    [error] that comes after the code was accepted, on a connection the
    browser kept open: the listener answers it with 400, and the flow,
    settled before, goes on to the exchange and stores the tokens. And a
    request whose target is no URL ([//?error=access_denied], which has no
    host) ends the process by the [TypeError] of [new URL], which nobody
    catches: [performAuth] throws nothing. *)
Lemma empty_error_parameter_reaches_exchange :
  Js.searchParams_get "error" [("error", EmptyString); ("code", "AUTHCODE1")]
  = Some EmptyString
  /\ fst (Auth.performAuth
            (Fixture.env_with Fixture.ok_response
               (Fixture.callback_with [("error", EmptyString); ("code", "AUTHCODE1")]))
            false Fixture.world_fresh) = Returned tt
  /\ posts (snd (Auth.performAuth
            (Fixture.env_with Fixture.ok_response
               (Fixture.callback_with [("error", EmptyString); ("code", "AUTHCODE1")]))
            false Fixture.world_fresh)) = 1%nat
  /\ fst (Auth.performAuth
            (Fixture.env_with Fixture.ok_response
               (fun authUrl =>
                  (Fixture.callback_with [("code", "AUTHCODE1")] authUrl
                   ++ [Parsed [("error", "late")]])%list))
            false Fixture.world_fresh) = Returned tt
  /\ posts (snd (Auth.performAuth
            (Fixture.env_with Fixture.ok_response
               (fun authUrl =>
                  (Fixture.callback_with [("code", "AUTHCODE1")] authUrl
                   ++ [Parsed [("error", "late")]])%list))
            false Fixture.world_fresh)) = 1%nat
  /\ Auth.listener "202122232425262728292a2b2c2d2e2f" Auth.Pending
       [Parsed [("code", "AUTHCODE1"); ("state", "202122232425262728292a2b2c2d2e2f")];
        Parsed [("error", "late")]]
       Fixture.world_fresh
     = (Returned (Auth.Resolved "AUTHCODE1"),
        with_trace
          [Reply 200 Auth.success_page; ServerClose;
           Reply 400 "<h1>Error: late</h1><p></p><p>You can close this window.</p>";
           ServerClose;
           ServerClose]
          Fixture.world_fresh)
  /\ fst (Auth.performAuth
            (Fixture.env_with Fixture.ok_response
               (fun _ => [Unparseable "//?error=access_denied"]))
            false Fixture.world_fresh)
     = Crashed (Js.TypeError "Invalid URL").
Proof. repeat split; vm_compute; reflexivity. Qed.

Lemma state_mismatch_aborts_witness :
  exists w2,
    Auth.performAuth
      (Fixture.env_with Fixture.ok_response
         (fun _ => [Parsed [("code", "AUTHCODE1"); ("state", "forged")]]))
      false Fixture.world_fresh
    = (Thrown (Js.Error "State mismatch - possible CSRF attack"), w2)
    /\ posts w2 = 0%nat.
Proof.
  edestruct (state_mismatch_aborts
               (Fixture.env_with Fixture.ok_response
                  (fun _ => [Parsed [("code", "AUTHCODE1"); ("state", "forged")]]))
               false Fixture.world_fresh)
    with (earlier := @nil Target) (later := @nil Target)
    as [(w2 & H & _ & Hposts & _) _].
  - vm_compute. reflexivity.
  - reflexivity.
  - reflexivity.
  - reflexivity.
  - reflexivity.
  - reflexivity.
  - vm_compute. discriminate.
  - exists w2. split; [exact H | exact Hposts].
Defined.

(** C2 as the specification words it fails on a callback that has an
    [error] parameter besides the wrong [state]: the error is looked at
    first, and the flow fails with it, not with the state mismatch. It
    fails as well on a request with a wrong [state] that comes after the
    code was accepted, on a connection the browser kept open: the listener
    answers it with 400, and the flow, settled before, has gone on to the
    exchange. And a request whose target is no URL
    ([//?code=AUTHCODE1&state=forged], which has no host) ends the process
    by the [TypeError] of [new URL], which nobody catches: [performAuth]
    throws nothing. *)
Lemma wrong_state_with_error_is_denied :
  Js.searchParams_get "state" [("error", "access_denied"); ("state", "forged")]
  <> Some "202122232425262728292a2b2c2d2e2f"
  /\ (exists c s w1,
        Auth.prepareAuth
          (Fixture.env_with Fixture.ok_response
             (fun _ => [Parsed [("error", "access_denied"); ("state", "forged")]]))
          false Fixture.world_fresh = (Returned (c, s), w1)
        /\ Auth.state s = "202122232425262728292a2b2c2d2e2f")
  /\ fst (Auth.performAuth
            (Fixture.env_with Fixture.ok_response
               (fun _ => [Parsed [("error", "access_denied"); ("state", "forged")]]))
            false Fixture.world_fresh)
     = Thrown (Js.Error "access_denied: ")
  /\ Js.Error "access_denied: " <> Js.Error "State mismatch - possible CSRF attack"
  /\ fst (Auth.performAuth
            (Fixture.env_with Fixture.ok_response
               (fun authUrl =>
                  (Fixture.callback_with [("code", "AUTHCODE1")] authUrl
                   ++ [Parsed [("code", "AUTHCODE2"); ("state", "forged")]])%list))
            false Fixture.world_fresh) = Returned tt
  /\ Auth.listener "202122232425262728292a2b2c2d2e2f" Auth.Pending
       [Parsed [("code", "AUTHCODE1"); ("state", "202122232425262728292a2b2c2d2e2f")];
        Parsed [("code", "AUTHCODE2"); ("state", "forged")]]
       Fixture.world_fresh
     = (Returned (Auth.Resolved "AUTHCODE1"),
        with_trace
          [Reply 200 Auth.success_page; ServerClose;
           Reply 400 ("<h1>Error: State mismatch</h1>" ++
                      "<p>Possible CSRF attack. You can close this window.</p>");
           ServerClose;
           ServerClose]
          Fixture.world_fresh)
  /\ fst (Auth.performAuth
            (Fixture.env_with Fixture.ok_response
               (fun _ => [Unparseable "//?code=AUTHCODE1&state=forged"]))
            false Fixture.world_fresh)
     = Crashed (Js.TypeError "Invalid URL").
Proof.
  split; [vm_compute; discriminate|].
  split; [do 3 eexists; split; vm_compute; reflexivity|].
  split; [vm_compute; reflexivity|]. split; [discriminate|].
  repeat split; vm_compute; reflexivity.
Qed.

Lemma unanswered_request_keeps_listening_witness :
  Auth.handleRequest "st" (Parsed [("state", "st")]) Fixture.world_fresh
  = (Returned Auth.Pending,
     with_trace (trace Fixture.world_fresh ++ [Reply 404 EmptyString]) Fixture.world_fresh).
Proof.
  apply (unanswered_request_keeps_listening "st" (Parsed [("state", "st")])
           Fixture.world_fresh).
  reflexivity.
Defined.

(** C8 as the specification words it fails on a request that carries nothing at
    all, such as the one for the favicon: its [state] is not the expected
    one, so the handler answers 400, closes the server and rejects, and the
    callback that follows cannot resolve the flow any more. *)
Lemma bare_request_rejects :
  Js.searchParams_get "code" [] = None
  /\ Js.searchParams_get "error" [] = None
  /\ Js.searchParams_get "state" [] = None
  /\ fst (Auth.handleRequest "st" (Parsed []) Fixture.world_fresh)
     = Returned (Auth.Rejected (Js.Error "State mismatch - possible CSRF attack"))
  /\ trace (snd (Auth.handleRequest "st" (Parsed []) Fixture.world_fresh))
     = [Reply 400 ("<h1>Error: State mismatch</h1>" ++
                   "<p>Possible CSRF attack. You can close this window.</p>");
        ServerClose]
  /\ fst (Auth.performAuth
            (Fixture.env_with Fixture.ok_response
               (fun authUrl =>
                  (Parsed [] :: Fixture.callback_with [("code", "AUTHCODE1")] authUrl)%list))
            false Fixture.world_fresh)
     = Thrown (Js.Error "State mismatch - possible CSRF attack").
Proof. repeat split; vm_compute; reflexivity. Qed.



(** ** Authentication status *)

Section Status.

Variable env : Env.

Lemma loadToken_world (w : World) : snd (Auth.loadToken env w) = w.
Proof.
  unfold Auth.loadToken, bind. rewrite findTokenPath_eq.
  destruct (token_files w !! Auth.getProjectTokenPath env) as [f|] eqn:Hp.
  - unfold Auth.read_token_json. rewrite Hp. now destruct f.
  - destruct (token_files w !! Auth.getGlobalTokenPath env) as [f|] eqn:Hg.
    + unfold Auth.read_token_json. rewrite Hg. now destruct f.
    + reflexivity.
Qed.

Lemma loadToken_alive (w : World) (e : Js.Exn) :
  fst (Auth.loadToken env w) <> Crashed e.
Proof.
  unfold Auth.loadToken, bind. rewrite findTokenPath_eq.
  destruct (token_files w !! Auth.getProjectTokenPath env) as [f|] eqn:Hp.
  - unfold Auth.read_token_json. rewrite Hp. now destruct f.
  - destruct (token_files w !! Auth.getGlobalTokenPath env) as [f|] eqn:Hg.
    + unfold Auth.read_token_json. rewrite Hg. now destruct f.
    + discriminate.
Qed.

(** C9. [checkAuth] always returns. When [loadToken] returns a record,
    the status has [authenticated] true exactly when [expires_at] is not
    less than the clock reading, and [expiresAt] is that [expires_at];
    when [loadToken] throws, for whatever reason, the status has
    [authenticated] false and the message of what was thrown. Loading a
    token never ends the process. *)
Theorem checkAuth_never_throws (w : World) :
  exists status,
    fst (Auth.checkAuth env w) = Returned status
    /\ match fst (Auth.loadToken env w) with
       | Returned tokenData =>
           Auth.authenticated status
           = negb (expires_at tokenData <? clock env (ticks w))
           /\ Auth.expiresAt status = Some (expires_at tokenData)
           /\ Auth.error status = None
       | Thrown e =>
           Auth.authenticated status = false
           /\ Auth.expiresAt status = None
           /\ Auth.error status = Some (Js.message e)
       | Crashed _ => False
       end
    /\ (Auth.authenticated status = true
        <-> exists tokenData,
              fst (Auth.loadToken env w) = Returned tokenData
              /\ ~ expires_at tokenData < clock env (ticks w)).
Proof.
  unfold Auth.checkAuth, try_catch, bind.
  pose proof (loadToken_world w) as Hw.
  pose proof (loadToken_alive w) as Ha.
  destruct (Auth.loadToken env w) as [[t|e|e] w'] eqn:El; simpl in Hw; subst w'.
  - unfold Auth.Date_now, ret. simpl.
    eexists. split; [reflexivity|]. simpl. split; [auto|].
    split.
    + intros H. exists t. split; [reflexivity|].
      apply negb_true_iff, Z.ltb_ge in H. lia.
    + intros (t' & [= <-] & H). apply negb_true_iff, Z.ltb_ge. lia.
  - unfold ret. simpl. eexists. split; [reflexivity|]. simpl. split; [auto|].
    split; [discriminate|]. intros (t' & H & _). discriminate.
  - destruct (Ha e eq_refl).
Qed.

End Status.

Example checkAuth_without_token :
  fst (Auth.checkAuth Fixture.env0 Fixture.world_fresh)
  = Returned
      {| Auth.authenticated := false;
         Auth.expiresAt := None;
         Auth.error := Some (Auth.token_not_found_message Fixture.env0) |}.
Proof. vm_compute. reflexivity. Qed.

Example checkAuth_malformed_file :
  fst (Auth.checkAuth Fixture.env0
         (Fixture.world_with [(Fixture.project_path, Malformed "Unexpected token")]))
  = Returned
      {| Auth.authenticated := false;
         Auth.expiresAt := None;
         Auth.error := Some "Unexpected token" |}.
Proof. vm_compute. reflexivity. Qed.

Example checkAuth_expiring_now :
  fst (Auth.checkAuth Fixture.env0
         (Fixture.world_with
            [(Fixture.project_path, Document (Fixture.token "T1" "R1" Fixture.now))]))
  = Returned
      {| Auth.authenticated := true;
         Auth.expiresAt := Some Fixture.now;
         Auth.error := None |}.
Proof. vm_compute. reflexivity. Qed.

(** ** The users lookup *)

Section Users.

Variable env : Env.

(** C10. [getUsersByIds] returns the empty list for no ids, and throws
    "Maximum 100 user IDs per request" for more than a hundred; in both
    cases the process state is what it was: no token is read or
    refreshed and no request is made. *)
Theorem getUsersByIds_guards (w : World) (userIds : list string) :
  Twitter.getUsersByIds env [] w = (Returned [], w)
  /\ ((100 < length userIds)%nat ->
      Twitter.getUsersByIds env userIds w
      = (Thrown (Js.Error "Maximum 100 user IDs per request"), w)).
Proof.
  split; [reflexivity|].
  intros H. unfold Twitter.getUsersByIds.
  destruct (Nat.eqb_spec (length userIds) 0) as [E|_]; [lia|].
  destruct (Nat.ltb_spec 100 (length userIds)) as [_|E]; [reflexivity | lia].
Qed.

End Users.

Lemma getUsersByIds_guards_witness :
  Twitter.getUsersByIds Fixture.env0 (repeat "12" 101) Fixture.world_expired
  = (Thrown (Js.Error "Maximum 100 user IDs per request"), Fixture.world_expired).
Proof.
  apply (getUsersByIds_guards Fixture.env0 Fixture.world_expired (repeat "12" 101)).
  rewrite repeat_length. lia.
Defined.

Example getUsersByIds_two_ids_ask_the_api :
  trace (snd (Twitter.getUsersByIds Fixture.env0 (repeat "12" 2)
                (Fixture.world_with
                   [(Fixture.project_path,
                     Document (Fixture.token "T1" "R1" (Fixture.now + 7200000)))])))
  = [ApiGet ("https://api.twitter.com/2/users?ids=12,12&user.fields=" ++
             "id,name,username,created_at,description,location," ++
             "profile_image_url,protected,verified,verified_type,url,public_metrics")
       "Bearer T1"].
Proof. vm_compute. reflexivity. Qed.

(** ** The encodings are injective *)

Section EncodingFacts.

Import Encoding.

Lemma digit_url_inj (b5 b4 b3 b2 b1 b0 c5 c4 c3 c2 c1 c0 : bool) :
  digit alphabet_url b5 b4 b3 b2 b1 b0 = digit alphabet_url c5 c4 c3 c2 c1 c0 ->
  [b5; b4; b3; b2; b1; b0] = [c5; c4; c3; c2; c1; c0].
Proof.
  destruct b5, b4, b3, b2, b1, b0, c5, c4, c3, c2, c1, c0;
    intros H; first [reflexivity | discriminate H].
Qed.

Lemma hex_digit_inj (b3 b2 b1 b0 c3 c2 c1 c0 : bool) :
  hex_digit b3 b2 b1 b0 = hex_digit c3 c2 c1 c0 ->
  [b3; b2; b1; b0] = [c3; c2; c1; c0].
Proof.
  destruct b3, b2, b1, b0, c3, c2, c1, c0;
    intros H; first [reflexivity | discriminate H].
Qed.

Lemma hex_inj (s1 s2 : string) : hex s1 = hex s2 -> s1 = s2.
Proof.
  revert s2. induction s1 as [|[a0 a1 a2 a3 a4 a5 a6 a7] s1 IH];
    intros [|[c0 c1 c2 c3 c4 c5 c6 c7] s2] H; try discriminate H; [reflexivity|].
  cbn [hex] in H. injection H as Hhi Hlo Hrest.
  apply hex_digit_inj in Hhi, Hlo.
  injection Hhi as -> -> -> ->. injection Hlo as -> -> -> ->.
  now rewrite (IH s2 Hrest).
Qed.

Lemma hex_length (s : string) : String.length (hex s) = (2 * String.length s)%nat.
Proof.
  induction s as [|[a0 a1 a2 a3 a4 a5 a6 a7] s IH]; [reflexivity|].
  cbn [hex String.length]. rewrite IH. lia.
Qed.

Lemma bits_of_inj (s1 s2 : string) : bits_of s1 = bits_of s2 -> s1 = s2.
Proof.
  revert s2. induction s1 as [|[a0 a1 a2 a3 a4 a5 a6 a7] s1 IH];
    intros [|[c0 c1 c2 c3 c4 c5 c6 c7] s2] H; try discriminate H; [reflexivity|].
  cbn in H. injection H as -> -> -> -> -> -> -> -> Hrest.
  now rewrite (IH s2 Hrest).
Qed.

Lemma bits_of_length (s : string) : length (bits_of s) = (8 * String.length s)%nat.
Proof.
  induction s as [|[a0 a1 a2 a3 a4 a5 a6 a7] s IH]; [reflexivity|].
  cbn [bits_of bits_of_byte String.length]. rewrite length_app, IH. simpl. lia.
Qed.

Lemma digits_url_inj (n : nat) (bits1 bits2 : list bool) :
  (length bits1 <= n)%nat -> length bits1 = length bits2 ->
  digits alphabet_url bits1 = digits alphabet_url bits2 -> bits1 = bits2.
Proof.
  revert bits1 bits2. induction n as [|n IH]; intros bits1 bits2 Hn Hlen H.
  - destruct bits1; [|simpl in Hn; lia]. destruct bits2; [reflexivity | discriminate Hlen].
  - destruct bits1 as [|a5 [|a4 [|a3 [|a2 [|a1 [|a0 rest1]]]]]];
    destruct bits2 as [|c5 [|c4 [|c3 [|c2 [|c1 [|c0 rest2]]]]]];
      try discriminate Hlen; try reflexivity;
      cbn [digits] in H; injection H; intros;
      match goal with
      | Hd : digit _ _ _ _ _ _ _ = digit _ _ _ _ _ _ _ |- _ =>
          apply digit_url_inj in Hd; injection Hd as; subst
      end; try reflexivity.
    do 6 f_equal.
    apply IH; [simpl in Hn; lia | simpl in Hlen; lia | assumption].
Qed.

Lemma base64url_inj (s1 s2 : string) :
  String.length s1 = String.length s2 ->
  base64url s1 = base64url s2 -> s1 = s2.
Proof.
  intros Hlen H. apply bits_of_inj.
  apply (digits_url_inj (length (bits_of s1))); [lia | | exact H].
  rewrite !bits_of_length. lia.
Qed.

Lemma digits_length (alphabet : string) (n : nat) (bits : list bool) :
  (length bits <= n)%nat ->
  String.length (digits alphabet bits) = ((length bits + 5) / 6)%nat.
Proof.
  assert (E : forall k, ((6 + k + 5) / 6 = S ((k + 5) / 6))%nat).
  { intros k. replace (6 + k + 5)%nat with ((k + 5) + 1 * 6)%nat by lia.
    rewrite Nat.div_add by lia. lia. }
  revert bits. induction n as [|n IH]; intros bits Hn.
  - destruct bits; [reflexivity | simpl in Hn; lia].
  - destruct bits as [|a5 [|a4 [|a3 [|a2 [|a1 [|a0 rest]]]]]]; try reflexivity.
    cbn [digits String.length]. rewrite IH by (simpl in Hn; lia).
    symmetry. exact (E (length rest)).
Qed.

Lemma base64url_length (s : string) :
  String.length (base64url s) = ((8 * String.length s + 5) / 6)%nat.
Proof.
  unfold base64url. rewrite (digits_length _ (length (bits_of s))) by lia.
  now rewrite bits_of_length.
Qed.

End EncodingFacts.

(** ** PKCE sessions *)

Section Pkce.

Variable env : Env.

Lemma entropy_bytes_length (n from : nat) :
  String.length (Auth.entropy_bytes env n from) = n.
Proof.
  revert from. induction n as [|n IH]; intros from; [reflexivity|].
  cbn [Auth.entropy_bytes String.length]. now rewrite IH.
Qed.

Lemma generatePkce_eq (w : World) :
  Auth.generatePkce env w =
  (Returned
     {| Auth.code_verifier :=
          Encoding.base64url (Auth.entropy_bytes env 32 (drawn w));
        Auth.code_challenge :=
          Encoding.base64url
            (sha256 env (Encoding.base64url (Auth.entropy_bytes env 32 (drawn w))));
        Auth.state := Encoding.hex (Auth.entropy_bytes env 16 (drawn w + 32)) |},
   with_drawn (drawn w + 32 + 16) w).
Proof. reflexivity. Qed.

(** X24. Every session [performAuth] generates has as [code_verifier] the
    unpadded base64url text (43 characters) of the next 32 bytes of the
    entropy source, as [code_challenge] the base64url text of the SHA-256
    digest of that verifier, and as [state] the hexadecimal text (32
    characters) of the 16 bytes that follow: a session takes 48 bytes
    that no session before it took. The encodings lose nothing: two
    sessions have the same verifier exactly when the entropy source gave
    the same 32 bytes for both, and the same state exactly when it gave
    the same 16 bytes for both. *)
Theorem pkce_session_generated (w : World) :
  exists session,
    Auth.generatePkce env w = (Returned session, with_drawn (drawn w + 48) w)
    /\ Auth.code_verifier session
       = Encoding.base64url (Auth.entropy_bytes env 32 (drawn w))
    /\ String.length (Auth.code_verifier session) = 43%nat
    /\ Auth.code_challenge session
       = Encoding.base64url (sha256 env (Auth.code_verifier session))
    /\ Auth.state session = Encoding.hex (Auth.entropy_bytes env 16 (drawn w + 32))
    /\ String.length (Auth.state session) = 32%nat
    /\ forall w' session',
         fst (Auth.generatePkce env w') = Returned session' ->
         (Auth.code_verifier session = Auth.code_verifier session'
          <-> Auth.entropy_bytes env 32 (drawn w)
              = Auth.entropy_bytes env 32 (drawn w'))
         /\ (Auth.state session = Auth.state session'
             <-> Auth.entropy_bytes env 16 (drawn w + 32)
                 = Auth.entropy_bytes env 16 (drawn w' + 32)).
Proof.
  eexists. rewrite generatePkce_eq. split.
  { f_equal. f_equal. lia. }
  cbn [Auth.code_verifier Auth.code_challenge Auth.state].
  split; [reflexivity|]. split.
  { now rewrite base64url_length, entropy_bytes_length. }
  split; [reflexivity|]. split; [reflexivity|]. split.
  { now rewrite hex_length, entropy_bytes_length. }
  intros w' session' H. rewrite generatePkce_eq in H. cbn [fst] in H.
  set (s' := Auth.mkPkceSession _ _ _) in H.
  assert (session' = s') as -> by congruence.
  unfold s'. cbn [Auth.code_verifier Auth.state]. split; split.
  - apply base64url_inj. now rewrite !entropy_bytes_length.
  - now intros ->.
  - apply hex_inj.
  - now intros ->.
Qed.

End Pkce.

Example pkce_on_fixture :
  fst (Auth.generatePkce Fixture.env0 Fixture.world_fresh)
  = Returned
      {| Auth.code_verifier := "AAECAwQFBgcICQoLDA0ODxAREhMUFRYXGBkaGxwdHh8";
         Auth.code_challenge :=
           Encoding.base64url "AAECAwQFBgcICQoLDA0ODxAREhMUFRYXGBkaGxwdHh8";
         Auth.state := "202122232425262728292a2b2c2d2e2f" |}.
Proof. vm_compute. reflexivity. Qed.

Lemma pkce_session_generated_witness :
  exists s1 s2,
    fst (Auth.generatePkce Fixture.env0 Fixture.world_fresh) = Returned s1
    /\ fst (Auth.generatePkce Fixture.env0 (with_drawn 48 Fixture.world_fresh))
       = Returned s2
    /\ Auth.code_verifier s1 <> Auth.code_verifier s2
    /\ Auth.state s1 <> Auth.state s2.
Proof.
  destruct (pkce_session_generated Fixture.env0 Fixture.world_fresh)
    as (s1 & H1 & _ & _ & _ & _ & _ & Hnext).
  destruct (pkce_session_generated Fixture.env0 (with_drawn 48 Fixture.world_fresh))
    as (s2 & H2 & _).
  exists s1, s2.
  split; [now rewrite H1|]. split; [now rewrite H2|].
  destruct (Hnext (with_drawn 48 Fixture.world_fresh) s2) as [[Hv _] [Hs _]];
    [now rewrite H2|].
  split; intros E; [apply Hv in E | apply Hs in E]; vm_compute in E; discriminate E.
Defined.

(** ** The five-minute window on the fixture *)

Example expiring_in_four_minutes_refreshes :
  Auth.getValidAccessToken Fixture.env0
    (Fixture.world_with
       [(Fixture.project_path,
         Document (Fixture.token "T1" "R1" (Fixture.now + 4 * 60 * 1000)))])
  = (Returned (Some "T2"),
     {| token_files :=
          list_to_map
            [(Fixture.project_path,
              Document (Fixture.token "T2" "R2" (Fixture.now + 7200 * 1000)))];
        credentials_file := Some (Document Fixture.credentials_doc);
        gitignore_file := None;
        ticks := 2; drawn := 0; posts := 1; calls := 0;
        trace := [Auth.refresh_request Fixture.credentials "R1"] |}).
Proof. vm_compute. reflexivity. Qed.

Example expiring_in_six_minutes_does_not_refresh :
  trace (snd (Auth.getValidAccessToken Fixture.env0
                (Fixture.world_with
                   [(Fixture.project_path,
                     Document (Fixture.token "T1" "R1" (Fixture.now + 6 * 60 * 1000)))])))
  = [].
Proof. vm_compute. reflexivity. Qed.

Example expiring_in_five_minutes_does_not_refresh :
  trace (snd (Auth.getValidAccessToken Fixture.env0
                (Fixture.world_with
                   [(Fixture.project_path,
                     Document (Fixture.token "T1" "R1" (Fixture.now + 5 * 60 * 1000)))])))
  = [].
Proof. vm_compute. reflexivity. Qed.

Example refresh_writes_back_to_the_global_file :
  token_files
    (snd (Auth.getValidAccessToken Fixture.env0
            (Fixture.world_with
               [(Fixture.global_path,
                 Document (Fixture.token "T1" "R1" (Fixture.now - 1000)))])))
  = list_to_map
      [(Fixture.global_path,
        Document (Fixture.token "T2" "R2" (Fixture.now + 7200 * 1000)))].
Proof. vm_compute. reflexivity. Qed.

(** * Further properties of the code *)

(** ** Saving and loading tokens *)

Section SaveLoad.

Variable env : Env.

Lemma saveToken_returned (t : TokenData) (g : bool) (w : World) :
  fst (Auth.saveToken env t g w) = Returned tt ->
  snd (Auth.saveToken env t g w)
  = with_token_files
      (<[(if g then Auth.getGlobalTokenPath env else Auth.getProjectTokenPath env)
         := Document t]> (token_files w)) w.
Proof.
  rewrite saveToken_eq. cbv zeta.
  destruct (mkdir_error env _) as [[? ?]|]; [discriminate|].
  destruct (write_error env _) as [[? ?]|]; [discriminate|]. reflexivity.
Qed.

Lemma loadToken_eq (w : World) :
  Auth.loadToken env w =
  match token_files w !! Auth.getProjectTokenPath env with
  | Some _ => Auth.read_token_json (Auth.getProjectTokenPath env) w
  | None =>
      match token_files w !! Auth.getGlobalTokenPath env with
      | Some _ => Auth.read_token_json (Auth.getGlobalTokenPath env) w
      | None => (Thrown (Js.Error (Auth.token_not_found_message env)), w)
      end
  end.
Proof.
  unfold Auth.loadToken, bind. rewrite findTokenPath_eq.
  destruct (token_files w !! Auth.getProjectTokenPath env); [reflexivity|].
  destruct (token_files w !! Auth.getGlobalTokenPath env); reflexivity.
Qed.

(** X1. A token saved to the project scope is the one loaded next. A
    token saved to the global scope is the one loaded next only when the
    project has no token file; when it has one, the global save does not
    show: loading gives what it gave before. *)
Theorem saved_token_is_loaded_unless_shadowed
    (t : TokenData) (g : bool) (w : World) :
  fst (Auth.saveToken env t g w) = Returned tt ->
  (g = false \/ token_files w !! Auth.getProjectTokenPath env = None ->
   Auth.loadToken env (snd (Auth.saveToken env t g w))
   = (Returned t, snd (Auth.saveToken env t g w)))
  /\ (g = true -> is_Some (token_files w !! Auth.getProjectTokenPath env) ->
      fst (Auth.loadToken env (snd (Auth.saveToken env t g w)))
      = fst (Auth.loadToken env w)).
Proof.
  intros Hs. rewrite (saveToken_returned t g w Hs). split.
  - intros H. rewrite loadToken_eq. simpl. destruct g.
    + destruct H as [H|H]; [discriminate|].
      rewrite lookup_insert_ne
        by (intros E; exact (token_paths_distinct env (eq_sym E))).
      rewrite H, lookup_insert_eq.
      unfold Auth.read_token_json. simpl. now rewrite lookup_insert_eq.
    + rewrite lookup_insert_eq.
      unfold Auth.read_token_json. simpl. now rewrite lookup_insert_eq.
  - intros -> [f Hf]. rewrite !loadToken_eq. simpl.
    rewrite lookup_insert_ne
      by (intros E; exact (token_paths_distinct env (eq_sym E))).
    rewrite Hf. unfold Auth.read_token_json. simpl.
    rewrite lookup_insert_ne
      by (intros E; exact (token_paths_distinct env (eq_sym E))).
    rewrite Hf. now destruct f.
Qed.

(** X2. Saving a token to one scope leaves the file of the other scope
    as it is, whether or not the save goes through. A save that fails at
    [mkdir], or at [writeFile] before the file is opened, leaves every
    file as it was. A save that fails at [writeFile] once the file is open
    leaves that file torn, so that no token can be read from it any more,
    and everything else as it was. *)
Theorem saveToken_leaves_the_other_scope (t : TokenData) (g : bool) (w : World) :
  let p := if g then Auth.getGlobalTokenPath env else Auth.getProjectTokenPath env in
  let other := if g then Auth.getProjectTokenPath env else Auth.getGlobalTokenPath env in
  token_files (snd (Auth.saveToken env t g w)) !! other = token_files w !! other
  /\ (forall e, fst (Auth.saveToken env t g w) = Thrown e ->
      (mkdir_error env (Path.dirname p) <> None \/ write_torn env p = None ->
       snd (Auth.saveToken env t g w) = w)
      /\ (forall n msg,
            mkdir_error env (Path.dirname p) = None -> write_torn env p = Some (n, msg) ->
            snd (Auth.saveToken env t g w)
            = with_token_files (<[p := Malformed msg]> (token_files w)) w
            /\ Auth.read_token_json p (snd (Auth.saveToken env t g w))
               = (Thrown (Js.SyntaxError msg), snd (Auth.saveToken env t g w))))
  /\ (forall e, fst (Auth.saveToken env t g w) <> Crashed e).
Proof.
  intros p other. rewrite saveToken_eq. cbv zeta. fold p.
  assert (Hother : forall f, (<[p := f]> (token_files w)) !! other = token_files w !! other).
  { intros f. subst p other. destruct g; apply lookup_insert_ne.
    - intros E. exact (token_paths_distinct env (eq_sym E)).
    - exact (token_paths_distinct env). }
  destruct (mkdir_error env _) as [[? ?]|].
  { split; [reflexivity|]. split; [|discriminate]. intros e _. split; [reflexivity|].
    intros n msg H. discriminate H. }
  destruct (write_error env _) as [[? ?]|].
  - unfold after_failed_write.
    destruct (write_torn env p) as [[n0 m0]|]; cbn [snd fst].
    + split; [apply Hother|]. split; [|discriminate]. intros e _. split.
      * intros [H|H]; [now destruct H | discriminate H].
      * intros n msg _ [= -> ->]. split; [reflexivity|].
        unfold Auth.read_token_json. cbn [token_files with_token_files].
        now rewrite lookup_insert_eq.
    + split; [reflexivity|]. split; [|discriminate]. intros e _. split; [reflexivity|].
      intros n msg _ H. discriminate H.
  - cbn [snd fst]. split; [apply Hother|]. split; discriminate.
Qed.

(** X3. [loadCredentials] changes nothing. The credentials it returns
    have a non-empty id and a non-empty secret; a credentials file with both
    fields non-empty wins over 1Password; and what it throws is the "No
    credentials found" error and nothing else, whatever is wrong with the
    file. *)
Theorem loadCredentials_sources (w : World) :
  snd (Auth.loadCredentials env w) = w
  /\ (forall c, fst (Auth.loadCredentials env w) = Returned c ->
      client_id c <> EmptyString /\ client_secret c <> EmptyString)
  /\ (forall i s,
        credentials_file w = Some (Document (mkCredentialsDoc (Some i) (Some s))) ->
        i <> EmptyString -> s <> EmptyString ->
        fst (Auth.loadCredentials env w) = Returned (mkCredentials i s))
  /\ (forall e, fst (Auth.loadCredentials env w) = Thrown e ->
      e = Js.Error (Auth.no_credentials_message env)).
Proof.
  split; [apply loadCredentials_world|].
  unfold Auth.loadCredentials, bind, try_catch, Auth.read_credentials_json, ret, throw,
    Auth.is1PasswordAvailable, Auth.loadCredentialsFrom1Password,
    Auth.readFrom1Password, Js.truthy.
  split; [|split].
  - intros c.
    destruct (credentials_file w) as [[| |[[i|] [s|]]]|]; simpl;
      repeat match goal with
        | |- context [String.eqb ?a EmptyString] =>
            destruct (String.eqb_spec a EmptyString); simpl
        | |- context [if op_version_ok env then _ else _] =>
            destruct (op_version_ok env); simpl
        | |- context [match op_read env ?r with _ => _ end] =>
            destruct (op_read env r); simpl
        end;
      intros H; try discriminate H; injection H as <-; simpl; auto.
  - intros i s -> Hi Hs. simpl.
    destruct (String.eqb_spec i EmptyString); [contradiction|].
    destruct (String.eqb_spec s EmptyString); [contradiction|]. reflexivity.
  - intros e.
    destruct (credentials_file w) as [[| |[[i|] [s|]]]|]; simpl;
      repeat match goal with
        | |- context [String.eqb ?a EmptyString] =>
            destruct (String.eqb_spec a EmptyString); simpl
        | |- context [if op_version_ok env then _ else _] =>
            destruct (op_version_ok env); simpl
        | |- context [match op_read env ?r with _ => _ end] =>
            destruct (op_read env r); simpl
        end;
      intros H; try discriminate H; injection H as <-; reflexivity.
Qed.

End SaveLoad.

Lemma saved_token_is_loaded_unless_shadowed_witness :
  fst (Auth.loadToken Fixture.env0
         (snd (Auth.saveToken Fixture.env0 (Fixture.token "G" "RG" 0) true
                 Fixture.world_expired)))
  = fst (Auth.loadToken Fixture.env0 Fixture.world_expired).
Proof.
  apply (saved_token_is_loaded_unless_shadowed Fixture.env0
           (Fixture.token "G" "RG" 0) true Fixture.world_expired).
  - vm_compute. reflexivity.
  - reflexivity.
  - vm_compute. eexists. reflexivity.
Defined.

Lemma saveToken_leaves_the_other_scope_witness :
  Auth.read_token_json Fixture.project_path
    (snd (Auth.saveToken Scenario.env_disk_full (Fixture.token "T" "R" 0) false
            Fixture.world_expired))
  = (Thrown (Js.SyntaxError "Unexpected end of JSON input"),
     snd (Auth.saveToken Scenario.env_disk_full (Fixture.token "T" "R" 0) false
            Fixture.world_expired)).
Proof.
  destruct (saveToken_leaves_the_other_scope Scenario.env_disk_full
              (Fixture.token "T" "R" 0) false Fixture.world_expired) as (_ & H & _).
  destruct (H (Js.SystemError "ENOSPC" "ENOSPC: no space left on device, write"))
    as [_ Htorn]; [vm_compute; reflexivity|].
  apply (Htorn 0%nat "Unexpected end of JSON input"); reflexivity.
Defined.

Example save_on_a_read_only_disk :
  snd (Auth.saveToken Scenario.env_read_only (Fixture.token "T" "R" 0) false
         Fixture.world_expired)
  = Fixture.world_expired.
Proof. vm_compute. reflexivity. Qed.

Example save_on_a_full_disk :
  token_files
    (snd (Auth.saveToken Scenario.env_disk_full (Fixture.token "T" "R" 0) false
            Fixture.world_expired))
  = list_to_map [(Fixture.project_path, Malformed "Unexpected end of JSON input")].
Proof. vm_compute. reflexivity. Qed.

Lemma loadCredentials_sources_witness :
  fst (Auth.loadCredentials Scenario.env_1password Fixture.world_fresh)
  = Returned (mkCredentials "abc" "xyz").
Proof.
  apply (loadCredentials_sources Scenario.env_1password Fixture.world_fresh).
  - reflexivity.
  - discriminate.
  - discriminate.
Defined.

Example credentials_from_1password :
  fst (Auth.loadCredentials Scenario.env_1password Scenario.world_blank)
  = Returned (mkCredentials "op-id" "op-secret").
Proof. vm_compute. reflexivity. Qed.

(** ** The ignore-rules file *)

Lemma prefix_refl (a : string) : String.prefix a a = true.
Proof.
  induction a as [|c a IH]; [reflexivity|].
  cbn [String.prefix]. destruct (ascii_dec c c) as [_|N]; [exact IH | now destruct N].
Qed.

(** The handler of [ensureGitignore] looks at the error code only. *)
Lemma catch_enoent {T : Type} (err : Js.Exn) (create other : T) :
  match err with
  | Js.SystemError "ENOENT" _ => create
  | _ => other
  end
  = match err with
    | Js.SystemError code _ => if String.eqb code "ENOENT" then create else other
    | _ => other
    end.
Proof.
  destruct err as [m|code m|m|m]; try reflexivity.
  repeat match goal with
    | |- context [match ?x with _ => _ end] =>
        is_var x; destruct x; try reflexivity
    end.
Qed.

Section Gitignore.

Variable env : Env.

(** What [ensureGitignore] does, by what it finds. The text it looks at
    and adds to is the decoded one. A first write that is rejected with
    ENOENT is taken for a missing file, and the header is written in its
    place. *)
Lemma ensureGitignore_eq (w : World) :
  Auth.ensureGitignore env w =
  let header :=
    "# Twitter skill tokens (per-project auth)" ++ Auth.nl ++ Auth.pattern ++ Auth.nl in
  match gitignore_file w with
  | None => Auth.write_gitignore env header w
  | Some (TextUnreadable code msg) =>
      if String.eqb code "ENOENT" then Auth.write_gitignore env header w
      else (Thrown (Js.SystemError code msg), w)
  | Some (Text bytes) =>
      let content := Encoding.utf8_decode bytes in
      if Js.includes Auth.pattern content then (Returned tt, w)
      else
        let newContent :=
          if Js.endsWith Auth.nl content
          then content ++ Auth.nl ++ header
          else content ++ Auth.nl ++ Auth.nl ++ header in
        match write_error env (Auth.gitignorePath env) with
        | None => (Returned tt, with_gitignore (Some (Text newContent)) w)
        | Some (code, msg) =>
            if String.eqb code "ENOENT"
            then Auth.write_gitignore env header
                   (snd (Auth.write_gitignore env newContent w))
            else Auth.write_gitignore env newContent w
        end
  end.
Proof.
  unfold Auth.ensureGitignore, try_catch, bind, Auth.read_gitignore. cbv zeta.
  destruct (gitignore_file w) as [[code msg|bytes]|].
  - rewrite (catch_enoent (Js.SystemError code msg)).
    destruct (String.eqb code "ENOENT"); reflexivity.
  - destruct (Js.includes Auth.pattern (Encoding.utf8_decode bytes)); [reflexivity|].
    unfold Auth.write_gitignore at 1.
    destruct (write_error env (Auth.gitignorePath env)) as [[c m]|] eqn:E.
    + rewrite (catch_enoent (Js.SystemError c m)).
      destruct (String.eqb c "ENOENT"); unfold Auth.write_gitignore, throw;
        rewrite ?E; destruct (Js.endsWith Auth.nl (Encoding.utf8_decode bytes));
        reflexivity.
    + destruct (Js.endsWith Auth.nl (Encoding.utf8_decode bytes)); reflexivity.
  - reflexivity.
Qed.

Lemma write_gitignore_returned (content : string) (w : World) :
  fst (Auth.write_gitignore env content w) = Returned tt ->
  Auth.write_gitignore env content w
  = (Returned tt, with_gitignore (Some (Text content)) w).
Proof.
  unfold Auth.write_gitignore.
  destruct (write_error env _) as [[? ?]|]; [discriminate | auto].
Qed.

Lemma write_gitignore_rejected (content : string) (w : World) :
  write_error env (Auth.gitignorePath env) <> None ->
  fst (Auth.write_gitignore env content w) <> Returned tt.
Proof.
  unfold Auth.write_gitignore.
  destruct (write_error env _) as [[? ?]|]; [discriminate | contradiction].
Qed.

Lemma write_gitignore_frame (content : string) (w : World) :
  token_files (snd (Auth.write_gitignore env content w)) = token_files w
  /\ credentials_file (snd (Auth.write_gitignore env content w)) = credentials_file w.
Proof.
  unfold Auth.write_gitignore.
  destruct (write_error env _) as [[? ?]|]; [|split; reflexivity].
  destruct (write_torn env _) as [[? ?]|]; split; reflexivity.
Qed.

End Gitignore.

Section GitignoreProperties.

Variable env : Env.

Lemma header_includes_pattern (before : string) :
  Js.includes Auth.pattern
    (before ++ "# Twitter skill tokens (per-project auth)" ++ Auth.nl
     ++ Auth.pattern ++ Auth.nl) = true.
Proof.
  apply includes_app_l.
  apply (includes_app_l _ "# Twitter skill tokens (per-project auth)").
  apply (includes_app_l _ Auth.nl).
  apply includes_prefix, prefix_app.
Qed.

Lemma fresh_header_includes_pattern :
  Js.includes Auth.pattern
    ("# Twitter skill tokens (per-project auth)" ++ Auth.nl
     ++ Auth.pattern ++ Auth.nl) = true.
Proof. exact (header_includes_pattern EmptyString). Qed.

(** What [ensureGitignore] writes is read back as it was written: it is
    text that was decoded, and ASCII after it. *)
Lemma written_text_reads_back (content tail : string) :
  string_forallb ascii_char tail = true ->
  Encoding.utf8_decode (Encoding.utf8_decode content ++ tail)
  = Encoding.utf8_decode content ++ tail.
Proof.
  intros Ht. now rewrite utf8_decode_decoded, (utf8_decode_ascii tail Ht).
Qed.

(** X4. When [ensureGitignore] returns, the [.gitignore] of the project
    exists and its text, read the way [ensureGitignore] reads it, contains
    the pattern [.claude/*.local.*]; the text the file held before is still
    there, at its start, as it was read: decoded as UTF-8, ill-formed bytes
    replaced, which leaves well-formed text, ASCII for one, as it is; and
    running [ensureGitignore] again changes nothing. *)
Theorem ensureGitignore_adds_the_pattern_once (w : World) :
  fst (Auth.ensureGitignore env w) = Returned tt ->
  exists bytes,
    gitignore_file (snd (Auth.ensureGitignore env w)) = Some (Text bytes)
    /\ Js.includes Auth.pattern (Encoding.utf8_decode bytes) = true
    /\ (forall old, gitignore_file w = Some (Text old) ->
        String.prefix (Encoding.utf8_decode old) (Encoding.utf8_decode bytes) = true
        /\ (string_forallb ascii_char old = true ->
            String.prefix old bytes = true))
    /\ Auth.ensureGitignore env (snd (Auth.ensureGitignore env w))
       = (Returned tt, snd (Auth.ensureGitignore env w)).
Proof.
  assert (Hheader : string_forallb ascii_char
                      ("# Twitter skill tokens (per-project auth)" ++ Auth.nl
                       ++ Auth.pattern ++ Auth.nl) = true) by reflexivity.
  assert (Hfresh : forall w0,
    fst (Auth.write_gitignore env
           ("# Twitter skill tokens (per-project auth)" ++ Auth.nl
            ++ Auth.pattern ++ Auth.nl) w0) = Returned tt ->
    exists bytes,
      gitignore_file
        (snd (Auth.write_gitignore env
                ("# Twitter skill tokens (per-project auth)" ++ Auth.nl
                 ++ Auth.pattern ++ Auth.nl) w0)) = Some (Text bytes)
      /\ Js.includes Auth.pattern (Encoding.utf8_decode bytes) = true
      /\ Auth.ensureGitignore env
           (snd (Auth.write_gitignore env
                   ("# Twitter skill tokens (per-project auth)" ++ Auth.nl
                    ++ Auth.pattern ++ Auth.nl) w0))
         = (Returned tt,
            snd (Auth.write_gitignore env
                   ("# Twitter skill tokens (per-project auth)" ++ Auth.nl
                    ++ Auth.pattern ++ Auth.nl) w0))).
  { intros w0 Hr. rewrite (write_gitignore_returned env _ w0 Hr).
    cbn [snd gitignore_file with_gitignore].
    assert (Hd : Js.includes Auth.pattern
                   (Encoding.utf8_decode
                      ("# Twitter skill tokens (per-project auth)" ++ Auth.nl
                       ++ Auth.pattern ++ Auth.nl)) = true).
    { rewrite (utf8_decode_ascii _ Hheader). apply fresh_header_includes_pattern. }
    eexists. split; [reflexivity|]. split; [exact Hd|].
    rewrite ensureGitignore_eq. cbv zeta. cbn [gitignore_file with_gitignore].
    now rewrite Hd. }
  rewrite (ensureGitignore_eq env w). cbv zeta.
  destruct (gitignore_file w) as [[code msg|old]|] eqn:Hg.
  - destruct (String.eqb code "ENOENT"); [|discriminate]. intros Hr.
    destruct (Hfresh w Hr) as (bytes & H1 & H2 & H3).
    exists bytes. split; [exact H1|]. split; [exact H2|].
    split; [discriminate | exact H3].
  - destruct (Js.includes Auth.pattern (Encoding.utf8_decode old)) eqn:Hi.
    + intros _. exists old. cbn [snd]. split; [exact Hg|]. split; [exact Hi|]. split.
      * intros ? [= <-]. split; intros; apply prefix_refl.
      * rewrite ensureGitignore_eq. cbv zeta. now rewrite Hg, Hi.
    + destruct (write_error env (Auth.gitignorePath env)) as [[c m]|] eqn:Hw.
      { intros Hr. exfalso.
        assert (Hne : write_error env (Auth.gitignorePath env) <> None)
          by (rewrite Hw; discriminate).
        destruct (String.eqb c "ENOENT");
          exact (write_gitignore_rejected env _ _ Hne Hr). }
      intros _. cbn [snd].
      set (tail := if Js.endsWith Auth.nl (Encoding.utf8_decode old)
                   then Auth.nl ++ "# Twitter skill tokens (per-project auth)"
                        ++ Auth.nl ++ Auth.pattern ++ Auth.nl
                   else Auth.nl ++ Auth.nl
                        ++ "# Twitter skill tokens (per-project auth)"
                        ++ Auth.nl ++ Auth.pattern ++ Auth.nl).
      assert (Enew : (if Js.endsWith Auth.nl (Encoding.utf8_decode old)
                      then Encoding.utf8_decode old ++ Auth.nl
                           ++ "# Twitter skill tokens (per-project auth)"
                           ++ Auth.nl ++ Auth.pattern ++ Auth.nl
                      else Encoding.utf8_decode old ++ Auth.nl ++ Auth.nl
                           ++ "# Twitter skill tokens (per-project auth)"
                           ++ Auth.nl ++ Auth.pattern ++ Auth.nl)
                     = Encoding.utf8_decode old ++ tail).
      { unfold tail. destruct (Js.endsWith Auth.nl (Encoding.utf8_decode old));
          reflexivity. }
      rewrite Enew.
      assert (Htail : string_forallb ascii_char tail = true).
      { unfold tail. destruct (Js.endsWith Auth.nl (Encoding.utf8_decode old));
          reflexivity. }
      assert (Hinc : Js.includes Auth.pattern (Encoding.utf8_decode old ++ tail) = true).
      { apply includes_app_l. unfold tail.
        destruct (Js.endsWith Auth.nl (Encoding.utf8_decode old)).
        - apply (header_includes_pattern Auth.nl).
        - apply (includes_app_l _ Auth.nl). apply (header_includes_pattern Auth.nl). }
      eexists. split; [reflexivity|].
      rewrite (written_text_reads_back old tail Htail).
      split; [exact Hinc|]. split.
      * intros ? [= <-]. split; [apply prefix_app|].
        intros Ha. rewrite (utf8_decode_ascii old Ha). apply prefix_app.
      * rewrite ensureGitignore_eq. cbv zeta. cbn [gitignore_file with_gitignore].
        rewrite (written_text_reads_back old tail Htail). now rewrite Hinc.
  - intros Hr.
    destruct (Hfresh w Hr) as (bytes & H1 & H2 & H3).
    exists bytes. split; [exact H1|]. split; [exact H2|].
    split; [discriminate | exact H3].
Qed.

(** X5. [ensureGitignore] writes only when it has to. A [.gitignore]
    that already contains the pattern is left as it is, and one that cannot
    be read for another reason than ENOENT is not replaced: the read error
    is thrown on and nothing is written. In no case does [ensureGitignore]
    touch a token file or the credentials. *)
Theorem ensureGitignore_writes_only_when_needed (w : World) :
  (forall old, gitignore_file w = Some (Text old) ->
     Js.includes Auth.pattern old = true ->
     Auth.ensureGitignore env w = (Returned tt, w))
  /\ (forall code msg, gitignore_file w = Some (TextUnreadable code msg) ->
        code <> "ENOENT" ->
        Auth.ensureGitignore env w = (Thrown (Js.SystemError code msg), w))
  /\ token_files (snd (Auth.ensureGitignore env w)) = token_files w
  /\ credentials_file (snd (Auth.ensureGitignore env w)) = credentials_file w.
Proof.
  rewrite (ensureGitignore_eq env w). cbv zeta. split; [|split].
  - intros old -> Hi.
    rewrite (includes_utf8_decode Auth.pattern old); [reflexivity | reflexivity | | exact Hi].
    discriminate.
  - intros code msg -> Hc.
    destruct (String.eqb_spec code "ENOENT"); [contradiction | reflexivity].
  - assert (F : forall c w0,
               token_files (snd (Auth.write_gitignore env c w0)) = token_files w0
               /\ credentials_file (snd (Auth.write_gitignore env c w0))
                  = credentials_file w0) by (intros; apply write_gitignore_frame).
    assert (F2 : forall c c' w0,
               token_files (snd (Auth.write_gitignore env c
                                   (snd (Auth.write_gitignore env c' w0))))
               = token_files w0
               /\ credentials_file (snd (Auth.write_gitignore env c
                                           (snd (Auth.write_gitignore env c' w0))))
                  = credentials_file w0).
    { intros c c' w0. destruct (F c (snd (Auth.write_gitignore env c' w0))) as [-> ->].
      apply F. }
    destruct (gitignore_file w) as [[code msg|old]|].
    + destruct (String.eqb code "ENOENT"); [apply F | split; reflexivity].
    + destruct (Js.includes Auth.pattern (Encoding.utf8_decode old));
        [split; reflexivity|].
      destruct (write_error env (Auth.gitignorePath env)) as [[c m]|];
        [|split; reflexivity].
      destruct (String.eqb c "ENOENT"); [apply F2 | apply F].
    + apply F.
Qed.

End GitignoreProperties.

Lemma ensureGitignore_adds_the_pattern_once_witness :
  exists bytes,
    gitignore_file
      (snd (Auth.ensureGitignore Fixture.env0
              (with_gitignore (Some (Text "node_modules")) Fixture.world_fresh)))
    = Some (Text bytes)
    /\ Js.includes Auth.pattern (Encoding.utf8_decode bytes) = true.
Proof.
  destruct (ensureGitignore_adds_the_pattern_once Fixture.env0
              (with_gitignore (Some (Text "node_modules")) Fixture.world_fresh))
    as (bytes & H1 & H2 & _).
  - vm_compute. reflexivity.
  - exists bytes. split; [exact H1 | exact H2].
Defined.

Lemma ensureGitignore_writes_only_when_needed_witness :
  Auth.ensureGitignore Fixture.env0
    (with_gitignore (Some (TextUnreadable "EACCES" "permission denied"))
       Fixture.world_fresh)
  = (Thrown (Js.SystemError "EACCES" "permission denied"),
     with_gitignore (Some (TextUnreadable "EACCES" "permission denied"))
       Fixture.world_fresh).
Proof.
  apply (ensureGitignore_writes_only_when_needed Fixture.env0
           (with_gitignore (Some (TextUnreadable "EACCES" "permission denied"))
              Fixture.world_fresh)).
  - reflexivity.
  - discriminate.
Defined.

Example gitignore_appended_after_blank_line :
  gitignore_file
    (snd (Auth.ensureGitignore Fixture.env0
            (with_gitignore (Some (Text "node_modules")) Fixture.world_fresh)))
  = Some (Text ("node_modules" ++ Auth.nl ++ Auth.nl ++
                "# Twitter skill tokens (per-project auth)" ++ Auth.nl ++
                ".claude/*.local.*" ++ Auth.nl)).
Proof. vm_compute. reflexivity. Qed.

(** A byte that is no UTF-8 (here E9, Latin-1 for an accented e) is not
    written back: U+FFFD takes its place. *)
Example gitignore_with_a_latin1_byte :
  gitignore_file
    (snd (Auth.ensureGitignore Fixture.env0
            (with_gitignore (Some (Text ("caf" ++ String (ascii_of_nat 233) EmptyString)))
               Fixture.world_fresh)))
  = Some (Text ("caf" ++ Encoding.REPLACEMENT ++ Auth.nl ++ Auth.nl ++
                "# Twitter skill tokens (per-project auth)" ++ Auth.nl ++
                ".claude/*.local.*" ++ Auth.nl)).
Proof. vm_compute. reflexivity. Qed.

(** ** Where the files are *)

Section Locations.

Variable env : Env.

Lemma GLOBAL_CONFIG_DIR_shape :
  Auth.GLOBAL_CONFIG_DIR env <> EmptyString
  /\ Path.ends_with_separator (Auth.GLOBAL_CONFIG_DIR env) = false.
Proof.
  apply (Path_join_not_ending_with_separator
           [Js.or_else (xdg_config_home env) (Path.join [homedir env; ".config"])]).
  reflexivity.
Qed.

(** X6. The directory [saveToken] and [performAuth] create before they
    write is the one that holds the token file: [path.join] of the working
    directory and [.claude] for the project token, and for the global token
    the global configuration directory, which is also the directory of
    [credentials.json]. *)
Theorem token_directories :
  Path.dirname (Auth.getProjectTokenPath env)
  = Path.join [cwd env; Auth.PROJECT_TOKEN_DIR]
  /\ Path.dirname (Auth.getGlobalTokenPath env) = Auth.GLOBAL_CONFIG_DIR env
  /\ Path.dirname (Auth.CREDENTIALS_PATH env) = Auth.GLOBAL_CONFIG_DIR env.
Proof.
  destruct GLOBAL_CONFIG_DIR_shape as [Hg1 Hg2].
  destruct (Path_join_not_ending_with_separator [cwd env] Auth.PROJECT_TOKEN_DIR)
    as [Hp1 Hp2]; [reflexivity|].
  rewrite getProjectTokenPath_eq, getGlobalTokenPath_eq, CREDENTIALS_PATH_eq.
  repeat split; apply dirname_snoc;
    first [assumption | discriminate | reflexivity].
Qed.

(** X7. The project token file, the global token file, the credentials
    file and the project's [.gitignore] are four different paths, whatever
    the working directory, the home directory and [XDG_CONFIG_HOME] are: a
    write to one of them never lands on another. *)
Theorem file_locations_distinct :
  Auth.getProjectTokenPath env <> Auth.getGlobalTokenPath env
  /\ Auth.getProjectTokenPath env <> Auth.CREDENTIALS_PATH env
  /\ Auth.getGlobalTokenPath env <> Auth.CREDENTIALS_PATH env
  /\ Auth.gitignorePath env <> Auth.getProjectTokenPath env
  /\ Auth.gitignorePath env <> Auth.getGlobalTokenPath env
  /\ Auth.gitignorePath env <> Auth.CREDENTIALS_PATH env.
Proof.
  destruct (gitignorePath_eq env) as [d Hd].
  rewrite Hd, getProjectTokenPath_eq, getGlobalTokenPath_eq, CREDENTIALS_PATH_eq.
  repeat split; intros H.
  - change ("/" ++ Auth.PROJECT_TOKEN_FILE) with ("/twitter-skil" ++ "l.local.json") in H.
    rewrite <- string_app_assoc in H.
    apply string_app_suffix in H; [discriminate | reflexivity].
  - change ("/" ++ Auth.PROJECT_TOKEN_FILE)
      with ("/twitter-skill.loca" ++ "l.json") in H.
    change ("/" ++ "credentials.json") with ("/credential" ++ "s.json") in H.
    rewrite <- !string_app_assoc in H.
    apply string_app_suffix in H; [discriminate | reflexivity].
  - change ("/" ++ Auth.GLOBAL_TOKEN_FILE) with ("/toke" ++ "ns.json") in H.
    change ("/" ++ "credentials.json") with ("/credentia" ++ "ls.json") in H.
    rewrite <- !string_app_assoc in H.
    apply string_app_suffix in H; [discriminate | reflexivity].
  - change ("/" ++ Auth.PROJECT_TOKEN_FILE)
      with ("/twitter-skill." ++ "local.json") in H.
    rewrite <- !string_app_assoc in H.
    apply string_app_suffix in H; [discriminate | reflexivity].
  - change ("/" ++ Auth.GLOBAL_TOKEN_FILE) with ("/t" ++ "okens.json") in H.
    rewrite <- !string_app_assoc in H.
    apply string_app_suffix in H; [discriminate | reflexivity].
  - change ("/" ++ "credentials.json") with ("/creden" ++ "tials.json") in H.
    rewrite <- !string_app_assoc in H.
    apply string_app_suffix in H; [discriminate | reflexivity].
Qed.

End Locations.

Example directories_of_fixture :
  Path.dirname Fixture.project_path = "/work/.claude"
  /\ Path.dirname Fixture.global_path = "/home/u/.config/twitter-skill"
  /\ Path.dirname "/tokens.json" = "/"
  /\ Path.dirname "tokens.json" = ".".
Proof. repeat split; reflexivity. Qed.

(** [path.join] normalises what it is given: a working directory written
    with a trailing separator, or with [.] and [..] in it, gives the same
    token path as the plain one. *)
Example join_normalises :
  Path.join ["/work/"; ".claude"; "twitter-skill.local.json"]
  = "/work/.claude/twitter-skill.local.json"
  /\ Path.join ["/work/./sub/.."; ".claude"] = "/work/.claude"
  /\ Path.join ["/"; ".gitignore"] = "/.gitignore"
  /\ Path.join [".."; ".gitignore"] = "../.gitignore".
Proof. repeat split; reflexivity. Qed.

(** ** The listener, on every path *)

Lemma count_closes_app (a b : list Event) :
  count_closes (a ++ b) = (count_closes a + count_closes b)%nat.
Proof.
  induction a as [|ev a IH]; [reflexivity|].
  destruct ev; cbn [app count_closes]; rewrite IH; reflexivity.
Qed.

(** Up to the settlement of the promise the server is closed once, at the
    end. *)
Lemma serve_closes_once (st : string) (requests : list Target) (w : World) :
  forallb is_parsed requests = true ->
  exists events,
    trace (snd (Auth.serve st requests w)) = (trace w ++ events ++ [ServerClose])%list
    /\ count_closes events = 0%nat.
Proof.
  revert w. induction requests as [|[target|q] later IH]; intros w Hp.
  - exists []. split; reflexivity.
  - discriminate.
  - cbn [forallb is_parsed andb] in Hp. cbn [Auth.serve]. unfold bind at 1.
    destruct (handleRequest_cases st q w)
      as [[_ E]|[_ (told & code & html & Hne & E)]];
      rewrite (uncaught_returned _ _ _ _ E).
    + destruct (IH (with_trace (trace w ++ [Reply 404 EmptyString]) w) Hp)
        as (events & Ht & Hc).
      exists (Reply 404 EmptyString :: events). split; [|exact Hc].
      rewrite Ht. simpl. now rewrite <- app_assoc.
    + exists [Reply code html]. split; [|reflexivity].
      destruct told; [contradiction | |]; reflexivity.
Qed.

(** Over its whole life the listener closes the server once for every
    request it does not leave pending, and once when the timer fires. *)
Lemma listener_closes (st : string) (promise : Auth.Settlement)
    (requests : list Target) (w : World) :
  forallb is_parsed requests = true ->
  count_closes (trace (snd (Auth.listener st promise requests w)))
  = (count_closes (trace w)
     + length (List.filter (fun req_url => negb (Auth.left_pending st req_url)) requests)
     + 1)%nat.
Proof.
  revert promise w. induction requests as [|[target|q] later IH]; intros promise w Hp.
  - cbn. rewrite count_closes_app. cbn [count_closes]. lia.
  - discriminate.
  - cbn [forallb is_parsed andb] in Hp. cbn [Auth.listener List.filter].
    unfold bind at 1.
    destruct (handleRequest_cases st q w)
      as [[Hl E]|[Hl (told & code & html & Hne & E)]];
      rewrite (uncaught_returned _ _ _ _ E), Hl; cbn [negb];
      rewrite (IH _ _ Hp); cbn [trace with_trace length];
      rewrite count_closes_app; cbn [count_closes]; lia.
Qed.

Section ListenerPaths.

Variable env : Env.

(** X8. When the port is taken, the launcher of the browser does not
    fail with an ['error'] event and the targets of the requests parse, the
    listener of [performAuth] has closed the server exactly once when the
    promise is settled, whether by a code, an error, a wrong state or the
    five minutes, and closing it is the last thing it has done then. Over
    its whole life it closes the server more often: once for every request
    that it does not leave pending, sooner or later, and once when the
    timer fires, for the timer is never cleared. *)
Theorem listener_closes_exactly_once
    (st : string) (authUrl : list (string * string)) (w : World) :
  listen_error env = None -> browser_error_event env = false ->
  forallb is_parsed (callback_requests env authUrl) = true ->
  count_closes (trace (snd (Auth.awaitCallback env st authUrl w)))
  = S (count_closes (trace w))
  /\ (exists events,
        trace (snd (Auth.awaitCallback env st authUrl w))
        = (trace w ++ [Listen; BrowserOpen authUrl] ++ events ++ [ServerClose])%list)
  /\ forall promise w',
       count_closes
         (trace (snd (Auth.listener st promise (callback_requests env authUrl) w')))
       = (count_closes (trace w')
          + length (List.filter (fun req_url => negb (Auth.left_pending st req_url))
                      (callback_requests env authUrl))
          + 1)%nat.
Proof.
  intros Hl Hb Hp. rewrite (awaitCallback_eq env st authUrl w Hl Hb).
  destruct (serve_closes_once st (callback_requests env authUrl)
              (with_trace (trace w ++ [Listen; BrowserOpen authUrl]) w) Hp)
    as (events & Ht & Hc).
  rewrite Ht. cbn [trace with_trace]. split; [|split].
  - rewrite !count_closes_app, Hc. simpl. lia.
  - exists events. now rewrite <- !app_assoc.
  - intros promise w'. now apply listener_closes.
Qed.

(** X9. When every request that reaches the listener is left pending,
    none at all included, [performAuth] throws "Authentication timeout (5
    minutes)" after closing the server, provided the port could be taken
    and the launcher of the browser did not fail with an ['error'] event.
    When the port is in use, the ['error'] event of the server, which has
    no listener, ends the process with that error before the browser is
    opened; when the launcher fails with an ['error'] event, [xdg-open]
    missing for one, that event ends the process, for the [try] around
    [openBrowser] catches only what [spawn] throws. In all three cases no
    request has gone to the token endpoint and no token file has
    changed. *)
Theorem callback_timeout
    (global : bool) (w w1 : World) (credentials : Credentials)
    (session : Auth.PkceSession) :
  Auth.prepareAuth env global w = (Returned (credentials, session), w1) ->
  forallb (Auth.left_pending (Auth.state session))
    (callback_requests env (Auth.authorization_query credentials session)) = true ->
  exists w2,
    posts w2 = posts w
    /\ token_files w2 = token_files w
    /\ match listen_error env, browser env with
       | Some (code, message), _ =>
           Auth.performAuth env global w = (Crashed (Js.SystemError code message), w2)
           /\ trace w2 = (trace w ++ [Listen])%list
       | None, SpawnErrorEvent code message =>
           Auth.performAuth env global w = (Crashed (Js.SystemError code message), w2)
           /\ trace w2
              = (trace w ++
                 [Listen; BrowserOpen (Auth.authorization_query credentials session)])%list
       | None, _ =>
           Auth.performAuth env global w
           = (Thrown (Js.Error "Authentication timeout (5 minutes)"), w2)
           /\ trace w2
              = (trace w ++
                 [Listen; BrowserOpen (Auth.authorization_query credentials session)]
                 ++ map (fun _ => Reply 404 EmptyString)
                      (callback_requests env
                         (Auth.authorization_query credentials session))
                 ++ [ServerClose])%list
       end.
Proof.
  intros Hp He.
  destruct (keeps_posts_prepareAuth env global w) as [Hposts Htrace].
  pose proof (keeps_tokens_prepareAuth env global w) as Htok.
  rewrite Hp in Hposts, Htrace, Htok. simpl in Hposts, Htrace, Htok.
  rewrite performAuth_eq, Hp.
  destruct (listen_error env) as [[code message]|] eqn:Hl.
  { unfold Auth.awaitCallback, Auth.listen. rewrite Hl.
    unfold bind, emit, crash. cbn [fst snd].
    eexists. split; [|split; [|split; [reflexivity|]]];
      cbn [posts token_files trace with_trace]; congruence. }
  assert (Hserve : forall w',
    Auth.serve (Auth.state session)
      (callback_requests env (Auth.authorization_query credentials session)) w'
    = (Thrown (Js.Error "Authentication timeout (5 minutes)"),
       with_trace
         (trace w' ++
          map (fun _ => Reply 404 EmptyString)
            (callback_requests env (Auth.authorization_query credentials session))
          ++ [ServerClose]) w')).
  { intros w'. pose proof (serve_pending _ _ [] w' He) as Hs.
    rewrite app_nil_r in Hs. rewrite Hs, serve_nil.
    destruct w'; cbn [trace with_trace]. now rewrite <- app_assoc. }
  destruct (browser env) as [|e|code message] eqn:Hb.
  - rewrite (awaitCallback_eq env _ _ w1 Hl)
      by (unfold browser_error_event; now rewrite Hb).
    rewrite Hserve. eexists. split; [|split; [|split; [reflexivity|]]];
      cbn [posts token_files trace with_trace]; rewrite ?Htrace, <- ?app_assoc;
      first [congruence | reflexivity].
  - rewrite (awaitCallback_eq env _ _ w1 Hl)
      by (unfold browser_error_event; now rewrite Hb).
    rewrite Hserve. eexists. split; [|split; [|split; [reflexivity|]]];
      cbn [posts token_files trace with_trace]; rewrite ?Htrace, <- ?app_assoc;
      first [congruence | reflexivity].
  - unfold Auth.awaitCallback, Auth.listen, Auth.openBrowser. rewrite Hl, Hb.
    unfold bind, try_catch, emit, ret, crash. cbn [fst snd].
    eexists. split; [|split; [|split; [reflexivity|]]];
      cbn [posts token_files trace with_trace]; rewrite ?Htrace, <- ?app_assoc;
      first [congruence | reflexivity].
Qed.



End ListenerPaths.

Lemma listener_closes_exactly_once_witness :
  count_closes
    (trace (snd (Auth.awaitCallback
                   (Fixture.env_with Fixture.ok_response
                      (Fixture.callback_with [("code", "AUTHCODE1")]))
                   "st" [("state", "st")] Fixture.world_fresh)))
  = 1%nat.
Proof.
  apply (listener_closes_exactly_once
           (Fixture.env_with Fixture.ok_response
              (Fixture.callback_with [("code", "AUTHCODE1")]))
           "st" [("state", "st")] Fixture.world_fresh);
    reflexivity.
Defined.

Lemma callback_timeout_witness :
  exists w2,
    Auth.performAuth Fixture.env0 false Fixture.world_fresh
    = (Thrown (Js.Error "Authentication timeout (5 minutes)"), w2)
    /\ posts w2 = 0%nat.
Proof.
  edestruct (callback_timeout Fixture.env0 false Fixture.world_fresh)
    as (w2 & Hposts & _ & H & _).
  - vm_compute. reflexivity.
  - reflexivity.
  - exists w2. split; [exact H | exact Hposts].
Defined.

(** A code, then a request with a wrong state on a connection kept
    alive, then the timer: the server is closed three times, and the
    promise keeps the code. *)
Example late_requests_close_again :
  let requests :=
    [Parsed [("code", "AUTHCODE1"); ("state", "st")];
     Parsed [("code", "AUTHCODE2"); ("state", "other")]] in
  Auth.serve "st" requests Fixture.world_fresh
  = (Returned "AUTHCODE1",
     with_trace [Reply 200 Auth.success_page; ServerClose] Fixture.world_fresh)
  /\ fst (Auth.listener "st" Auth.Pending requests Fixture.world_fresh)
     = Returned (Auth.Resolved "AUTHCODE1")
  /\ count_closes
       (trace (snd (Auth.listener "st" Auth.Pending requests Fixture.world_fresh)))
     = 3%nat.
Proof. repeat split; reflexivity. Qed.

Example port_in_use_ends_the_process :
  fst (Auth.performAuth Scenario.env_port_taken false Fixture.world_fresh)
  = Crashed (Js.SystemError "EADDRINUSE"
               "listen EADDRINUSE: address already in use :::3000")
  /\ fst (Auth.performAuth Scenario.env_no_launcher false Fixture.world_fresh)
     = Crashed (Js.SystemError "ENOENT" "spawn xdg-open ENOENT")
  /\ fst (Auth.performAuth Scenario.env_spawn_throws false Fixture.world_fresh)
     = Thrown (Js.Error "Authentication timeout (5 minutes)").
Proof. repeat split; vm_compute; reflexivity. Qed.


(** ** The token lifecycle, composed *)

Section LifecycleComposed.

Variable env : Env.

Lemma loadCredentials_depends_on_file (w1 w2 : World) :
  credentials_file w1 = credentials_file w2 ->
  fst (Auth.loadCredentials env w1) = fst (Auth.loadCredentials env w2).
Proof.
  intros H.
  unfold Auth.loadCredentials, bind, try_catch, Auth.read_credentials_json, ret, throw.
  rewrite H.
  destruct (credentials_file w2) as [[| |[[i|] [s|]]]|]; simpl;
    repeat match goal with
      | |- context [if ?b then _ else _] => destruct b; simpl
      | |- context [match ?o with Some _ => _ | None => _ end] => destruct o; simpl
      end; reflexivity.
Qed.

(** A refresh that fails has either left the token files alone, or was
    stopped in the write, after the file had been opened and truncated. *)
Lemma refreshAccessToken_thrown (c : Credentials) (rt p : string) (w : World) :
  let target := if String.eqb p (Auth.getGlobalTokenPath env)
                then Auth.getGlobalTokenPath env else Auth.getProjectTokenPath env in
  (forall e, fst (Auth.refreshAccessToken env c rt p w) <> Crashed e)
  /\ (forall e, fst (Auth.refreshAccessToken env c rt p w) = Thrown e ->
      token_files (snd (Auth.refreshAccessToken env c rt p w)) = token_files w
      \/ (write_error env target <> None
          /\ exists n msg,
               write_torn env target = Some (n, msg)
               /\ token_files (snd (Auth.refreshAccessToken env c rt p w))
                  = <[target := Malformed msg]> (token_files w))).
Proof.
  intros target.
  unfold Auth.refreshAccessToken, bind, Auth.post_token.
  destruct (token_endpoint env _ _ _) as [m|m|data];
    try (split; [discriminate | left; reflexivity]).
  destruct (Js.truthy (r_error data)); [split; [discriminate | left; reflexivity]|].
  destruct (negb _ || negb _); [split; [discriminate | left; reflexivity]|].
  unfold Auth.Date_now. rewrite saveToken_eq. cbv zeta. fold target.
  destruct (mkdir_error env _) as [[? ?]|]; [split; [discriminate | left; reflexivity]|].
  destruct (write_error env target) as [[code msg]|] eqn:Hw;
    [|split; discriminate].
  split; [discriminate|]. intros e _. unfold after_failed_write. cbn [snd].
  destruct (write_torn env target) as [[n parse_msg]|]; [|left; reflexivity].
  right. split; [discriminate|]. exists n, parse_msg. split; reflexivity.
Qed.

Lemma loadToken_returned (w : World) (t : TokenData) :
  fst (Auth.loadToken env w) = Returned t ->
  exists p,
    fst (Auth.findTokenPath env w) = Returned (Some p)
    /\ token_files w !! p = Some (Document t).
Proof.
  rewrite loadToken_eq, findTokenPath_eq. unfold Auth.read_token_json.
  destruct (token_files w !! Auth.getProjectTokenPath env) as [[| |t1]|] eqn:Hp;
    try discriminate.
  - intros [= <-]. eexists. split; [reflexivity | exact Hp].
  - destruct (token_files w !! Auth.getGlobalTokenPath env) as [[| |t1]|] eqn:Hg;
      try discriminate.
    intros [= <-]. eexists. split; [reflexivity | exact Hg].
Qed.

Lemma getValidAccessToken_alive (w : World) (e : Js.Exn) :
  fst (Auth.getValidAccessToken env w) <> Crashed e.
Proof.
  pose proof (loadCredentials_alive env w) as Hc.
  unfold Auth.getValidAccessToken, bind.
  destruct (Auth.loadCredentials env w) as [[c|e0|e0] w0];
    [|discriminate | exfalso; exact (Hc e0 eq_refl)].
  rewrite findTokenPath_eq.
  destruct (token_files w0 !! Auth.getProjectTokenPath env) as [f|] eqn:Hp;
    [|destruct (token_files w0 !! Auth.getGlobalTokenPath env) as [f|] eqn:Hg;
      [|discriminate]];
    unfold Auth.read_token_json; rewrite ?Hp, ?Hg;
    (destruct f as [| |t]; try discriminate);
    unfold Auth.Date_now;
    (destruct (expires_at t <? clock env (ticks w0) + Auth.bufferMs);
     [|discriminate]);
    match goal with
    | |- context [Auth.refreshAccessToken env c ?rt ?p ?w1] =>
        destruct (refreshAccessToken_thrown c rt p w1) as [Ha _];
        destruct (Auth.refreshAccessToken env c rt p w1) as [[t'|e'|e'] w']
    end;
    first [discriminate | exfalso; exact (Ha e' eq_refl)].
Qed.

(** X11. A call of [getValidAccessToken] that throws has changed no
    token file, with one exception: when the write of the refreshed token
    is rejected after [fs.writeFile] has opened the file, the file is
    truncated, and the token file that was found holds what is left, which
    does not parse; the file of the other scope is as it was. The call
    never ends the process. And when there is no token file, neither in
    the project nor globally, it throws without having done anything: the
    process state is what it was, no request has been made. *)
Theorem getValidAccessToken_failure_is_harmless (w : World) :
  (forall e, fst (Auth.getValidAccessToken env w) = Thrown e ->
     token_files (snd (Auth.getValidAccessToken env w)) = token_files w
     \/ exists tokenPath n msg,
          fst (Auth.findTokenPath env w) = Returned (Some tokenPath)
          /\ write_error env tokenPath <> None
          /\ write_torn env tokenPath = Some (n, msg)
          /\ token_files (snd (Auth.getValidAccessToken env w))
             = <[tokenPath := Malformed msg]> (token_files w))
  /\ (forall e, fst (Auth.getValidAccessToken env w) <> Crashed e)
  /\ (token_files w !! Auth.getProjectTokenPath env = None ->
      token_files w !! Auth.getGlobalTokenPath env = None ->
      exists e, Auth.getValidAccessToken env w = (Thrown e, w)).
Proof.
  assert (Hfound : forall tokenPath,
            fst (Auth.findTokenPath env w) = Returned (Some tokenPath) ->
            forall f, token_files w !! tokenPath = Some f ->
            (forall e, fst (Auth.getValidAccessToken env w) = Thrown e ->
               token_files (snd (Auth.getValidAccessToken env w)) = token_files w
               \/ exists tokenPath n msg,
                    fst (Auth.findTokenPath env w) = Returned (Some tokenPath)
                    /\ write_error env tokenPath <> None
                    /\ write_torn env tokenPath = Some (n, msg)
                    /\ token_files (snd (Auth.getValidAccessToken env w))
                       = <[tokenPath := Malformed msg]> (token_files w))
            /\ (forall e, fst (Auth.getValidAccessToken env w) <> Crashed e)).
  { intros tokenPath Hf f Hd.
    destruct (found_path_cases env w tokenPath Hf) as [_ Htarget].
    pose proof (loadCredentials_world env w) as Hw.
    pose proof (loadCredentials_alive env w) as Hc.
    unfold Auth.getValidAccessToken, bind.
    destruct (Auth.loadCredentials env w) as [[c|e0|e0] w0] eqn:Hl;
      simpl in Hw; subst w0.
    2:{ split; [left; reflexivity | discriminate]. }
    2:{ exfalso. exact (Hc e0 eq_refl). }
    rewrite findTokenPath_eq in Hf |- *. simpl in Hf. injection Hf as Hf. rewrite Hf.
    unfold Auth.read_token_json. rewrite Hd.
    destruct f as [code msg|msg|t]; try (split; [left; reflexivity | discriminate]).
    unfold Auth.Date_now.
    destruct (expires_at t <? clock env (ticks w) + Auth.bufferMs);
      [|split; discriminate].
    pose proof (refreshAccessToken_thrown c (refresh_token t) tokenPath
                  (with_ticks (S (ticks w)) w)) as Hr.
    cbv zeta in Hr. rewrite Htarget in Hr. destruct Hr as [Halive Hr].
    destruct (Auth.refreshAccessToken env c (refresh_token t) tokenPath
                (with_ticks (S (ticks w)) w)) as [[t'|e'|e'] w'].
    - split; discriminate.
    - split; [|discriminate]. intros e _. cbn [fst snd] in Hr |- *.
      destruct (Hr e' eq_refl) as [H|(Hw & n & msg & Ht & H)]; [left; exact H|].
      right. exists tokenPath, n, msg. repeat split; assumption.
    - exfalso. exact (Halive e' eq_refl). }
  destruct (token_files w !! Auth.getProjectTokenPath env) as [f|] eqn:Hp.
  { destruct (Hfound (Auth.getProjectTokenPath env)) with (f := f) as [H1 H2];
      [rewrite findTokenPath_eq, Hp; reflexivity | exact Hp |].
    split; [exact H1|]. split; [exact H2 | discriminate]. }
  destruct (token_files w !! Auth.getGlobalTokenPath env) as [f|] eqn:Hg.
  { destruct (Hfound (Auth.getGlobalTokenPath env)) with (f := f) as [H1 H2];
      [rewrite findTokenPath_eq, Hp, Hg; reflexivity | exact Hg |].
    split; [exact H1|]. split; [exact H2 | discriminate]. }
  assert (E : exists e, Auth.getValidAccessToken env w = (Thrown e, w)).
  { pose proof (loadCredentials_world env w) as Hw.
    pose proof (loadCredentials_alive env w) as Hc.
    unfold Auth.getValidAccessToken, bind.
    destruct (Auth.loadCredentials env w) as [[c|e0|e0] w0] eqn:Hl;
      simpl in Hw; subst w0.
    - rewrite findTokenPath_eq, Hp, Hg. eexists. reflexivity.
    - eexists. reflexivity.
    - exfalso. exact (Hc e0 eq_refl). }
  destruct E as [e E]. rewrite E. cbn [fst snd].
  split; [left; reflexivity|]. split; [discriminate|]. intros _ _. now exists e.
Qed.

(** X12. [checkAuth] only looks: it leaves the token files and the
    credentials as they are and makes no request, also when the token has
    expired. A token it reports as expired is one that [getValidAccessToken],
    run in the same state, sends to be refreshed. *)
Theorem checkAuth_only_looks (w : World) :
  token_files (snd (Auth.checkAuth env w)) = token_files w
  /\ credentials_file (snd (Auth.checkAuth env w)) = credentials_file w
  /\ posts (snd (Auth.checkAuth env w)) = posts w
  /\ trace (snd (Auth.checkAuth env w)) = trace w
  /\ (forall status tokenData credentials,
        fst (Auth.checkAuth env w) = Returned status ->
        fst (Auth.loadToken env w) = Returned tokenData ->
        Auth.authenticated status = false ->
        fst (Auth.loadCredentials env w) = Returned credentials ->
        trace (snd (Auth.getValidAccessToken env w))
        = (trace w ++ [Auth.refresh_request credentials (refresh_token tokenData)])%list).
Proof.
  assert (E : Auth.checkAuth env w
              = match fst (Auth.loadToken env w) with
                | Returned t =>
                    (Returned
                       {| Auth.authenticated := negb (expires_at t <? clock env (ticks w));
                          Auth.expiresAt := Some (expires_at t);
                          Auth.error := None |},
                     with_ticks (S (ticks w)) w)
                | Thrown e =>
                    (Returned
                       {| Auth.authenticated := false;
                          Auth.expiresAt := None;
                          Auth.error := Some (Js.message e) |}, w)
                | Crashed e => (Crashed e, w)
                end).
  { unfold Auth.checkAuth, try_catch, bind.
    pose proof (loadToken_world env w) as Hw.
    destruct (Auth.loadToken env w) as [[t|e|e] w']; simpl in Hw; subst w'; reflexivity. }
  rewrite E. repeat split; try (destruct (fst (Auth.loadToken env w)); reflexivity).
  intros status t c Hs Hl Ha Hc. rewrite Hl in Hs. injection Hs as <-.
  simpl in Ha. apply negb_false_iff, Z.ltb_lt in Ha.
  destruct (loadToken_returned w t Hl) as (p & Hf & Hd).
  destruct (getValidAccessToken_loaded env w c p t Hc Hf Hd) as [Ht _].
  rewrite Ht.
  replace (expires_at t <? clock env (ticks w) + 5 * 60 * 1000) with true
    by (symmetry; apply Z.ltb_lt; lia).
  reflexivity.
Qed.

(** X13. A token that [getValidAccessToken] has just refreshed is not
    refreshed again by the next call, as long as the clock of that call is
    at least five minutes short of the new expiry: the next call returns
    the new access token and makes no request. *)
Theorem refreshed_token_is_used_as_it_is
    (w : World) (credentials : Credentials) (tokenPath : string)
    (tokenData : TokenData) (data : TokenResponse) :
  fst (Auth.loadCredentials env w) = Returned credentials ->
  fst (Auth.findTokenPath env w) = Returned (Some tokenPath) ->
  token_files w !! tokenPath = Some (Document tokenData) ->
  expires_at tokenData < clock env (ticks w) + 5 * 60 * 1000 ->
  token_endpoint env (posts w) ("Basic " ++ Auth.basic_auth credentials)
    [("grant_type", "refresh_token"); ("refresh_token", refresh_token tokenData)]
  = JsonBody data ->
  Js.truthy (r_error data) = false ->
  Js.truthy (r_access_token data) = true ->
  Js.truthy (r_refresh_token data) = true ->
  mkdir_error env (Path.dirname tokenPath) = None ->
  write_error env tokenPath = None ->
  clock env (S (S (ticks w))) + 5 * 60 * 1000
  <= clock env (S (ticks w)) + Js.num_or_else (r_expires_in data) 7200 * 1000 ->
  fst (Auth.getValidAccessToken env w) = Returned (r_access_token data)
  /\ posts (snd (Auth.getValidAccessToken env w)) = S (posts w)
  /\ fst (Auth.getValidAccessToken env (snd (Auth.getValidAccessToken env w)))
     = Returned (r_access_token data)
  /\ posts (snd (Auth.getValidAccessToken env (snd (Auth.getValidAccessToken env w))))
     = S (posts w)
  /\ trace (snd (Auth.getValidAccessToken env (snd (Auth.getValidAccessToken env w))))
     = trace (snd (Auth.getValidAccessToken env w)).
Proof.
  intros Hc Hf Hd Hnear Hr He Ha Ht Hm Hw Hclock.
  destruct (getValidAccessToken_loaded env w credentials tokenPath tokenData Hc Hf Hd)
    as [_ E1].
  cbv zeta in E1.
  replace (expires_at tokenData <? clock env (ticks w) + 5 * 60 * 1000) with true in E1
    by (symmetry; apply Z.ltb_lt; exact Hnear).
  assert (Hf0 : fst (Auth.findTokenPath env (with_ticks (S (ticks w)) w))
                = Returned (Some tokenPath)).
  { rewrite findTokenPath_eq in Hf |- *. exact Hf. }
  rewrite (refreshAccessToken_eq env (with_ticks (S (ticks w)) w) credentials
             (refresh_token tokenData) tokenPath data Hf0 Hr) in E1.
  cbv zeta in E1. rewrite He, Ha, Ht, Hm, Hw in E1. cbn [negb orb fst snd] in E1.
  set (record := Auth.token_of_response _ data) in E1.
  set (w' := with_token_files _ _) in E1.
  rewrite E1. cbn [fst snd].
  assert (Hc' : fst (Auth.loadCredentials env w') = Returned credentials).
  { rewrite <- Hc. apply loadCredentials_depends_on_file. reflexivity. }
  assert (Hf' : fst (Auth.findTokenPath env w') = Returned (Some tokenPath)).
  { pose proof (found_path_after_write env w tokenPath record Hf) as H3.
    rewrite findTokenPath_eq in H3 |- *. exact H3. }
  assert (Hd' : token_files w' !! tokenPath = Some (Document record)).
  { subst w'. cbn [token_files with_token_files]. now rewrite lookup_insert_eq. }
  destruct (getValidAccessToken_loaded env w' credentials tokenPath record Hc' Hf' Hd')
    as [_ E2].
  cbv zeta in E2.
  replace (expires_at record <? clock env (ticks w') + 5 * 60 * 1000) with false in E2.
  2:{ symmetry. apply Z.ltb_ge. subst record w'. cbn. cbn in Hclock. lia. }
  rewrite E2. cbn [fst snd]. repeat split.
Qed.

End LifecycleComposed.

Lemma getValidAccessToken_failure_is_harmless_witness :
  exists e,
    Auth.getValidAccessToken Fixture.env0 Fixture.world_fresh
    = (Thrown e, Fixture.world_fresh).
Proof.
  apply (getValidAccessToken_failure_is_harmless Fixture.env0 Fixture.world_fresh);
    reflexivity.
Defined.

(** On a full disk the refresh of an expired token empties the token
    file: the next call finds a file that does not parse. *)
Example refresh_on_a_full_disk :
  fst (Auth.getValidAccessToken Scenario.env_disk_full Fixture.world_expired)
  = Thrown (Js.SystemError "ENOSPC" "ENOSPC: no space left on device, write")
  /\ token_files (snd (Auth.getValidAccessToken Scenario.env_disk_full
                         Fixture.world_expired))
     !! Fixture.project_path
     = Some (Malformed "Unexpected end of JSON input")
  /\ fst (Auth.loadToken Scenario.env_disk_full
            (snd (Auth.getValidAccessToken Scenario.env_disk_full
                    Fixture.world_expired)))
     = Thrown (Js.SyntaxError "Unexpected end of JSON input").
Proof. repeat split; vm_compute; reflexivity. Qed.

Lemma checkAuth_only_looks_witness :
  trace (snd (Auth.getValidAccessToken Fixture.env0 Fixture.world_expired))
  = [Auth.refresh_request Fixture.credentials "R1"].
Proof.
  destruct (checkAuth_only_looks Fixture.env0 Fixture.world_expired)
    as (_ & _ & _ & _ & H).
  apply (H {| Auth.authenticated := false;
              Auth.expiresAt := Some (Fixture.now - 1000);
              Auth.error := None |}
           (Fixture.token "T1" "R1" (Fixture.now - 1000)) Fixture.credentials);
    vm_compute; reflexivity.
Defined.

Lemma refreshed_token_is_used_as_it_is_witness :
  fst (Auth.getValidAccessToken
         (Scenario.env_running 1000 (inl "fetch failed"))
         (snd (Auth.getValidAccessToken
                 (Scenario.env_running 1000 (inl "fetch failed"))
                 Fixture.world_expired)))
  = Returned (Some "T2").
Proof.
  apply (refreshed_token_is_used_as_it_is
           (Scenario.env_running 1000 (inl "fetch failed")) Fixture.world_expired
           Fixture.credentials Fixture.project_path
           (Fixture.token "T1" "R1" (Fixture.now - 1000))
           (Fixture.response (Some "T2") (Some "R2") None));
    vm_compute; first [reflexivity | discriminate].
Defined.

(** ** The characters of a PKCE session *)

Section PkceCharacters.

Import Encoding.

Lemma digit_url_char (b5 b4 b3 b2 b1 b0 : bool) :
  base64url_char (digit alphabet_url b5 b4 b3 b2 b1 b0) = true.
Proof. destruct b5, b4, b3, b2, b1, b0; reflexivity. Qed.

Lemma digits_url_chars (n : nat) (bits : list bool) :
  (length bits <= n)%nat ->
  string_forallb base64url_char (digits alphabet_url bits) = true.
Proof.
  revert bits. induction n as [|n IH]; intros bits Hn.
  - destruct bits; [reflexivity | simpl in Hn; lia].
  - destruct bits as [|a5 [|a4 [|a3 [|a2 [|a1 [|a0 rest]]]]]];
      cbn [digits string_forallb]; rewrite ?digit_url_char; try reflexivity.
    apply IH. simpl in Hn. lia.
Qed.

Lemma base64url_chars (s : string) :
  string_forallb base64url_char (base64url s) = true.
Proof. apply (digits_url_chars (length (bits_of s))). lia. Qed.

Lemma hex_digit_char (b3 b2 b1 b0 : bool) :
  lower_hex_char (hex_digit b3 b2 b1 b0) = true.
Proof. destruct b3, b2, b1, b0; reflexivity. Qed.

Lemma hex_chars (s : string) : string_forallb lower_hex_char (hex s) = true.
Proof.
  induction s as [|[a0 a1 a2 a3 a4 a5 a6 a7] s IH]; [reflexivity|].
  cbn [hex string_forallb]. now rewrite !hex_digit_char, IH.
Qed.

Variable env : Env.

(** X14. The texts of every PKCE session can go into a URL as they are:
    [code_verifier] and [code_challenge] are made of letters, digits, [-]
    and [_] only (no [+], [/] or [=] padding), whatever the random bytes and
    the digest are, and [state] is made of the digits [0-9a-f] only. *)
Theorem pkce_texts_are_url_safe (w : World) :
  exists session,
    fst (Auth.generatePkce env w) = Returned session
    /\ string_forallb base64url_char (Auth.code_verifier session) = true
    /\ string_forallb base64url_char (Auth.code_challenge session) = true
    /\ string_forallb lower_hex_char (Auth.state session) = true.
Proof.
  rewrite generatePkce_eq. eexists. split; [reflexivity|].
  cbn [Auth.code_verifier Auth.code_challenge Auth.state].
  split; [apply base64url_chars|]. split; [apply base64url_chars | apply hex_chars].
Qed.

End PkceCharacters.

(** ** Credential setup *)

Lemma lower_char_y (c : ascii) :
  Setup.lower_char c = "y"%char <-> c = "y"%char \/ c = "Y"%char.
Proof.
  split.
  - destruct c as [[] [] [] [] [] [] [] []]; vm_compute; intros H;
      first [discriminate H | now left | now right].
  - intros [-> | ->]; reflexivity.
Qed.

Lemma toLowerCase_y (s : string) :
  Setup.toLowerCase s = "y" <-> s = "y" \/ s = "Y".
Proof.
  split.
  - destruct s as [|c [|d s]]; cbn [Setup.toLowerCase]; intros H; try discriminate H.
    injection H as H. apply lower_char_y in H as [-> | ->]; auto.
  - intros [-> | ->]; reflexivity.
Qed.

Section SetupProperties.

Variable env : Env.
Variable answers : nat -> string.

(** What is typed or read from 1Password, or the error that ends the setup. *)
Lemma chooseAndSave_eq (k : nat) (w : World) :
  Setup.chooseAndSave env answers k w =
  let chosen : Js.Exn + Credentials :=
    if op_version_ok env && String.eqb (answers k) "1" then
      match Auth.loadCredentialsFrom1Password env with
      | None => inl (Js.Error "1Password credentials not found")
      | Some c => inr c
      end
    else if String.eqb (answers (k + 1)) EmptyString
            || String.eqb (answers (k + 2)) EmptyString
    then inl (Js.Error "Both Client ID and Client Secret are required")
    else inr (mkCredentials (answers (k + 1)) (answers (k + 2))) in
  match chosen with
  | inl e => (Thrown e, w)
  | inr c =>
      match mkdir_error env (Auth.GLOBAL_CONFIG_DIR env) with
      | Some (code, msg) => (Thrown (Js.SystemError code msg), w)
      | None =>
          match write_error env (Auth.CREDENTIALS_PATH env) with
          | Some (code, msg) =>
              (Thrown (Js.SystemError code msg),
               match write_torn env (Auth.CREDENTIALS_PATH env) with
               | Some (_, parse_msg) => with_credentials (Some (Malformed parse_msg)) w
               | None => w
               end)
          | None =>
              (Returned tt,
               with_credentials
                 (Some (Document (mkCredentialsDoc (Some (client_id c))
                                                   (Some (client_secret c))))) w)
          end
      end
  end.
Proof.
  unfold Setup.chooseAndSave, Setup.askQuestion, bind, ret, throw,
    Auth.is1PasswordAvailable, Auth.fs_mkdir, Setup.write_credentials_json.
  cbv zeta.
  destruct (op_version_ok env && String.eqb (answers k) "1").
  - destruct (Auth.loadCredentialsFrom1Password env); [|reflexivity].
    destruct (mkdir_error env _) as [[? ?]|]; [reflexivity|].
    destruct (write_error env _) as [[? ?]|]; reflexivity.
  - destruct (String.eqb (answers (k + 1)) EmptyString
              || String.eqb (answers (k + 2)) EmptyString); [reflexivity|].
    destruct (mkdir_error env _) as [[? ?]|]; [reflexivity|].
    destruct (write_error env _) as [[? ?]|]; reflexivity.
Qed.

Lemma performSetup_eq (w : World) :
  Setup.performSetup env answers w =
  match credentials_file w with
  | Some _ =>
      if String.eqb (Setup.toLowerCase (answers 0)) "y"
      then Setup.chooseAndSave env answers 1 w
      else (Returned tt, w)
  | None => Setup.chooseAndSave env answers 0 w
  end.
Proof.
  unfold Setup.performSetup, Setup.credentialsFileExists, Setup.askQuestion, bind, ret.
  destruct (credentials_file w); [|reflexivity].
  destruct (String.eqb (Setup.toLowerCase (answers 0)) "y"); reflexivity.
Qed.

Lemma from_1password_nonempty (c : Credentials) :
  Auth.loadCredentialsFrom1Password env = Some c ->
  client_id c <> EmptyString /\ client_secret c <> EmptyString.
Proof.
  unfold Auth.loadCredentialsFrom1Password, Auth.readFrom1Password, Js.truthy.
  destruct (op_read env Auth.OP_CLIENT_ID_REF) as [i|]; [|discriminate].
  destruct (op_read env Auth.OP_CLIENT_SECRET_REF) as [s|]; [|discriminate].
  destruct (String.eqb_spec i EmptyString); [discriminate|].
  destruct (String.eqb_spec s EmptyString); [discriminate|].
  intros [= <-]. split; assumption.
Qed.

Lemma loadCredentials_of_document (w : World) (c : Credentials) :
  credentials_file w
  = Some (Document (mkCredentialsDoc (Some (client_id c)) (Some (client_secret c)))) ->
  client_id c <> EmptyString -> client_secret c <> EmptyString ->
  Auth.loadCredentials env w = (Returned c, w).
Proof.
  intros Hf Hi Hs.
  unfold Auth.loadCredentials, bind, try_catch, Auth.read_credentials_json, ret, Js.truthy.
  rewrite Hf. cbn [doc_client_id doc_client_secret].
  destruct (String.eqb_spec (client_id c) EmptyString); [contradiction|].
  destruct (String.eqb_spec (client_secret c) EmptyString); [contradiction|].
  destruct c. reflexivity.
Qed.

Lemma chooseAndSave_returned (k : nat) (w : World) :
  fst (Setup.chooseAndSave env answers k w) = Returned tt ->
  exists c,
    snd (Setup.chooseAndSave env answers k w)
    = with_credentials
        (Some (Document (mkCredentialsDoc (Some (client_id c))
                                          (Some (client_secret c))))) w
    /\ client_id c <> EmptyString /\ client_secret c <> EmptyString
    /\ (if op_version_ok env && String.eqb (answers k) "1"
        then Auth.loadCredentialsFrom1Password env = Some c
        else c = mkCredentials (answers (k + 1)) (answers (k + 2))).
Proof.
  rewrite chooseAndSave_eq. cbv zeta.
  destruct (op_version_ok env && String.eqb (answers k) "1").
  - destruct (Auth.loadCredentialsFrom1Password env) as [c|] eqn:E; [|discriminate].
    destruct (mkdir_error env _) as [[? ?]|]; [discriminate|].
    destruct (write_error env _) as [[? ?]|]; [discriminate|]. intros _.
    exists c. split; [reflexivity|].
    destruct (from_1password_nonempty c E). auto.
  - destruct (String.eqb_spec (answers (k + 1)) EmptyString); [discriminate|].
    destruct (String.eqb_spec (answers (k + 2)) EmptyString); [discriminate|].
    cbn [orb].
    destruct (mkdir_error env _) as [[? ?]|]; [discriminate|].
    destruct (write_error env _) as [[? ?]|]; [discriminate|]. intros _.
    eexists. split; [reflexivity|]. cbn [client_id client_secret]. auto.
Qed.

(** A choice that fails has changed nothing, unless it failed in the
    write, after the credentials file had been opened and truncated. *)
Lemma chooseAndSave_thrown (k : nat) (w : World) (e : Js.Exn) :
  fst (Setup.chooseAndSave env answers k w) = Thrown e ->
  snd (Setup.chooseAndSave env answers k w) = w
  \/ (write_error env (Auth.CREDENTIALS_PATH env) <> None
      /\ exists n msg,
           write_torn env (Auth.CREDENTIALS_PATH env) = Some (n, msg)
           /\ snd (Setup.chooseAndSave env answers k w)
              = with_credentials (Some (Malformed msg)) w).
Proof.
  rewrite chooseAndSave_eq. cbv zeta.
  assert (Hsave : forall c,
    fst (match mkdir_error env (Auth.GLOBAL_CONFIG_DIR env) with
         | Some (code, msg) => (Thrown (Js.SystemError code msg), w)
         | None =>
             match write_error env (Auth.CREDENTIALS_PATH env) with
             | Some (code, msg) =>
                 (Thrown (Js.SystemError code msg),
                  match write_torn env (Auth.CREDENTIALS_PATH env) with
                  | Some (_, parse_msg) =>
                      with_credentials (Some (Malformed parse_msg)) w
                  | None => w
                  end)
             | None =>
                 (Returned tt,
                  with_credentials
                    (Some (Document (mkCredentialsDoc (Some (client_id c))
                                                      (Some (client_secret c))))) w)
             end
         end) = Thrown e ->
    snd (match mkdir_error env (Auth.GLOBAL_CONFIG_DIR env) with
         | Some (code, msg) => (Thrown (Js.SystemError code msg), w)
         | None =>
             match write_error env (Auth.CREDENTIALS_PATH env) with
             | Some (code, msg) =>
                 (Thrown (Js.SystemError code msg),
                  match write_torn env (Auth.CREDENTIALS_PATH env) with
                  | Some (_, parse_msg) =>
                      with_credentials (Some (Malformed parse_msg)) w
                  | None => w
                  end)
             | None =>
                 (Returned tt,
                  with_credentials
                    (Some (Document (mkCredentialsDoc (Some (client_id c))
                                                      (Some (client_secret c))))) w)
             end
         end) = w
    \/ (write_error env (Auth.CREDENTIALS_PATH env) <> None
        /\ exists n msg,
             write_torn env (Auth.CREDENTIALS_PATH env) = Some (n, msg)
             /\ snd (match mkdir_error env (Auth.GLOBAL_CONFIG_DIR env) with
                     | Some (code, msg) => (Thrown (Js.SystemError code msg), w)
                     | None =>
                         match write_error env (Auth.CREDENTIALS_PATH env) with
                         | Some (code, msg) =>
                             (Thrown (Js.SystemError code msg),
                              match write_torn env (Auth.CREDENTIALS_PATH env) with
                              | Some (_, parse_msg) =>
                                  with_credentials (Some (Malformed parse_msg)) w
                              | None => w
                              end)
                         | None =>
                             (Returned tt,
                              with_credentials
                                (Some (Document
                                         (mkCredentialsDoc (Some (client_id c))
                                                           (Some (client_secret c))))) w)
                         end
                     end)
                = with_credentials (Some (Malformed msg)) w)).
  { intros c.
    destruct (mkdir_error env _) as [[? ?]|]; [left; reflexivity|].
    destruct (write_error env _) as [[? ?]|]; [|discriminate]. intros _.
    destruct (write_torn env _) as [[n msg]|]; [|left; reflexivity].
    right. split; [discriminate|]. exists n, msg. split; reflexivity. }
  destruct (op_version_ok env && String.eqb (answers k) "1").
  - destruct (Auth.loadCredentialsFrom1Password env); [apply Hsave | left; reflexivity].
  - destruct (String.eqb (answers (k + 1)) EmptyString
              || String.eqb (answers (k + 2)) EmptyString);
      [left; reflexivity | apply Hsave].
Qed.

Lemma chooseAndSave_alive (k : nat) (w : World) (e : Js.Exn) :
  fst (Setup.chooseAndSave env answers k w) <> Crashed e.
Proof.
  rewrite chooseAndSave_eq. cbv zeta.
  repeat match goal with
    | |- context [if ?b then _ else _] => destruct b
    | |- context [match Auth.loadCredentialsFrom1Password env with _ => _ end] =>
        destruct (Auth.loadCredentialsFrom1Password env)
    | |- context [match mkdir_error env ?p with _ => _ end] =>
        destruct (mkdir_error env p) as [[? ?]|]
    | |- context [match write_error env ?p with _ => _ end] =>
        destruct (write_error env p) as [[? ?]|]
    end; discriminate.
Qed.

(** X15. A setup that runs to its end leaves credentials that
    [loadCredentials] returns: unless the run was the cancelled overwrite,
    when [performSetup] returns, the credentials file holds a non-empty id
    and a non-empty secret, and [loadCredentials] gives that pair. The
    pair is the one read from 1Password when the [op] CLI is there and the
    answer to the choice prompt is [1]; otherwise it is made of the two
    answers that follow the answer to the choice prompt. The choice prompt
    is the first prompt of the run, or the second when the overwrite prompt
    came first. *)
Theorem setup_then_loadCredentials (w : World) :
  fst (Setup.performSetup env answers w) = Returned tt ->
  credentials_file w = None \/ answers 0 = "y" \/ answers 0 = "Y" ->
  let choice := match credentials_file w with Some _ => 1%nat | None => 0%nat end in
  exists c,
    credentials_file (snd (Setup.performSetup env answers w))
    = Some (Document (mkCredentialsDoc (Some (client_id c)) (Some (client_secret c))))
    /\ Auth.loadCredentials env (snd (Setup.performSetup env answers w))
       = (Returned c, snd (Setup.performSetup env answers w))
    /\ (if op_version_ok env && String.eqb (answers choice) "1"
        then Auth.loadCredentialsFrom1Password env = Some c
        else c = mkCredentials (answers (choice + 1)) (answers (choice + 2))).
Proof.
  rewrite performSetup_eq. intros Hr Hgo choice.
  assert (Hk :
    fst (Setup.chooseAndSave env answers choice w) = Returned tt
    /\ match credentials_file w with
       | Some _ =>
           if String.eqb (Setup.toLowerCase (answers 0)) "y"
           then Setup.chooseAndSave env answers 1 w
           else (Returned tt, w)
       | None => Setup.chooseAndSave env answers 0 w
       end = Setup.chooseAndSave env answers choice w).
  { subst choice. destruct (credentials_file w) as [f|].
    - assert (Hy : String.eqb (Setup.toLowerCase (answers 0)) "y" = true).
      { apply String.eqb_eq, toLowerCase_y.
        destruct Hgo as [H|[H|H]]; [discriminate | auto | auto]. }
      rewrite Hy in Hr |- *. split; [exact Hr | reflexivity].
    - split; [exact Hr | reflexivity]. }
  destruct Hk as (Hk & ->).
  destruct (chooseAndSave_returned choice w Hk) as (c & Hw & Hi & Hs & Hfrom).
  rewrite Hw. exists c. split; [reflexivity|]. split; [|exact Hfrom].
  apply loadCredentials_of_document; [reflexivity | assumption | assumption].
Qed.

(** X16. [performSetup] writes the credentials or, with one exception,
    leaves everything as it was. Answering the overwrite prompt with
    anything but [y] or [Y] returns without a change. A setup that throws
    (an empty id or secret, nothing in 1Password, a directory that cannot
    be made, a write that is rejected) has changed nothing, unless the
    write was rejected after [fs.writeFile] had opened the credentials
    file: then that file holds what is left of it, which does not parse,
    and nothing else has changed. No run touches a token file, and no run
    ends the process. *)
Theorem setup_changes_nothing_unless_completed (w : World) :
  (is_Some (credentials_file w) -> answers 0 <> "y" -> answers 0 <> "Y" ->
   Setup.performSetup env answers w = (Returned tt, w))
  /\ (forall e, fst (Setup.performSetup env answers w) = Thrown e ->
      snd (Setup.performSetup env answers w) = w
      \/ (write_error env (Auth.CREDENTIALS_PATH env) <> None
          /\ exists n msg,
               write_torn env (Auth.CREDENTIALS_PATH env) = Some (n, msg)
               /\ snd (Setup.performSetup env answers w)
                  = with_credentials (Some (Malformed msg)) w))
  /\ token_files (snd (Setup.performSetup env answers w)) = token_files w
  /\ (forall e, fst (Setup.performSetup env answers w) <> Crashed e).
Proof.
  rewrite performSetup_eq. split; [|split; [|split]].
  - intros [f ->] Hy HY.
    destruct (String.eqb_spec (Setup.toLowerCase (answers 0)) "y") as [E|_];
      [|reflexivity].
    apply toLowerCase_y in E as [E|E]; contradiction.
  - intros e.
    destruct (credentials_file w);
      [destruct (String.eqb (Setup.toLowerCase (answers 0)) "y")|];
      first [apply chooseAndSave_thrown | discriminate].
  - assert (H : forall k, token_files (snd (Setup.chooseAndSave env answers k w))
                          = token_files w).
    { intros k.
      destruct (Setup.chooseAndSave env answers k w) as [[[]|e|e] w'] eqn:E.
      - destruct (chooseAndSave_returned k w) as (c & Hw & _);
          [now rewrite E|]. rewrite E in Hw. simpl in Hw |- *. now rewrite Hw.
      - pose proof (chooseAndSave_thrown k w e) as Hw. rewrite E in Hw.
        simpl in Hw |- *.
        destruct Hw as [->|(_ & n & msg & _ & ->)]; reflexivity.
      - exfalso. apply (chooseAndSave_alive k w e). now rewrite E. }
    destruct (credentials_file w);
      [destruct (String.eqb (Setup.toLowerCase (answers 0)) "y")|];
      first [apply H | reflexivity].
  - intros e.
    destruct (credentials_file w);
      [destruct (String.eqb (Setup.toLowerCase (answers 0)) "y")|];
      first [apply chooseAndSave_alive | discriminate].
Qed.

End SetupProperties.

Lemma setup_then_loadCredentials_witness :
  exists c,
    Auth.loadCredentials Fixture.env0
      (snd (Setup.performSetup Fixture.env0
              (fun n => nth n ["1"; "my-id"; "my-secret"] EmptyString)
              Scenario.world_blank))
    = (Returned c,
       snd (Setup.performSetup Fixture.env0
              (fun n => nth n ["1"; "my-id"; "my-secret"] EmptyString)
              Scenario.world_blank)).
Proof.
  destruct (setup_then_loadCredentials Fixture.env0
              (fun n => nth n ["1"; "my-id"; "my-secret"] EmptyString)
              Scenario.world_blank) as (c & _ & H & _).
  - vm_compute. reflexivity.
  - left. reflexivity.
  - exists c. exact H.
Defined.

Lemma setup_changes_nothing_unless_completed_witness :
  Setup.performSetup Fixture.env0
    (fun n => nth n ["n"; "1"; "my-id"; "my-secret"] EmptyString)
    Fixture.world_fresh
  = (Returned tt, Fixture.world_fresh).
Proof.
  apply (setup_changes_nothing_unless_completed Fixture.env0
           (fun n => nth n ["n"; "1"; "my-id"; "my-secret"] EmptyString)
           Fixture.world_fresh).
  - eexists. reflexivity.
  - discriminate.
  - discriminate.
Defined.

(** On a full disk the setup that overwrites the credentials leaves a
    credentials file that no longer parses. *)
Example setup_on_a_full_disk :
  fst (Setup.performSetup Scenario.env_disk_full
         (fun n => nth n ["y"; "1"; "my-id"; "my-secret"] EmptyString)
         Fixture.world_fresh)
  = Thrown (Js.SystemError "ENOSPC" "ENOSPC: no space left on device, write")
  /\ credentials_file
       (snd (Setup.performSetup Scenario.env_disk_full
               (fun n => nth n ["y"; "1"; "my-id"; "my-secret"] EmptyString)
               Fixture.world_fresh))
     = Some (Malformed "Unexpected end of JSON input").
Proof. split; vm_compute; reflexivity. Qed.

Example setup_manual_entry :
  credentials_file
    (snd (Setup.performSetup Fixture.env0
            (fun n => nth n ["Y"; "1"; "my-id"; "my-secret"] EmptyString)
            Fixture.world_fresh))
  = Some (Document (mkCredentialsDoc (Some "my-id") (Some "my-secret"))).
Proof. vm_compute. reflexivity. Qed.

Example setup_from_1password :
  credentials_file
    (snd (Setup.performSetup Scenario.env_1password (fun _ => "1") Scenario.world_blank))
  = Some (Document (mkCredentialsDoc (Some "op-id") (Some "op-secret"))).
Proof. vm_compute. reflexivity. Qed.

(** ** The API client *)

Lemma count_api_calls_app (a b : list Event) :
  count_api_calls (a ++ b) = (count_api_calls a + count_api_calls b)%nat.
Proof.
  induction a as [|ev a IH]; [reflexivity|].
  destruct ev; cbn [app count_api_calls]; rewrite IH; reflexivity.
Qed.

Lemma or_else_nonempty (o : option string) (d : string) :
  d <> EmptyString -> Js.or_else o d <> EmptyString.
Proof.
  intros Hd. destruct o as [s|]; [|exact Hd]. simpl.
  destruct (String.eqb_spec s EmptyString); assumption.
Qed.

Lemma string_app_nonempty (a b : string) : a <> EmptyString -> a ++ b <> EmptyString.
Proof. destruct a; [contradiction | discriminate]. Qed.

Section ApiClient.

Variable env : Env.

Lemma refreshAccessToken_calls (c : Credentials) (rt p : string) (w : World) :
  calls (snd (Auth.refreshAccessToken env c rt p w)) = calls w.
Proof.
  unfold Auth.refreshAccessToken, bind, Auth.post_token.
  destruct (token_endpoint env _ _ _) as [m|m|data]; try reflexivity.
  destruct (Js.truthy (r_error data)); [reflexivity|].
  destruct (negb _ || negb _); [reflexivity|].
  unfold Auth.Date_now. rewrite saveToken_eq. cbv zeta.
  destruct (mkdir_error env _) as [[? ?]|]; [reflexivity|].
  destruct (write_error env _) as [[? ?]|]; [|reflexivity].
  unfold after_failed_write. destruct (write_torn env _) as [[? ?]|]; reflexivity.
Qed.

(** Getting the token never calls the REST API. *)
Lemma getValidAccessToken_no_api (w : World) :
  calls (snd (Auth.getValidAccessToken env w)) = calls w
  /\ count_api_calls (trace (snd (Auth.getValidAccessToken env w)))
     = count_api_calls (trace w).
Proof.
  unfold Auth.getValidAccessToken, bind.
  pose proof (loadCredentials_world env w) as Hw.
  destruct (Auth.loadCredentials env w) as [[c|e0|e0] w0]; simpl in Hw; subst w0;
    [|split; reflexivity|split; reflexivity].
  rewrite findTokenPath_eq.
  destruct (token_files w !! Auth.getProjectTokenPath env) as [f|] eqn:Hp;
    [|destruct (token_files w !! Auth.getGlobalTokenPath env) as [f|] eqn:Hg;
      [|split; reflexivity]];
    unfold Auth.read_token_json; rewrite ?Hp, ?Hg;
    (destruct f as [| |t]; try (split; reflexivity));
    unfold Auth.Date_now;
    (destruct (expires_at t <? clock env (ticks w) + Auth.bufferMs);
     [|split; reflexivity]);
    match goal with
    | |- context [Auth.refreshAccessToken env c ?rt ?p ?w0] =>
        pose proof (refreshAccessToken_calls c rt p w0) as Hc;
        pose proof (refreshAccessToken_trace env c rt p w0) as Ht;
        destruct (Auth.refreshAccessToken env c rt p w0) as [[t'|e'|e'] w']
    end;
    simpl in Hc, Ht |- *; rewrite Hc, Ht, count_api_calls_app; simpl; split; lia.
Qed.

(** [twitterRequest], once the token is there and the API has answered. *)
Lemma twitterRequest_answered
    (endpoint : string) (w : World) (token : option string) (response : ApiResponse) :
  fst (Auth.getValidAccessToken env w) = Returned token ->
  api env (calls (snd (Auth.getValidAccessToken env w)))
    (Twitter.TWITTER_API_BASE ++ endpoint) ("Bearer " ++ Js.to_string token)
  = inr response ->
  exists w3 suffix,
    calls w3 = S (calls w)
    /\ trace w3
       = (trace (snd (Auth.getValidAccessToken env w))
          ++ [ApiGet (Twitter.TWITTER_API_BASE ++ endpoint)
                ("Bearer " ++ Js.to_string token)])%list
    /\ Twitter.twitterRequest env endpoint w
       = if status response =? 204 then (Returned Twitter.deleted_body, w3)
         else match json response with
              | inl msg => (Thrown (Js.SyntaxError msg), w3)
              | inr data =>
                  if negb (ok response)
                  then (Thrown (Js.Error (error_message_of response data ++ suffix)), w3)
                  else (Returned data, w3)
              end.
Proof.
  intros Ht Ha.
  destruct (getValidAccessToken_no_api w) as [Hcalls _].
  unfold Twitter.twitterRequest, bind.
  destruct (Auth.getValidAccessToken env w) as [r w1]. simpl in Ht, Ha, Hcalls |- *.
  subst r. unfold Twitter.api_fetch. rewrite Ha.
  set (w2 := with_calls (S (calls w1)) (with_trace _ w1)).
  unfold Twitter.parseRateLimitHeaders, bind, Auth.Date_now, ret.
  destruct (negb (Js.truthy (x_rate_limit_limit response))
            || negb (Js.truthy (x_rate_limit_remaining response))
            || negb (Js.truthy (x_rate_limit_reset response))).
  - exists w2, EmptyString. split; [simpl; now rewrite Hcalls|].
    split; [reflexivity|].
    destruct (status response =? 204); [reflexivity|].
    unfold Twitter.response_json, throw, ret.
    destruct (json response) as [msg|data]; [reflexivity|].
    destruct (negb (ok response)); [|reflexivity].
    rewrite string_app_empty_r. reflexivity.
  - exists (with_ticks (S (ticks w2)) w2).
    exists (if status response =? 429
            then " (resets in " ++
                 Twitter.number_to_string
                   (option_map
                      (fun t => Z.max 0 (- (- (t - clock env (ticks w2)) / 1000)))
                      (option_map (fun n => n * 1000)
                         (Twitter.parseInt (Js.to_string (x_rate_limit_reset response)))))
                 ++ "s)"
            else EmptyString).
    split; [simpl; now rewrite Hcalls|]. split; [reflexivity|].
    destruct (status response =? 204) eqn:E204; [reflexivity|].
    unfold Twitter.response_json, throw, ret.
    destruct (json response) as [msg|data]; [reflexivity|].
    destruct (negb (ok response)); [|reflexivity].
    cbn [Twitter.resetInSeconds].
    destruct (status response =? 429); [reflexivity|].
    rewrite string_app_empty_r. reflexivity.
Qed.

End ApiClient.

Section ApiClientProperties.

Variable env : Env.

(** X17. [twitterRequest] asks the API exactly once, with the token
    [getValidAccessToken] has just returned as bearer, and not at all when
    [getValidAccessToken] throws: its error is passed on and the API is
    left alone. *)
Theorem twitterRequest_asks_once_with_the_token (endpoint : string) (w : World) :
  match fst (Auth.getValidAccessToken env w) with
  | Thrown e =>
      Twitter.twitterRequest env endpoint w
      = (Thrown e, snd (Auth.getValidAccessToken env w))
      /\ calls (snd (Twitter.twitterRequest env endpoint w)) = calls w
      /\ count_api_calls (trace (snd (Twitter.twitterRequest env endpoint w)))
         = count_api_calls (trace w)
  | Returned token =>
      calls (snd (Twitter.twitterRequest env endpoint w)) = S (calls w)
      /\ trace (snd (Twitter.twitterRequest env endpoint w))
         = (trace (snd (Auth.getValidAccessToken env w))
            ++ [ApiGet (Twitter.TWITTER_API_BASE ++ endpoint)
                  ("Bearer " ++ Js.to_string token)])%list
      /\ count_api_calls (trace (snd (Twitter.twitterRequest env endpoint w)))
         = S (count_api_calls (trace w))
  | Crashed _ => False
  end.
Proof.
  destruct (getValidAccessToken_no_api env w) as [Hcalls Hcount].
  destruct (fst (Auth.getValidAccessToken env w)) as [token|e|e] eqn:Ht;
    [| |exact (getValidAccessToken_alive env w e Ht)].
  - assert (H : calls (snd (Twitter.twitterRequest env endpoint w)) = S (calls w)
               /\ trace (snd (Twitter.twitterRequest env endpoint w))
                  = (trace (snd (Auth.getValidAccessToken env w))
                     ++ [ApiGet (Twitter.TWITTER_API_BASE ++ endpoint)
                           ("Bearer " ++ Js.to_string token)])%list).
    { destruct (api env (calls (snd (Auth.getValidAccessToken env w)))
                  (Twitter.TWITTER_API_BASE ++ endpoint)
                  ("Bearer " ++ Js.to_string token)) as [msg|response] eqn:Ha.
      - unfold Twitter.twitterRequest, bind.
        destruct (Auth.getValidAccessToken env w) as [r w1].
        simpl in Ht, Ha, Hcalls |- *. subst r.
        unfold Twitter.api_fetch. rewrite Ha. simpl. now rewrite Hcalls.
      - destruct (twitterRequest_answered env endpoint w token response Ht Ha)
          as (w3 & suffix & Hc & Htr & E).
        rewrite E.
        destruct (status response =? 204); [now split|].
        destruct (json response); [now split|].
        destruct (negb (ok response)); now split. }
    destruct H as [Hc Htr]. split; [exact Hc|]. split; [exact Htr|].
    rewrite Htr, count_api_calls_app, Hcount. simpl. lia.
  - assert (E : Twitter.twitterRequest env endpoint w
                = (Thrown e, snd (Auth.getValidAccessToken env w))).
    { unfold Twitter.twitterRequest, bind.
      destruct (Auth.getValidAccessToken env w) as [r w1]. simpl in Ht |- *.
      now subst r. }
    rewrite E. simpl. auto.
Qed.

(** X18. What [twitterRequest] makes of the API's answer. A 204 gives
    [{ deleted: true }], an object whose one field is [deleted], with the
    value [true], without the body being read. Otherwise a body that
    is not JSON throws the parse error; a response that is not OK throws an
    [Error] whose message is not empty and starts with the [detail] of the
    body, or else its [title], or else the message of its first error, or
    else "API request failed: <status>"; and only an OK response gives
    back its body. *)
Theorem twitterRequest_outcome
    (endpoint : string) (w : World) (token : option string) (response : ApiResponse) :
  fst (Auth.getValidAccessToken env w) = Returned token ->
  api env (calls (snd (Auth.getValidAccessToken env w)))
    (Twitter.TWITTER_API_BASE ++ endpoint) ("Bearer " ++ Js.to_string token)
  = inr response ->
  (status response = 204 ->
   fst (Twitter.twitterRequest env endpoint w)
   = Returned {| body_data := None; body_detail := None; body_title := None;
                 body_first_error_message := None; body_deleted := Some true |})
  /\ (status response <> 204 ->
      match json response with
      | inl msg =>
          fst (Twitter.twitterRequest env endpoint w) = Thrown (Js.SyntaxError msg)
      | inr data =>
          if ok response
          then fst (Twitter.twitterRequest env endpoint w) = Returned data
          else exists message,
                 fst (Twitter.twitterRequest env endpoint w)
                 = Thrown (Js.Error message)
                 /\ message <> EmptyString
                 /\ String.prefix (error_message_of response data) message = true
      end).
Proof.
  intros Ht Ha.
  destruct (twitterRequest_answered env endpoint w token response Ht Ha)
    as (w3 & suffix & _ & _ & E).
  rewrite E. split.
  - intros ->. reflexivity.
  - intros Hs. destruct (Z.eqb_spec (status response) 204); [contradiction|].
    destruct (json response) as [msg|data]; [reflexivity|].
    destruct (ok response); [reflexivity|]. cbn [negb fst].
    eexists. split; [reflexivity|]. split; [|apply prefix_app].
    apply string_app_nonempty. unfold error_message_of.
    do 3 apply or_else_nonempty. discriminate.
Qed.

(** X19. The rate-limit information is there exactly when all three
    headers are there and non-empty; the clock is read only then. The
    seconds to the reset are never negative, and they are the time to the
    reset rounded up to whole seconds. *)
Theorem rate_limit_info_rounds_up (response : ApiResponse) (w : World) :
  (Js.truthy (x_rate_limit_limit response)
   && Js.truthy (x_rate_limit_remaining response)
   && Js.truthy (x_rate_limit_reset response) = false ->
   Twitter.parseRateLimitHeaders env response w = (Returned None, w))
  /\ (Js.truthy (x_rate_limit_limit response)
      && Js.truthy (x_rate_limit_remaining response)
      && Js.truthy (x_rate_limit_reset response) = true ->
      exists info,
        Twitter.parseRateLimitHeaders env response w
        = (Returned (Some info), with_ticks (S (ticks w)) w)
        /\ match Twitter.reset info with
           | None => Twitter.resetInSeconds info = None
           | Some t =>
               exists n,
                 Twitter.resetInSeconds info = Some n
                 /\ 0 <= n
                 /\ t - clock env (ticks w) <= n * 1000
                 /\ (n = 0 \/ (n - 1) * 1000 < t - clock env (ticks w))
           end).
Proof.
  unfold Twitter.parseRateLimitHeaders, bind, Auth.Date_now, ret.
  destruct (Js.truthy (x_rate_limit_limit response));
    destruct (Js.truthy (x_rate_limit_remaining response));
    destruct (Js.truthy (x_rate_limit_reset response)); simpl;
    (split; [intros H; first [discriminate H | reflexivity]
            | intros H; try discriminate H]).
  eexists. split; [reflexivity|]. cbn [Twitter.reset Twitter.resetInSeconds].
  destruct (Twitter.parseInt (Js.to_string (x_rate_limit_reset response))) as [r|];
    [|reflexivity].
  cbn [option_map]. eexists. split; [reflexivity|].
  set (d := r * 1000 - clock env (ticks w)).
  pose proof (Z.div_mod (- d) 1000 ltac:(lia)) as Hdm.
  pose proof (Z.mod_pos_bound (- d) 1000 ltac:(lia)) as Hb.
  lia.
Qed.

End ApiClientProperties.

Lemma twitterRequest_outcome_witness :
  exists message,
    fst (Twitter.twitterRequest
           (Scenario.env_running 1000
              (inr (Scenario.api_response 429 false
                      (inr (mkApiBody None None (Some "Too Many Requests") None None)))))
           "/users/me" Scenario.world_valid)
    = Thrown (Js.Error message)
    /\ message <> EmptyString.
Proof.
  destruct (twitterRequest_outcome
              (Scenario.env_running 1000
                 (inr (Scenario.api_response 429 false
                         (inr (mkApiBody None None (Some "Too Many Requests") None None)))))
              "/users/me" Scenario.world_valid (Some "T1")
              (Scenario.api_response 429 false
                 (inr (mkApiBody None None (Some "Too Many Requests") None None))))
    as [_ H].
  - vm_compute. reflexivity.
  - reflexivity.
  - destruct H as (message & H1 & H2 & _); [discriminate|].
    exists message. split; [exact H1 | exact H2].
Defined.

Lemma rate_limit_info_rounds_up_witness :
  exists info,
    Twitter.parseRateLimitHeaders Fixture.env0
      (Scenario.api_response 200 true (inl "no body")) Scenario.world_valid
    = (Returned (Some info), with_ticks 1 Scenario.world_valid).
Proof.
  destruct (rate_limit_info_rounds_up Fixture.env0
              (Scenario.api_response 200 true (inl "no body")) Scenario.world_valid)
    as [_ H].
  destruct H as (info & H & _); [reflexivity|].
  exists info. exact H.
Defined.

Example rate_limit_of_fixture :
  fst (Twitter.parseRateLimitHeaders (Scenario.env_running 1 (inl "unused"))
         (Scenario.api_response 200 true (inl "no body")) Scenario.world_valid)
  = Returned
      (Some {| Twitter.limit := Some 300;
               Twitter.remaining := Some 0;
               Twitter.reset := Some 1060000;
               Twitter.resetInSeconds := Some 60 |})
  /\ fst (Twitter.parseRateLimitHeaders (Scenario.env_running 1 (inl "unused"))
            (Scenario.api_response 200 true (inl "no body"))
            (with_ticks 1 Scenario.world_valid))
     = Returned
         (Some {| Twitter.limit := Some 300;
                  Twitter.remaining := Some 0;
                  Twitter.reset := Some 1060000;
                  Twitter.resetInSeconds := Some 60 |})
  /\ fst (Twitter.parseRateLimitHeaders (Scenario.env_running 1000 (inl "unused"))
            (Scenario.api_response 200 true (inl "no body"))
            (with_ticks 70 Scenario.world_valid))
     = Returned
         (Some {| Twitter.limit := Some 300;
                  Twitter.remaining := Some 0;
                  Twitter.reset := Some 1060000;
                  Twitter.resetInSeconds := Some 0 |}).
Proof. repeat split; vm_compute; reflexivity. Qed.

Example too_many_requests_message :
  fst (Twitter.twitterRequest
         (Scenario.env_running 1000
            (inr (Scenario.api_response 429 false
                    (inr (mkApiBody None None (Some "Too Many Requests") None None)))))
         "/users/me" Scenario.world_valid)
  = Thrown (Js.Error "Too Many Requests (resets in 59s)").
Proof. vm_compute. reflexivity. Qed.

Example no_content_is_deleted :
  fst (Twitter.twitterRequest
         (Scenario.env_running 0
            (inr (Scenario.api_response 204 true (inl "Unexpected end of JSON input"))))
         "/tweets/1" Scenario.world_valid)
  = Returned Twitter.deleted_body
  /\ body_deleted Twitter.deleted_body = Some true
  /\ Twitter.deleted_body <> mkApiBody None None None None None.
Proof. repeat split; first [discriminate | vm_compute; reflexivity]. Qed.

Example parseInt_examples :
  Twitter.parseInt "1060" = Some 1060
  /\ Twitter.parseInt "  42px" = Some 42
  /\ Twitter.parseInt "-7" = Some (-7)
  /\ Twitter.parseInt "abc" = None
  /\ Twitter.parseInt EmptyString = None.
Proof. repeat split; reflexivity. Qed.

(** ** Search *)

Section SearchProperties.

Import Search.

Lemma HEX_DIGIT_unreserved (b3 b2 b1 b0 : bool) :
  unreserved (HEX_DIGIT b3 b2 b1 b0) = true.
Proof. destruct b3, b2, b1, b0; reflexivity. Qed.

Lemma HEX_DIGIT_inj (b3 b2 b1 b0 c3 c2 c1 c0 : bool) :
  HEX_DIGIT b3 b2 b1 b0 = HEX_DIGIT c3 c2 c1 c0 ->
  [b3; b2; b1; b0] = [c3; c2; c1; c0].
Proof.
  destruct b3, b2, b1, b0, c3, c2, c1, c0;
    intros H; first [reflexivity | discriminate H].
Qed.

(** An encoded byte is the byte itself when unreserved, and otherwise a
    percent sign and two hexadecimal digits. *)
Lemma encode_byte_cases (c : ascii) :
  (unreserved c = true /\ encode_byte c = String c EmptyString)
  \/ (unreserved c = false
      /\ exists h l, encode_byte c = String "%"%char (String h (String l EmptyString))
                     /\ unreserved h = true /\ unreserved l = true).
Proof.
  unfold encode_byte. destruct (unreserved c) eqn:E; [left; auto|].
  right. split; [reflexivity|]. destruct c as [b0 b1 b2 b3 b4 b5 b6 b7].
  do 2 eexists. split; [reflexivity|]. split; apply HEX_DIGIT_unreserved.
Qed.

Lemma encodeURIComponent_chars (s : string) :
  string_forallb (fun c => unreserved c || Ascii.eqb c "%"%char)
    (encodeURIComponent s) = true.
Proof.
  induction s as [|c s IH]; [reflexivity|].
  cbn [encodeURIComponent].
  destruct (encode_byte_cases c) as [[Hu ->]|[_ (h & l & -> & Hh & Hl)]].
  - rewrite string_app_cons, string_app_empty_l. cbn [string_forallb].
    now rewrite Hu, IH.
  - rewrite !string_app_cons, string_app_empty_l. cbn [string_forallb].
    now rewrite Hh, Hl, IH.
Qed.

(** A character that no position of a string holds does not occur in it. *)
Lemma includes_char_false (f : ascii -> bool) (c : ascii) (s : string) :
  string_forallb f s = true -> f c = false ->
  Js.includes (String c EmptyString) s = false.
Proof.
  intros Hs Hc. induction s as [|d s IH]; [reflexivity|].
  cbn [string_forallb] in Hs. apply andb_prop in Hs as [Hd Hs].
  cbn [Js.includes String.prefix]. rewrite (IH Hs).
  destruct (ascii_dec c d) as [->|_]; [congruence|]. reflexivity.
Qed.

(** X20. The query text cannot leave its place in the search URL: what
    [encodeURIComponent] gives is made of unreserved characters and [%]
    only, so it holds no [&], [=], [#], [?], [/], [+] and no space,
    whatever the query is. *)
Theorem encoded_query_has_no_delimiter (query delimiter : string) :
  In delimiter ["&"; "="; "#"; "?"; "/"; "+"; " "] ->
  string_forallb (fun c => unreserved c || Ascii.eqb c "%"%char)
    (encodeURIComponent query) = true
  /\ Js.includes delimiter (encodeURIComponent query) = false.
Proof.
  intros Hin. split; [apply encodeURIComponent_chars|].
  simpl in Hin.
  repeat (destruct Hin as [<-|Hin];
          [apply (includes_char_false _ _ _ (encodeURIComponent_chars query));
           reflexivity|]).
  contradiction.
Qed.

Lemma encodeURIComponent_inj (s1 s2 : string) :
  encodeURIComponent s1 = encodeURIComponent s2 -> s1 = s2.
Proof.
  revert s2. induction s1 as [|c1 s1 IH]; intros [|c2 s2]; cbn [encodeURIComponent].
  - reflexivity.
  - destruct (encode_byte_cases c2) as [[_ ->]|[_ (h & l & -> & _)]]; discriminate.
  - destruct (encode_byte_cases c1) as [[_ ->]|[_ (h & l & -> & _)]]; discriminate.
  - intros H.
    unfold encode_byte in H.
    destruct (unreserved c1) eqn:E1, (unreserved c2) eqn:E2.
    + rewrite !string_app_cons, !string_app_empty_l in H.
      injection H as -> H. now rewrite (IH s2 H).
    + destruct c2 as [b0 b1 b2 b3 b4 b5 b6 b7].
      rewrite !string_app_cons, !string_app_empty_l in H.
      injection H as -> _. discriminate E1.
    + destruct c1 as [b0 b1 b2 b3 b4 b5 b6 b7].
      rewrite !string_app_cons, !string_app_empty_l in H.
      injection H as <- _. discriminate E2.
    + destruct c1 as [a0 a1 a2 a3 a4 a5 a6 a7], c2 as [b0 b1 b2 b3 b4 b5 b6 b7].
      rewrite !string_app_cons, !string_app_empty_l in H.
      injection H as Hh Hl H.
      apply HEX_DIGIT_inj in Hh, Hl.
      injection Hh as -> -> -> ->. injection Hl as -> -> -> ->.
      now rewrite (IH s2 H).
Qed.

Lemma string_app_inv_tail (a b s : string) : a ++ s = b ++ s -> a = b.
Proof.
  revert b. induction a as [|c a IH]; intros [|d b] H.
  - reflexivity.
  - exfalso. apply (f_equal String.length) in H.
    rewrite string_app_cons in H. cbn [String.length] in H.
    rewrite string_app_empty_l, string_length_app in H. lia.
  - exfalso. apply (f_equal String.length) in H.
    rewrite string_app_cons in H. cbn [String.length] in H.
    rewrite string_app_empty_l, string_length_app in H. lia.
  - rewrite !string_app_cons in H. injection H as -> H. now rewrite (IH b H).
Qed.

(** X21. Different queries give different search URLs: the encoding of
    the query loses nothing. *)
Theorem search_url_determines_the_query (query1 query2 : string) :
  query1 <> query2 -> search_url query1 <> search_url query2.
Proof.
  unfold search_url. intros Hne H. apply Hne.
  apply String.app_inj in H. apply string_app_inv_tail in H.
  exact (encodeURIComponent_inj _ _ H).
Qed.

End SearchProperties.

Lemma encoded_query_has_no_delimiter_witness :
  Js.includes "&" (Search.encodeURIComponent "cats&max_results=100 #x") = false.
Proof.
  apply (encoded_query_has_no_delimiter "cats&max_results=100 #x" "&").
  simpl. auto.
Defined.

Lemma search_url_determines_the_query_witness :
  Search.search_url "a b" <> Search.search_url "a%20b".
Proof.
  apply (search_url_determines_the_query "a b" "a%20b"). discriminate.
Defined.

Example search_url_of_query :
  Search.search_url "cats&max_results=100 #x"
  = "/tweets/search/recent?query=cats%26max_results%3D100%20%23x" ++
    "&tweet.fields=id,text,author_id,created_at,public_metrics,source&max_results=10".
Proof. reflexivity. Qed.

Example encodeURIComponent_examples :
  Search.encodeURIComponent "a-b_c.d!e~f*g'h(i)j" = "a-b_c.d!e~f*g'h(i)j"
  /\ Search.encodeURIComponent "100% sure?" = "100%25%20sure%3F"
  /\ Search.encodeURIComponent (String (ascii_of_nat 195) (String (ascii_of_nat 169) EmptyString))
     = "%C3%A9".
Proof. repeat split; reflexivity. Qed.

(** ** The callback that carries the code, and the users lookup in range *)

Section MoreFlow.

Variable env : Env.


(** X23. With one to a hundred ids, a valid token and an OK answer of
    the API, [getUsersByIds] makes exactly one request, to [/users] with
    the ids joined by commas in the order given, and returns the [data] of
    the answer, or the empty list when the answer has no [data]. *)
Theorem getUsersByIds_in_range
    (userIds : list string) (w : World) (token : option string)
    (response : ApiResponse) (body : ApiBody) :
  (0 < length userIds <= 100)%nat ->
  fst (Auth.getValidAccessToken env w) = Returned token ->
  api env (calls (snd (Auth.getValidAccessToken env w)))
    (Twitter.TWITTER_API_BASE ++ "/users?ids=" ++ String.concat "," userIds ++
     "&user.fields=" ++ String.concat "," Twitter.user_fields)
    ("Bearer " ++ Js.to_string token)
  = inr response ->
  status response <> 204 ->
  ok response = true ->
  json response = inr body ->
  fst (Twitter.getUsersByIds env userIds w)
  = Returned (match body_data body with Some users => users | None => [] end)
  /\ calls (snd (Twitter.getUsersByIds env userIds w)) = S (calls w)
  /\ trace (snd (Twitter.getUsersByIds env userIds w))
     = (trace (snd (Auth.getValidAccessToken env w))
        ++ [ApiGet
              (Twitter.TWITTER_API_BASE ++ "/users?ids=" ++
               String.concat "," userIds ++
               "&user.fields=" ++ String.concat "," Twitter.user_fields)
              ("Bearer " ++ Js.to_string token)])%list.
Proof.
  intros Hlen Ht Ha Hs Hok Hj.
  destruct (twitterRequest_answered env _ w token response Ht Ha)
    as (w3 & suffix & Hc & Htr & E).
  unfold Twitter.getUsersByIds.
  destruct (Nat.eqb_spec (length userIds) 0); [lia|].
  destruct (Nat.ltb_spec 100 (length userIds)); [lia|].
  unfold bind. rewrite E.
  destruct (Z.eqb_spec (status response) 204); [contradiction|].
  rewrite Hj, Hok. cbn [negb fst snd]. unfold ret. cbn [fst snd].
  split; [now destruct (body_data body)|]. split; assumption.
Qed.

End MoreFlow.


(** The page of the 200 reply, and the late request that is answered 400
    after it. *)
Example confirmation_page :
  String.length Auth.success_page = 428%nat
  /\ String.prefix (Auth.nl ++ "          <html>") Auth.success_page = true
  /\ trace (snd (Auth.listener "st" Auth.Pending
                   [Parsed [("code", "AUTHCODE1"); ("state", "st")];
                    Parsed [("error", "late")]] Fixture.world_fresh))
     = [Reply 200 Auth.success_page; ServerClose;
        Reply 400 "<h1>Error: late</h1><p></p><p>You can close this window.</p>";
        ServerClose; ServerClose].
Proof. repeat split; vm_compute; reflexivity. Qed.

Lemma getUsersByIds_in_range_witness :
  fst (Twitter.getUsersByIds
         (Scenario.env_running 0
            (inr (Scenario.api_response 200 true
                    (inr (mkApiBody (Some ["alice"; "bob"]) None None None None)))))
         ["12"; "34"] Scenario.world_valid)
  = Returned ["alice"; "bob"].
Proof.
  apply (getUsersByIds_in_range
           (Scenario.env_running 0
              (inr (Scenario.api_response 200 true
                      (inr (mkApiBody (Some ["alice"; "bob"]) None None None None)))))
           ["12"; "34"] Scenario.world_valid (Some "T1")
           (Scenario.api_response 200 true
              (inr (mkApiBody (Some ["alice"; "bob"]) None None None None)))
           (mkApiBody (Some ["alice"; "bob"]) None None None None)).
  - simpl. lia.
  - vm_compute. reflexivity.
  - reflexivity.
  - discriminate.
  - reflexivity.
  - reflexivity.
Defined.
